(** * Escale relay coordination protocol and access-modifier store

    A shallow embedding of [escale/relay/relay.py] (marker codec, lock and
    placeholder managers, [pop], [markAsRead], listing primitives) and of
    [escale/manager/access.py] (access attributes and access controller),
    followed by the properties established about them.

    Python strings and byte strings are lists of characters; remote and
    local file systems are finite maps from paths to contents; exceptions
    are values of [exn]; methods that touch the relay or the local disk
    are computations in a state-and-exception monad. *)

From Stdlib Require Import ZArith Ascii String List Bool Lia.
From stdpp Require Import base option list gmap strings.

Open Scope Z_scope.
Open Scope list_scope.

(** ** Python strings *)

Abbreviation str := (list ascii).

(** A literal, written as a Rocq string. *)
Notation "$ s" := (list_ascii_of_string s) (at level 1, format "$ s").

Module Py.

Definition sep : ascii := "/"%char.
Definition dot : ascii := "."%char.
(** Line feed. *)
Definition LF : ascii := "010"%char.
(** Carriage return. *)
Definition CR : ascii := "013"%char.

(** [s.startswith(p)] *)
Fixpoint startswith (s p : str) {struct p} : bool :=
  match p, s with
  | [], _ => true
  | _ :: _, [] => false
  | c :: p', d :: s' => bool_decide (c = d) && startswith s' p'
  end.

(** [s.endswith(p)] *)
Definition endswith (s p : str) : bool := startswith (rev s) (rev p).

(** [s[start:stop]] for a non-negative [start]; [stop] is [None] or an
    integer, negative values counting from the end. *)
Definition slice (s : str) (start : nat) (stop : option Z) : str :=
  let n := length s in
  let e := match stop with
           | None => n
           | Some z => if (z <? 0)%Z then Z.to_nat (Z.of_nat n + z)
                       else Nat.min (Z.to_nat z) n
           end in
  take (e - start)%nat (drop start s).

(** [s.rfind(c) + 1]: one past the last occurrence of [c], 0 if none. *)
Fixpoint rfind1 (c : ascii) (s : str) : nat :=
  match s with
  | [] => 0%nat
  | x :: s' =>
      match rfind1 c s' with
      | O => if bool_decide (x = c) then 1%nat else 0%nat
      | S i => S (S i)
      end
  end.

(** [s.rstrip(c)] for a single character [c]. *)
Fixpoint rstrip (c : ascii) (s : str) : str :=
  match s with
  | [] => []
  | x :: s' =>
      match rstrip c s' with
      | [] => if bool_decide (x = c) then [] else [x]
      | t => x :: t
      end
  end.

(** [c in s] *)
Definition contains (c : ascii) (s : str) : bool :=
  existsb (fun x => bool_decide (x = c)) s.

(** [s == c * len(s)] *)
Definition all_are (c : ascii) (s : str) : bool :=
  forallb (fun x => bool_decide (x = c)) s.

(** Truth value of a string. *)
Definition truthy (s : str) : bool :=
  match s with [] => false | _ => true end.

(** [posixpath.split] *)
Definition os_path_split (p : str) : str * str :=
  let i := rfind1 sep p in
  let head := take i p in
  let tail := drop i p in
  let head := if truthy head && negb (all_are sep head)
              then rstrip sep head else head in
  (head, tail).

(** [posixpath.basename] *)
Definition os_path_basename (p : str) : str := drop (rfind1 sep p) p.

(** [posixpath.join] with two arguments. *)
Definition os_path_join (a b : str) : str :=
  if startswith b [sep] then b
  else if negb (truthy a) || endswith a [sep] then a ++ b
  else a ++ sep :: b.

(** [f.readlines()] on a file opened with [open(path, 'r')], with
    content [s].  In the text mode of Python 3 a line ends at a line
    feed, at a carriage return, or at a carriage return followed by a
    line feed, and each of the three is read as a line feed; a last
    line without line end is kept as well. *)
Fixpoint readlines_from (cur : str) (s : str) : list str :=
  match s with
  | [] => match cur with [] => [] | _ => [rev cur] end
  | c :: s' =>
      if bool_decide (c = LF) then rev (LF :: cur) :: readlines_from [] s'
      else if bool_decide (c = CR) then
        match s' with
        | c' :: s'' =>
            if bool_decide (c' = LF)
            then rev (LF :: cur) :: readlines_from [] s''
            else rev (LF :: cur) :: readlines_from [] s'
        | [] => [rev (LF :: cur)]
        end
      else readlines_from (c :: cur) s'
  end.

Definition readlines (s : str) : list str := readlines_from [] s.

(** [s[::-1].split('.', 1)[1][::-1]]: what precedes the last [c];
    [None] stands for the [IndexError] raised when [c] does not occur. *)
Definition before_last (c : ascii) (s : str) : option str :=
  match rfind1 c s with
  | O => None
  | S i => Some (take i s)
  end.

(** [s.count(c)] for a single character [c]. *)
Definition count (c : ascii) (s : str) : nat :=
  length (List.filter (fun x => bool_decide (x = c)) s).

(** [s.lower()], on the letters A to Z. *)
Definition lower_char (c : ascii) : ascii :=
  let n := nat_of_ascii c in
  if (65 <=? n)%nat && (n <=? 90)%nat then ascii_of_nat (n + 32) else c.

Definition lower (s : str) : str := map lower_char s.

End Py.

(** ** Exceptions and outcomes *)

Inductive exn : Type :=
| EnvironmentError (errno : option Z)   (* OSError, IOError and subclasses *)
| UnrecoverableError (cause : exn)
| AttributeError
| NameError
| ValueError
| KeyError
| IndexError
| TypeError
| NotImplementedError.

(** What a call produces: a value, an exception, or [Pending] when a
    polling loop has not finished within the number of rounds allotted. *)
Inductive outcome (A : Type) : Type :=
| Ok (a : A)
| Raise (e : exn)
| Pending.
Arguments Ok {A} a.
Arguments Raise {A} e.
Arguments Pending {A}.

(** ** The world: relay host, local disk, clock *)

(** Local paths: user files, and temporary files as [tempfile.mkstemp]
    hands them out (never the path of a user file). *)
Inductive lpath : Type :=
| User (p : str)
| Temp (n : nat).

#[global] Instance lpath_eq_dec : EqDecision lpath.
Proof. solve_decision. Defined.

#[global] Instance lpath_countable : Countable lpath.
Proof.
  refine (inj_countable'
            (fun p => match p with User s => inl s | Temp n => inr n end)
            (fun x => match x with inl s => User s | inr n => Temp n end) _).
  intros []; reflexivity.
Defined.

(** Modification time as a listing reports it: absent, a number of
    seconds since the epoch, or a [time.struct_time], represented by the
    number of seconds [calendar.timegm] maps it to.  Times are whole
    seconds. *)
Inductive mtime : Type :=
| NoTime
| Seconds (t : Z)
| StructTime (t : Z).

Record blob : Type := Blob { content : str; modified : mtime }.

Record world : Type := World {
  remote : gmap str blob;            (* blobs on the relay host, by path *)
  disk : gmap lpath str;             (* local files *)
  clock : Z;                         (* [time.time()] *)
  next_temp : nat;                   (* next name [mkstemp] hands out *)
  _temporary_files : list lpath      (* [Relay._temporary_files] *)
}.

Definition set_remote (f : gmap str blob -> gmap str blob) (w : world) : world :=
  World (f (remote w)) (disk w) (clock w) (next_temp w) (_temporary_files w).
Definition set_disk (f : gmap lpath str -> gmap lpath str) (w : world) : world :=
  World (remote w) (f (disk w)) (clock w) (next_temp w) (_temporary_files w).
Definition set_clock (f : Z -> Z) (w : world) : world :=
  World (remote w) (disk w) (f (clock w)) (next_temp w) (_temporary_files w).
Definition set_next_temp (f : nat -> nat) (w : world) : world :=
  World (remote w) (disk w) (clock w) (f (next_temp w)) (_temporary_files w).
Definition set_temporary_files (f : list lpath -> list lpath) (w : world) : world :=
  World (remote w) (disk w) (clock w) (next_temp w) (f (_temporary_files w)).

(** ** State-and-exception monad *)

(** Computations over a state of type [S]. *)
Definition ST (S A : Type) : Type := S -> outcome A * S.

Definition ret {S A} (a : A) : ST S A := fun w => (Ok a, w).
Definition raise {S A} (e : exn) : ST S A := fun w => (Raise e, w).
Definition pending {S A} : ST S A := fun w => (Pending, w).

Definition bind {S A B} (m : ST S A) (k : A -> ST S B) : ST S B :=
  fun w => match m w with
           | (Ok a, w') => k a w'
           | (Raise e, w') => (Raise e, w')
           | (Pending, w') => (Pending, w')
           end.

Notation "'do' x <- m ; k" := (bind m (fun x => k))
  (at level 10, x pattern, m at level 100, k at level 200,
   format "'[v' 'do'  x  <-  m ; '/' k ']'").
Notation "m ;; k" := (bind m (fun _ => k))
  (at level 100, k at level 200, right associativity).

(** [try: body / except: handler] *)
Definition try_except {S A} (body : ST S A) (handler : exn -> ST S A) : ST S A :=
  fun w => match body w with
           | (Raise e, w') => handler e w'
           | r => r
           end.

(** [try: body / finally: cleanup] *)
Definition try_finally {S A} (body : ST S A) (cleanup : ST S unit) : ST S A :=
  fun w => match body w with
           | (Ok a, w') => (cleanup ;; ret a) w'
           | (Raise e, w') => (cleanup ;; raise e) w'
           | (Pending, w') => (Pending, w')
           end.

Definition gets {S A} (f : S -> A) : ST S A := fun w => (Ok (f w), w).
Definition modify {S} (f : S -> S) : ST S unit := fun w => (Ok tt, f w).

(** Computations of the relay engine. *)
Abbreviation M := (ST world).

(** [ENOENT] *)
Definition not_found : exn := EnvironmentError (Some 2).

(** *** Local disk and clock *)

(** [tempfile.mkstemp()] followed by closing the descriptor: a new
    empty file. *)
Definition mkstemp : M lpath :=
  do n <- gets next_temp;
  modify (set_next_temp S) ;;
  modify (set_disk (insert (Temp n) [])) ;;
  ret (Temp n).

(** [os.unlink(f)] *)
Definition os_unlink (f : lpath) : M unit :=
  do d <- gets disk;
  match d !! f with
  | Some _ => modify (set_disk (delete f))
  | None => raise not_found
  end.

(** Reading a whole local file. *)
Definition read_file (f : lpath) : M str :=
  do d <- gets disk;
  match d !! f with
  | Some c => ret c
  | None => raise not_found
  end.

(** [open(f, 'w')] and one [write]. *)
Definition write_file (f : lpath) (c : str) : M unit :=
  modify (set_disk (insert f c)).

(** [open(f, 'a')] and one [write]; the file is created when missing. *)
Definition append_file (f : lpath) (c : str) : M unit :=
  do d <- gets disk;
  modify (set_disk (insert f (default [] (d !! f) ++ c))).

Definition time_time : M Z := gets clock.

Definition time_sleep (secs : Z) : M unit :=
  if (secs <? 0)%Z then raise ValueError
  else modify (set_clock (fun t => t + secs)).

(** ** Lock information ([escale.relay.info]) *)

Record LockInfo : Type := mkLockInfo {
  owner : option str;
  mode : option str;
  target : option str
}.

#[global] Instance LockInfo_eq_dec : EqDecision LockInfo.
Proof. solve_decision. Defined.

(** Modelled from the spec: the zero-value information [LockInfo()] that
    [getLockInfo] returns on read failure; the class lives in
    [escale/relay/info.py]. *)
Definition LockInfo_zero : LockInfo := mkLockInfo None None None.

(** Helpers of [escale.base.essential] and [escale.relay.info] the relay
    calls. *)
Class Essential : Type := {
  (** [join(dirname, basename)] *)
  join : str -> str -> str;
  (** [repr(lock_info)], the body written to a lock blob *)
  repr_LockInfo : LockInfo -> str;
  (** [parse_lock_file(file, target=...)] on a local file with the given
      content; zero-value information on malformed content *)
  parse_lock_file : str -> str -> LockInfo
}.

(** Truth value of an attribute that is [None] or a string. *)
Definition truthy_opt (o : option str) : bool :=
  match o with Some s => Py.truthy s | None => false end.

(** Truth value of a path: that of its name.  The names [mkstemp] hands
    out are not empty. *)
Definition lpath_truthy (p : lpath) : bool :=
  match p with User name => Py.truthy name | Temp _ => true end.

(** Truth value of an argument that is [None] or a path. *)
Definition truthy_path (o : option lpath) : bool :=
  match o with Some p => lpath_truthy p | None => false end.

(** Truth value of an [mtime] entry. *)
Definition mtime_truthy (m : mtime) : bool :=
  match m with
  | NoTime => false
  | Seconds t => negb (t =? 0)
  | StructTime _ => true
  end.

(** The [mtime] entry in seconds, [calendar.timegm] applied to a
    [struct_time]. *)
Definition mtime_seconds (m : mtime) : Z :=
  match m with
  | NoTime => 0
  | Seconds t => t
  | StructTime t => t
  end.

(** ** The transport *)

(** Modelled from the spec: the abstract methods [_list], [_push], [_get]
    and [_pop] of [Relay], which derivative classes implement, as the
    passive blob store of section 4.2: a dictionary from paths to blobs;
    getting or deleting a missing blob fails with a not-found error; a
    listing that is not recursive gives the names whose directory part
    is [remote_dir]. *)
Module Transport.
Import Py.

Definition relative_name (remote_dir : str) (recursive : bool) (k : str)
  : option str :=
  if recursive then
    if truthy remote_dir then
      if startswith k (remote_dir ++ [sep])
      then Some (drop (S (length remote_dir)) k) else None
    else Some k
  else
    let '(d, n) := os_path_split k in
    if bool_decide (d = remote_dir) then Some n else None.

Definition listing (r : gmap str blob) (remote_dir : str) (recursive : bool)
  : list (str * mtime) :=
  omap (fun kb : str * blob =>
          n ← relative_name remote_dir recursive kb.1;
          Some (n, modified kb.2))
       (map_to_list r).

(** [_list(remote_dir, recursive, stats=['mtime'])] *)
Definition _list_mtime (remote_dir : str) (recursive : bool)
  : M (list (str * mtime)) :=
  do r <- gets remote;
  ret (listing r remote_dir recursive).

(** [_list(remote_dir, recursive)] *)
Definition _list (remote_dir : str) (recursive : bool) : M (list str) :=
  do ls <- _list_mtime remote_dir recursive;
  ret (map fst ls).

Definition _push (local_file : lpath) (remote_dest : str) : M unit :=
  do c <- read_file local_file;
  do t <- time_time;
  modify (set_remote (insert remote_dest (Blob c (Seconds t)))).

Definition _get (remote_file : str) (local_dest : lpath) : M unit :=
  do r <- gets remote;
  match r !! remote_file with
  | Some b => write_file local_dest (content b)
  | None => raise not_found
  end.

Definition _pop (remote_file : str) (local_dest : lpath) : M unit :=
  _get remote_file local_dest ;;
  modify (set_remote (delete remote_file)).

End Transport.

(** ** [class Accessor] ([escale/manager/access.py]) *)

(** The interface to one local file: its two callbacks. *)
Module Accessor.

Record t : Type := {
  exists_ : M bool;
  delete_ : M unit
}.

End Accessor.

(** ** [class Relay] *)

Module Relay.
Import Py Transport.

(** The attributes of a relay object that its methods read. *)
Record t : Type := {
  client : str;
  _placeholder_prefix : str;
  _placeholder_suffix : str;
  _lock_prefix : str;
  _lock_suffix : str;
  lock_timeout : Z;                     (* 0 for [False] *)
  _message_hash : option (str -> str);
  _message_prefix : str;
  _message_suffix : str
}.

(** The [lock_timeout] argument of the constructor: a boolean or a
    number. *)
Inductive timeout_arg : Type :=
| TimeoutBool (b : bool)
| TimeoutInt (n : Z).

Definition __init__ (client : str) (lock_timeout : timeout_arg)
    (timestamped_messages : bool) : exn + t :=
  let lock_timeout :=
    match lock_timeout with
    | TimeoutBool true => 3600
    | TimeoutBool false => 0
    | TimeoutInt n => n
    end in
  if timestamped_messages
  then inl NameError          (* [message_hash] is not a defined name *)
  else inr {| client := client;
              _placeholder_prefix := $".";
              _placeholder_suffix := $".placeholder";
              _lock_prefix := $".";
              _lock_suffix := $".lock";
              lock_timeout := lock_timeout;
              _message_hash := None;
              _message_prefix := $".";
              _message_suffix := $".message" |}.

(** *** Marker codec *)

Definition with_path (path : str) (fun_ : str -> str) : str :=
  let '(_dir, _file) := os_path_split path in
  os_path_join _dir (fun_ _file).

Section Codec.
Variable self : t.

Definition _placeholder (filename : str) : str :=
  _placeholder_prefix self ++ filename ++ _placeholder_suffix self.

Definition _lock (filename : str) : str :=
  _lock_prefix self ++ filename ++ _lock_suffix self.

Definition _isPlaceholder (filename : str) : bool :=
  startswith filename (_placeholder_prefix self)
  && endswith filename (_placeholder_suffix self).

Definition _isLock (filename : str) : bool :=
  startswith filename (_lock_prefix self)
  && endswith filename (_lock_suffix self).

Definition _fromPlaceholder (filename : str) : str :=
  let end_ := if truthy (_placeholder_suffix self)
              then Some (- Z.of_nat (length (_placeholder_suffix self)))
              else None in
  slice filename (length (_placeholder_prefix self)) end_.

Definition _fromLock (filename : str) : str :=
  let end_ := if truthy (_lock_suffix self)
              then Some (- Z.of_nat (length (_lock_suffix self)))
              else None in
  slice filename (length (_lock_prefix self)) end_.

Definition _safePlaceholder (filename : str) : str :=
  if _isPlaceholder filename then filename else _placeholder filename.

Definition _safeLock (filename : str) : str :=
  if _isLock filename then filename else _lock filename.

Definition placeholder (path : str) : str := with_path path _safePlaceholder.
Definition lock (path : str) : str := with_path path _safeLock.

Definition isPlaceholder (path : str) : bool :=
  _isPlaceholder (os_path_basename path).
Definition isLock (path : str) : bool :=
  _isLock (os_path_basename path).

Definition fromPlaceholder (path : str) : str :=
  with_path path _fromPlaceholder.
Definition fromLock (path : str) : str :=
  with_path path _fromLock.

Definition _isMessage (filename : str) : bool :=
  startswith filename (_message_prefix self)
  && endswith filename (_message_suffix self).

Definition isMessage (path : str) : bool :=
  _isMessage (os_path_basename path).

(** [self.message_hash]: the object has the slot [_message_hash] but
    no attribute of this name, and none is ever set. *)
Definition message_hash : exn + option (str -> str) := inl AttributeError.

Definition _message (filename filepath : str) : exn + str :=
  match message_hash with
  | inl e => inl e
  | inr None =>
      inr (_message_prefix self ++ filename ++ _message_suffix self)
  | inr (Some hash) =>
      let _hash := hash filepath in
      if contains dot _hash then inl ValueError
      else inr (_message_prefix self ++ filename ++ dot :: _hash
                  ++ _message_suffix self)
  end.

Definition _safeMessage (filename filepath : str) : exn + str :=
  if _isMessage filename then inr filename else _message filename filepath.

Definition message (path : str) : exn + str :=
  let '(_dir, _file) := os_path_split path in
  match _safeMessage _file path with
  | inl e => inl e
  | inr m => inr (os_path_join _dir m)
  end.

Definition _fromMessage (filename : str) : exn + str :=
  let end_ := if truthy (_message_suffix self)
              then Some (- Z.of_nat (length (_message_suffix self)))
              else None in
  let message := slice filename (length (_message_prefix self)) end_ in
  match _message_hash self with
  | Some _ =>
      match before_last dot message with
      | Some m => inr m
      | None => inl IndexError
      end
  | None => inr message
  end.

Definition fromMessage (path : str) : exn + str :=
  let '(_dir, _file) := os_path_split path in
  match _fromMessage _file with
  | inl e => inl e
  | inr m => inr (os_path_join _dir m)
  end.

Definition _isSpecial (filename : str) : bool :=
  _isLock filename || _isPlaceholder filename || _isMessage filename.

Definition isSpecial (path : str) : bool :=
  _isSpecial (os_path_basename path).

Definition _fromSpecial (filename : str) : exn + str :=
  if _isLock filename then inr (_fromLock filename)
  else if _isPlaceholder filename then inr (_fromPlaceholder filename)
  else if _isMessage filename then _fromMessage filename
  else inl ValueError.

Definition fromSpecial (path : str) : exn + str :=
  let '(_dir, _file) := os_path_split path in
  match _fromSpecial _file with
  | inl e => inl e
  | inr f => inr (os_path_join _dir f)
  end.

End Codec.

(** *** Error escalation *)

Definition _safe {A} (callback : M A) : M A :=
  try_except callback
    (fun e =>
       match e with
       | EnvironmentError errno =>
           if bool_decide (errno = Some 24)
           then raise (UnrecoverableError e)
           else raise e
       | _ => raise e
       end).

(** *** Temporary files *)

Definition newTemporaryFile : M lpath :=
  do name <- mkstemp;
  modify (set_temporary_files (fun l => l ++ [name])) ;;
  ret name.

(** [list.remove]: the first occurrence goes; [None] for [ValueError]. *)
Fixpoint list_remove (f : lpath) (l : list lpath) : option (list lpath) :=
  match l with
  | [] => None
  | x :: l' => if bool_decide (x = f) then Some l'
               else option_map (cons x) (list_remove f l')
  end.

Definition delTemporaryFile (f : lpath) : M unit :=
  try_except (os_unlink f)
    (fun e => match e with EnvironmentError _ => ret tt | _ => raise e end) ;;
  modify (set_temporary_files (fun l => default l (list_remove f l))).

(** *** Engine *)

(** The [content] argument of [touch]: nothing, a text, or a list of
    lines. *)
Inductive touch_content : Type :=
| NoContent
| Text (s : str)
| Lines (l : list str).

(** What [touch] writes to the temporary file. *)
Fixpoint join_lines (l : list str) : str :=
  match l with
  | [] => []
  | [line] => line
  | line :: rest => line ++ LF :: join_lines rest
  end.

Definition written (content : touch_content) : str :=
  match content with
  | NoContent => []
  | Text s => s
  | Lines l => join_lines l
  end.

(** The [blocking] argument: a boolean or a number of seconds. *)
Inductive blocking_arg : Type :=
| BlockBool (b : bool)
| BlockSecs (n : Z).

Definition blocking_truthy (b : blocking_arg) : bool :=
  match b with
  | BlockBool b => b
  | BlockSecs n => negb (n =? 0)
  end.

Section Engine.
Context `{Essential}.
Variable self : t.

(** [_list] wrapped by [_safe], as every caller in [Relay] has it. *)
Definition exists_ (filename : str) (dirname : option str) : M bool :=
  let '(dirname, filename) :=
    if truthy_opt dirname then (default [] dirname, filename)
    else os_path_split filename in
  do ls <- _safe (_list dirname false);
  ret (bool_decide (filename ∈ ls)).

Definition touch (remote_file : str) (content : touch_content) : M unit :=
  do local_file <- _safe mkstemp;
  try_finally
    (write_file local_file (written content) ;;
     _safe (_push local_file remote_file))
    (os_unlink local_file).

(** [unlink] of one file; a list of files is unlinked by
    [unlink_files]. *)
Definition unlink (remote_file : str) : M unit :=
  do trash <- mkstemp;
  try_finally (_safe (_pop remote_file trash)) (os_unlink trash).

Fixpoint unlink_each (trash : lpath) (files : list str) : M unit :=
  match files with
  | [] => ret tt
  | file :: rest => _safe (_pop file trash) ;; unlink_each trash rest
  end.

Definition unlink_files (remote_file : list str) : M unit :=
  do trash <- mkstemp;
  try_finally (unlink_each trash remote_file) (os_unlink trash).

Definition hasPlaceholder (remote_file : str) : M bool :=
  let '(dirname, filename) := os_path_split remote_file in
  exists_ (_placeholder self filename) (Some dirname).

Definition hasLock (remote_file : str) : M bool :=
  let '(dirname, filename) := os_path_split remote_file in
  exists_ (_lock self filename) (Some dirname).

Definition getLockInfo (remote_file : str) : M LockInfo :=
  let remote_lock := lock self remote_file in
  do local_lock <- _safe mkstemp;
  try_finally
    (do got <- try_except
                 (_safe (_get remote_lock local_lock) ;; ret true)
                 (fun e => match e with
                           | UnrecoverableError _ => raise e
                           | _ => ret false
                           end);
     if (got : bool) then
       do c <- read_file local_lock;
       _safe (ret (parse_lock_file c remote_file))
     else ret LockInfo_zero)
    (os_unlink local_lock).

Definition updatePlaceholder (remote_file : str)
    (last_modified : touch_content) : M unit :=
  touch (placeholder self remote_file) last_modified.

(** The polling loop of [acquireLock], for at most [rounds] tests of
    the lock. *)
Fixpoint acquireLock_wait (rounds : nat) (remote_file : str) (secs : Z)
  : M unit :=
  match rounds with
  | O => pending
  | S rounds' =>
      do locked <- hasLock remote_file;
      if (locked : bool) then
        time_sleep secs ;; acquireLock_wait rounds' remote_file secs
      else ret tt
  end.

Definition acquireLock (rounds : nat) (remote_file : str)
    (mode : option str) (blocking : blocking_arg) : M bool :=
  do free <-
    (if blocking_truthy blocking then
       let secs := match blocking with
                   | BlockBool _ => 60
                   | BlockSecs n => n
                   end in
       acquireLock_wait rounds remote_file secs ;; ret true
     else
       do locked <- hasLock remote_file;
       ret (negb locked));
  if (free : bool) then
    let lock_info := mkLockInfo (Some (client self)) mode None in
    touch (lock self remote_file) (Text (repr_LockInfo lock_info)) ;;
    ret true
  else ret false.

Definition releaseLock (remote_file : str) : M unit :=
  unlink (lock self remote_file).

Definition push (rounds : nat) (local_file : lpath) (remote_dest : str)
    (last_modified : option str) (blocking : blocking_arg) : M bool :=
  do acquired <- acquireLock rounds remote_dest (Some $"w") blocking;
  if negb acquired then ret false
  else
    (if truthy_opt last_modified
     then updatePlaceholder remote_dest (Text (default [] last_modified))
     else ret tt) ;;
    _safe (_push local_file remote_dest) ;;
    releaseLock remote_dest ;;
    ret true.

Definition markAsRead (remote_file : str) (local_placeholder : option lpath)
  : M unit :=
  let remote_placeholder := placeholder self remote_file in
  let get := negb (truthy_path local_placeholder) in
  let download :=
    do local_placeholder <- newTemporaryFile;
    _safe (_get remote_placeholder local_placeholder) ;;
    _safe (append_file local_placeholder (LF :: client self)) ;;
    ret local_placeholder in
  do local_placeholder <-
    match local_placeholder with
    | Some local_placeholder =>
        if lpath_truthy local_placeholder then ret local_placeholder
        else download
    | None => download
    end;
  _safe (_push local_placeholder remote_placeholder) ;;
  if get then delTemporaryFile local_placeholder else ret tt.

(** A local variable that is not bound on the path taken, and is
    not read there. *)
Definition unbound : lpath := Temp 0.

(** [placeholder_] is the [placeholder] argument, a boolean or the
    number of pullers ([True] is 1, [False] is 0); [kwargs] holds the
    [local_placeholder] keyword when the caller passes one. *)
Definition pop (rounds : nat) (remote_file : str) (local_dest : lpath)
    (placeholder_ : Z) (blocking : blocking_arg) (kwargs : option lpath)
  : M bool :=
  do acquired <- acquireLock rounds remote_file (Some $"r") blocking;
  if negb acquired then ret false
  else
    do decided <-
      (if negb (placeholder_ =? 0) then
         do has_placeholder <- hasPlaceholder remote_file;
         if has_placeholder && (1 <? placeholder_) then
           let remote_placeholder := placeholder self remote_file in
           do local_placeholder <- newTemporaryFile;
           let kwargs := Some local_placeholder in
           _safe (_get remote_placeholder local_placeholder) ;;
           do lines <- _safe (read_file local_placeholder);
           let nreads := Z.of_nat (length (readlines lines)) - 1 in
           ret (nreads <? placeholder_ - 1, has_placeholder, kwargs,
                local_placeholder)
         else ret (false, has_placeholder, kwargs, unbound)
       else ret (false, false, kwargs, unbound));
    let '(let_, has_placeholder, kwargs, local_placeholder) := decided in
    (if (let_ : bool) then _safe (_get remote_file local_dest)
     else _safe (_pop remote_file local_dest)) ;;
    (if negb (placeholder_ =? 0) then
       if (has_placeholder : bool) then
         markAsRead remote_file kwargs ;;
         if 1 <? placeholder_
         then delTemporaryFile local_placeholder
         else ret tt
       else updatePlaceholder remote_file NoContent
     else ret tt) ;;
    releaseLock remote_file ;;
    ret true.

Definition get (rounds : nat) (remote_file : str) (local_dest : lpath)
    (placeholder_ : Z) (blocking : blocking_arg) (kwargs : option lpath)
  : M bool :=
  do acquired <- acquireLock rounds remote_file (Some $"r") blocking;
  if negb acquired then ret false
  else
    _safe (_get remote_file local_dest) ;;
    do marked <-
      (if negb (placeholder_ =? 0) then hasPlaceholder remote_file
       else ret false);
    (if (marked : bool) then markAsRead remote_file kwargs else ret tt) ;;
    releaseLock remote_file ;;
    ret true.

(** *** Listing primitives *)

(** The loop of [listReady] over [files], the rest of the listing
    [ls]. *)
Fixpoint listReady_for (ls files ready : list str) : list str :=
  match files with
  | [] => ready
  | file :: rest =>
      let '(filedir, filename) := os_path_split file in
      let lock := join filedir (_lock self filename) in
      if negb (_isLock self filename)
         && negb (_isPlaceholder self filename)
         && negb (bool_decide (lock ∈ ls))
      then listReady_for ls rest (ready ++ [file])
      else listReady_for ls rest ready
  end.

Definition listReady (remote_dir : str) (recursive : bool) : M (list str) :=
  do ls <- _safe (_list remote_dir recursive);
  ret (listReady_for ls ls []).

(** One round of the loop of [listCorrupted]. *)
Definition listCorrupted_entry (remote_dir : str) (file : str)
    (mtime_ : mtime) (locks : list LockInfo) : M (list LockInfo) :=
  if isLock self file then
    do lock <- getLockInfo (join remote_dir (fromLock self file));
    if truthy_opt (owner lock) then
      if bool_decide (owner lock = Some (client self))
      then ret (locks ++ [lock])
      else ret locks
    else if mtime_truthy mtime_ && negb (lock_timeout self =? 0) then
      let mtime_ := mtime_seconds mtime_ in
      do now <- time_time;
      if lock_timeout self <? now - mtime_
      then ret (locks ++ [lock])
      else ret locks
    else ret locks
  else ret locks.

Fixpoint listCorrupted_for (remote_dir : str) (ls : list (str * mtime))
    (locks : list LockInfo) : M (list LockInfo) :=
  match ls with
  | [] => ret locks
  | (file, mtime_) :: rest =>
      do locks <- listCorrupted_entry remote_dir file mtime_ locks;
      listCorrupted_for remote_dir rest locks
  end.

Definition listCorrupted (remote_dir : str) (recursive : bool)
  : M (list LockInfo) :=
  if negb (truthy (client self) || negb (lock_timeout self =? 0))
  then ret []
  else
    do ls <- _safe (_list_mtime remote_dir recursive);
    listCorrupted_for remote_dir ls [].

(** The first loop of [listTransfered]. *)
Fixpoint listTransfered_placeholders (ls placeholders others : list str)
  : list str * list str :=
  match ls with
  | [] => (placeholders, others)
  | file :: rest =>
      if isPlaceholder self file
      then listTransfered_placeholders rest
             (placeholders ++ [fromPlaceholder self file]) others
      else listTransfered_placeholders rest placeholders (others ++ [file])
  end.

(** The second loop of [listTransfered]. *)
Fixpoint listTransfered_locks (ls locks others : list str)
  : list str * list str :=
  match ls with
  | [] => (locks, others)
  | file :: rest =>
      if isLock self file
      then listTransfered_locks rest (locks ++ [fromLock self file]) others
      else listTransfered_locks rest locks (others ++ [file])
  end.

(** What [listTransfered] makes of the listing [ls]. *)
Definition listTransfered_of (ls : list str) (end2end : bool) : list str :=
  let '(placeholders, others) := listTransfered_placeholders ls [] [] in
  let ls := others in
  if end2end then placeholders
  else
    let '(locks, others) := listTransfered_locks ls [] [] in
    others ++ placeholders ++ locks.

Definition listTransfered (remote_dir : str) (end2end recursive : bool)
  : M (list str) :=
  do ls <- _safe (_list remote_dir recursive);
  ret (listTransfered_of ls end2end).

Definition getMetaInfo (remote_file : str) (output_file : option lpath)
  : M (option lpath) :=
  do has_placeholder <- hasPlaceholder remote_file;
  if (has_placeholder : bool) then
    let remote_placeholder := placeholder self remote_file in
    do local_placeholder <-
      match output_file with
      | Some output_file =>
          if lpath_truthy output_file then ret output_file
          else newTemporaryFile
      | None => newTemporaryFile
      end;
    _safe (_get remote_placeholder local_placeholder) ;;
    ret (Some local_placeholder)
  else ret None.

Definition releasePlace (remote_file : str) (handle_missing : bool) : M unit :=
  try_except (unlink (placeholder self remote_file))
    (fun e =>
       match e with
       | UnrecoverableError _ => raise e
       | EnvironmentError errno =>
           if bool_decide (errno = Some 24) then raise (UnrecoverableError e)
           else if handle_missing then ret tt   (* logged at debug level *)
           else raise e                         (* logged as a warning *)
       | _ => if handle_missing then ret tt else raise e
       end).

(** [Relay.delete] *)
Definition delete_ (rounds : nat) (remote_file : str)
    (blocking : blocking_arg) (kwargs : option lpath) : M bool :=
  do acquired <- acquireLock rounds remote_file (Some $"r") blocking;
  if negb acquired then ret false
  else
    unlink remote_file ;;
    try_except (markAsRead remote_file kwargs)
      (fun e => match e with
                | NotImplementedError => ret tt
                | _ => raise e
                end) ;;
    releaseLock remote_file ;;
    ret true.

(** The target of a lock as a path; a lock without target makes the first
    use of the path fail ([TypeError]; [AttributeError] under Python 2). *)
Definition target_path (lock_ : LockInfo) : M str :=
  match target lock_ with
  | Some remote_file => ret remote_file
  | None => raise TypeError
  end.

Definition repair (lock_ : LockInfo) (local_file : Accessor.t) : M unit :=
  (if bool_decide (mode lock_ = Some $"w") then
     Accessor.exists_ local_file ;;           (* a missing file is logged *)
     do remote_file <- target_path lock_;
     do found <- exists_ remote_file None;
     (if (found : bool) then unlink remote_file else ret tt) ;;
     releasePlace remote_file true
   else if bool_decide (mode lock_ = Some $"r") then
     do local_found <- Accessor.exists_ local_file;
     (if (local_found : bool) then Accessor.delete_ local_file else ret tt) ;;
     do remote_file <- target_path lock_;
     do found <- exists_ remote_file None;
     if negb found then releasePlace remote_file true else ret tt
   else
     do remote_file <- target_path lock_;
     do found <- exists_ remote_file None;
     (if (found : bool) then unlink remote_file else ret tt) ;;
     releasePlace remote_file true) ;;
  do remote_file <- target_path lock_;
  releaseLock remote_file.

End Engine.

End Relay.

(** ** [class IRelay] *)

Module IRelay.
Import Py Transport.

Section Methods.
Variable self : Relay.t.

Definition listPlaceholders (remote_dir : str) : M (list str) :=
  do ls <- _list remote_dir false;
  ret (filter (fun file => Relay.isPlaceholder self file = true) ls).

Definition listLocks (remote_dir : str) : M (list str) :=
  do ls <- _list remote_dir false;
  ret (filter (fun file => Relay.isLock self file = true) ls).

Definition hasPlaceholder (remote_file : str) : M bool :=
  let '(remote_dir, filename) := os_path_split remote_file in
  do placeholders <- listPlaceholders remote_dir;
  ret (bool_decide (Relay._placeholder self filename ∈ placeholders)).

Definition hasLock (remote_file : str) : M bool :=
  let '(remote_dir, filename) := os_path_split remote_file in
  do locks <- listLocks remote_dir;
  ret (bool_decide (Relay._lock self filename ∈ locks)).

End Methods.

End IRelay.

(** ** [class PRelay] *)

Module PRelay.
Import Py Transport.

Section Methods.
Variable self : Relay.t.

Definition listPlaceheld (remote_dir : str) : M (list str) :=
  do ls <- _list remote_dir false;
  ret (filter (fun file => Relay.isPlaceholder self file = true) ls).

Definition listLocked (remote_dir : str) : M (list str) :=
  do ls <- _list remote_dir false;
  ret (filter (fun file => Relay.isLock self file = true) ls).

Definition hasPlaceholder (remote_file : str) : M bool :=
  let '(remote_dir, filename) := os_path_split remote_file in
  do placeheld <- listPlaceheld remote_dir;
  ret (bool_decide (filename ∈ placeheld)).

Definition hasLock (remote_file : str) : M bool :=
  let '(remote_dir, filename) := os_path_split remote_file in
  do locked <- listLocked remote_dir;
  ret (bool_decide (filename ∈ locked)).

End Methods.

End PRelay.

(** ** Access attributes and access controller ([escale/manager/access.py]) *)

Module Access.
Import Py.

(** A value passed as a permission: [True], [False], [None], or
    anything else. *)
Inductive perm : Type :=
| PermTrue
| PermFalse
| PermNone
| PermOther.

(** A byte string object: its value, and what the code observes of its
    identity, namely whether it is the very object bound to
    [self._undefined].  Byte strings read from the table and byte
    strings built by [join] are new objects. *)
Record bytes_obj : Type := {
  is_the_undefined : bool;
  value : str
}.

Definition new_bytes (s : str) : bytes_obj :=
  {| is_the_undefined := false; value := s |}.

(** The state: the table kept in the [dbm] file at [location], and the
    paths that exist on the local disk. *)
Record state : Type := State {
  table : gmap str str;
  files : gset str
}.

Definition set_table (f : gmap str str -> gmap str str) (w : state) : state :=
  State (f (table w)) (files w).

Abbreviation A := (ST state).

Definition os_path_exists (path : str) : A bool :=
  gets (fun w => bool_decide (path ∈ files w)).

End Access.

(** *** [class AccessAttributes] *)

Module AccessAttributes.
Import Py Access.

Record t : Type := {
  _r : nat;
  _w : nat;
  _u : str;
  _t : str;
  _f : str;
  _undefined : bytes_obj;
  location : option str
}.

Definition __init__ (location : option str) : t :=
  {| _r := 0; _w := 1;
     _u := $" "; _t := $"+"; _f := $"-";
     _undefined := {| is_the_undefined := true; value := $"  " |};
     location := location |}.

(** [with TableEntry(location, ...) as entry: body]: the table is
    opened, which needs a location, and closed after the body. *)
Definition with_entry {B} (location : option str) (body : A B) : A B :=
  match location with
  | Some _ => body
  | None => raise TypeError
  end.

(** [TableEntry.get]: the stored value, a new object at each read, or
    the default. *)
Definition entry_get {B} (key : str) (found : str -> B) (default : B) : A B :=
  do tbl <- gets table;
  match tbl !! key with
  | Some v => ret (found v)
  | None => ret default
  end.

(** [TableEntry.delete] *)
Definition entry_delete (key : str) : A unit :=
  do tbl <- gets table;
  match tbl !! key with
  | Some _ => modify (set_table (delete key))
  | None => raise KeyError
  end.

(** [TableEntry.set] *)
Definition entry_set (key : str) (v : str) : A unit :=
  modify (set_table (insert key v)).

(** [sep.join((a, b))] *)
Definition bytes_join (sep a b : str) : bytes_obj := new_bytes (a ++ sep ++ b).

Section Methods.
Variable self : t.

Definition _encode (a : perm) : A str :=
  match a with
  | PermFalse => ret (_f self)
  | PermTrue => ret (_t self)
  | PermNone => ret (_u self)
  | PermOther => raise ValueError
  end.

Definition __contains__ (resource : str) : A bool :=
  if truthy_opt (location self) then
    with_entry (location self)
      (entry_get resource (fun _ => true) false)
  else ret false.

Definition _set (attr : nat) (resource : str) (perm_ : perm) : A unit :=
  with_entry (location self)
    (do attributes <- entry_get resource new_bytes (_undefined self);
     do symbol <- _encode perm_;
     let attributes :=
       bytes_join symbol (take attr (value attributes))
                         (drop (attr + 1) (value attributes)) in
     if is_the_undefined attributes   (* [attributes is self._undefined] *)
     then entry_delete resource
     else entry_set resource (value attributes)).

Definition setReadable (resource : str) : A unit :=
  _set (_r self) resource PermTrue.
Definition setNotReadable (resource : str) : A unit :=
  _set (_r self) resource PermFalse.
Definition unsetReadability (resource : str) : A unit :=
  _set (_r self) resource PermNone.
Definition setReadability (resource : str) (r : perm) : A unit :=
  _set (_r self) resource r.
Definition setWritable (resource : str) : A unit :=
  _set (_w self) resource PermTrue.
Definition setNotWritable (resource : str) : A unit :=
  _set (_w self) resource PermFalse.
Definition unsetWritability (resource : str) : A unit :=
  _set (_w self) resource PermNone.
Definition setWritability (resource : str) (w : perm) : A unit :=
  _set (_w self) resource w.

End Methods.

End AccessAttributes.

(** *** [class AccessController] *)

Module AccessController.
Import Py Access.

(** [logger] tells whether [self.logger], which the class [Reporter]
    provides, is a logging object; it is [None] for a controller built
    without logger and user-interface controller. *)
Record t : Type := {
  name : str;
  path : str;
  mode : option str;
  persistent : AccessAttributes.t;
  logger : bool
}.

(** [os.pardir] *)
Definition os_pardir : str := $"..".

Section Methods.
(** [os.path.relpath(path, start)] *)
Variable os_path_relpath : str -> str -> str.
Variable self : t.

(** [_format(filename, True)] *)
Definition _format (filename : str) : option str * str :=
  if startswith filename [sep] then           (* [os.path.isabs] *)
    let abspath := filename in
    let relpath := os_path_relpath filename (path self) in
    if startswith relpath os_pardir
    then (None, abspath)
    else (Some relpath, abspath)
  else
    (Some filename, os_path_join (path self) filename).

(** [self.logger.debug(...)]: the record written is not part of the
    state; without a logging object the attribute [debug] is missing. *)
Definition logger_debug : A unit :=
  if logger self then ret tt else raise AttributeError.

Definition __safe__ {B} (access : str -> A B) (filename : str) : A B :=
  let '(relpath, abspath) := _format filename in
  do relpath <-
    (do found <- os_path_exists abspath;
     if truthy_opt relpath && negb found then
       do known <- AccessAttributes.__contains__ (persistent self)
                     (default [] relpath);
       if (known : bool) then logger_debug ;; ret relpath
       else ret None
     else ret relpath);
  if truthy_opt relpath then access (default [] relpath)
  else raise (EnvironmentError None).

Definition setReadability (filename : str) (r : perm) : A unit :=
  __safe__ (fun relpath =>
              AccessAttributes.setReadability (persistent self) relpath r)
           filename.

Definition setWritability (filename : str) (w : perm) : A unit :=
  __safe__ (fun relpath =>
              AccessAttributes.setWritability (persistent self) relpath w)
           filename.

Definition confirmPull (filename : str) : A unit :=
  if bool_decide (mode self = Some $"conservative") then
    match (_format filename).1 with
    | Some relpath => AccessAttributes.setWritable (persistent self) relpath
    | None => raise TypeError            (* the key of the record is [None] *)
    end
  else ret tt.

Definition confirmPush (filename : str) : A unit :=
  if bool_decide (mode self = Some $"conservative") then
    __safe__ (AccessAttributes.setNotWritable (persistent self)) filename
  else ret tt.

End Methods.

(** The setter of the [mode] property. *)
Definition set_mode (m : option str) : exn + option str :=
  match m with
  | None => inr None
  | Some m =>
      let m := lower m in
      if bool_decide (m ∈ [ $"download"; $"upload" ]) then inr (Some m)
      else if startswith m $"shar" then inr (Some $"shared")
      else if bool_decide (m ∈ [ $"conservative"; $"protective" ])
      then inr (Some $"conservative")
      else inl ValueError
  end.

Section Accessors.
Context `{Essential}.
Variable self : t.

(** [os.path.isfile] on the local disk of the relay engine. *)
Definition os_path_isfile (local_file : str) : M bool :=
  gets (fun w => bool_decide (is_Some (disk w !! User local_file))).

Definition accessor (filename : str) : M Accessor.t :=
  let local_file := join (path self) filename in
  do isfile <- os_path_isfile local_file;
  if (isfile : bool) then
    ret {| Accessor.exists_ := ret true;
           Accessor.delete_ :=
             if bool_decide (mode self = Some $"download")
             then os_unlink (User local_file)
             else raise (EnvironmentError None)     (* [PermissionError] *)
         |}
  else
    ret {| Accessor.exists_ := ret false;
           Accessor.delete_ := ret tt |}.

End Accessors.

End AccessController.

(** ** Configurations and externals used in the statements *)

(** The marker scheme of a relay keeps markers inside one path
    component. *)
Record flat_markers (self : Relay.t) : Prop := {
  placeholder_prefix_flat : Py.contains Py.sep (Relay._placeholder_prefix self) = false;
  placeholder_suffix_flat : Py.contains Py.sep (Relay._placeholder_suffix self) = false;
  lock_prefix_flat : Py.contains Py.sep (Relay._lock_prefix self) = false;
  lock_suffix_flat : Py.contains Py.sep (Relay._lock_suffix self) = false
}.

(** It also tells lock names from placeholder names. *)
Definition codec_ok (self : Relay.t) : Prop :=
  flat_markers self /\
  forall f g, Relay._lock self f <> Relay._placeholder self g.

(** A path whose final component is neither a lock nor a placeholder
    name. *)
Definition regular (self : Relay.t) (path : str) : Prop :=
  Relay.isLock self path = false /\ Relay.isPlaceholder self path = false.

(** A path that [os.path.split] and [os.path.join] put together again
    as it is (no doubled separator before the final component). *)
Definition normalized (path : str) : Prop :=
  Py.os_path_join (Py.os_path_split path).1 (Py.os_path_split path).2 = path.

(** Directory parts as [os.path.split] returns them: separators only,
    or no separator at the end. *)
Definition dir_part (d : str) : Prop :=
  Py.all_are Py.sep d = true \/ last d <> Some Py.sep.

(** The names a listing of [dir] that is not recursive reports. *)
Definition names (r : gmap str blob) (dir : str) : list str :=
  map fst (Transport.listing r dir false).

(** The lock information [getLockInfo] reads for [remote_file] on a
    relay holding [r]. *)
Definition stored_lock_info `{Essential} (self : Relay.t)
    (r : gmap str blob) (remote_file : str) : LockInfo :=
  match r !! Relay.lock self remote_file with
  | Some b => parse_lock_file (content b) remote_file
  | None => LockInfo_zero
  end.

(** The lock information [listCorrupted] reads for a listed lock. *)
Definition listed_lock_info `{Essential} (self : Relay.t)
    (r : gmap str blob) (remote_dir file : str) : LockInfo :=
  stored_lock_info self r (join remote_dir (Relay.fromLock self file)).

(** A listed entry that needs repair: a lock blob that (a) has an owner,
    this client, or (b) has no owner while a lock timeout is set, the
    listing gives a modification time, and that time is more than the
    timeout in the past. *)
Definition corrupted `{Essential} (self : Relay.t) (r : gmap str blob)
    (now : Z) (remote_dir : str) (entry : str * mtime) : bool :=
  let info := listed_lock_info self r remote_dir entry.1 in
  Relay.isLock self entry.1
  && (truthy_opt (owner info) && bool_decide (owner info = Some (Relay.client self))
      || negb (truthy_opt (owner info))
         && negb (Relay.lock_timeout self =? 0)
         && mtime_truthy entry.2
         && (Relay.lock_timeout self <? now - mtime_seconds entry.2)).

(** A listed file that is ready: neither a lock nor a placeholder name,
    and the name of its lock is not in the listing. *)
Definition ready `{Essential} (self : Relay.t) (ls : list str) (file : str)
  : bool :=
  negb (Relay.isLock self file)
  && negb (Relay.isPlaceholder self file)
  && negb (bool_decide
             (join (Py.os_path_split file).1
                   (Relay._lock self (Py.os_path_basename file)) ∈ ls)).

(** What [pop] does to the relay when it downloads with [_get]: nothing. *)
Definition remote_file_kept (r : gmap str blob) : gmap str blob := r.

(** A relay as the constructor makes it. *)
Definition relay_of (client : str) (lock_timeout : Z) : Relay.t :=
  match Relay.__init__ client (Relay.TimeoutInt lock_timeout) false with
  | inr self => self
  | inl _ => Relay.Build_t client [] [] [] [] lock_timeout None [] []
  end.

(** Externals for concrete runs: [join] is [os.path.join]; a lock body is
    the owner, a line feed, and the mode. *)
Definition line_externals : Essential := {|
  join := Py.os_path_join;
  repr_LockInfo := fun info =>
    default [] (owner info) ++ Py.LF :: default [] (mode info);
  parse_lock_file := fun body target =>
    match Py.rfind1 Py.LF body with
    | O => LockInfo_zero
    | S i => mkLockInfo (Some (take i body)) (Some (drop (S i) body)) (Some target)
    end
|}.

(** The line ends of a text: its line feeds, and its carriage returns
    that no line feed follows (one that a line feed follows ends the
    line together with it). *)
Fixpoint line_ends (s : str) : nat :=
  match s with
  | [] => 0
  | c :: rest =>
      ((if bool_decide (c = Py.LF) then 1
        else if bool_decide (c = Py.CR) && negb (Py.startswith rest [Py.LF])
        then 1 else 0)
       + line_ends rest)%nat
  end.

(** Whether a text ends in a line that has no line end; [pending] tells
    so for what precedes the text. *)
Fixpoint unfinished (pending : bool) (s : str) : bool :=
  match s with
  | [] => pending
  | c :: rest =>
      unfinished (negb (bool_decide (c = Py.LF) || bool_decide (c = Py.CR))) rest
  end.

(** The number of lines of a text: one for each line end, and one for a
    last line without line end. *)
Definition line_count (s : str) : nat :=
  (line_ends s + (if unfinished false s then 1 else 0))%nat.

(** The symbol a newly made [AccessAttributes] writes for a permission;
    none for a value that is not [True], [False] or [None]. *)
Definition symbol (p : Access.perm) : option ascii :=
  match p with
  | Access.PermTrue => Some "+"%char
  | Access.PermFalse => Some "-"%char
  | Access.PermNone => Some " "%char
  | Access.PermOther => None
  end.

(** The record [TableEntry.get] finds for a resource: the stored one,
    or two blanks. *)
Definition record (w : Access.state) (resource : str) : str :=
  default $"  " (Access.table w !! resource).

(** An access controller in conservative mode. *)
Definition conservative (name path location : str) (logger : bool)
  : AccessController.t :=
  {| AccessController.name := name;
     AccessController.path := path;
     AccessController.mode := Some $"conservative";
     AccessController.persistent := AccessAttributes.__init__ (Some location);
     AccessController.logger := logger |}.

(** ** Scenarios *)

(** Client B with the default lock timeout. *)
Definition relay_B : Relay.t := relay_of $"B" 3600.

(** Scenario S2 once A has pushed [x]: the relay holds [x] and its
    placeholder, whose body is the modification time of [x]. *)
Definition after_push : world :=
  World (<[ $"x" := Blob $"hi" (Seconds 1700000100) ]>
           (<[ $".x.placeholder" := Blob $"1700000000" (Seconds 1700000100) ]> ∅))
        ∅ 1700000200 0 [].

(** Scenario S2 once B has marked [x] as read: the placeholder has a
    line for B. *)
Definition marked_by_B : world :=
  World (<[ $"x" := Blob $"hi" (Seconds 1700000100) ]>
           (<[ $".x.placeholder" :=
                 Blob ($"1700000000" ++ Py.LF :: $"B") (Seconds 1700000200) ]> ∅))
        ∅ 1700000300 0 [].

(** The same, with a placeholder in which a carriage return ends the
    first line. *)
Definition marked_with_return : world :=
  World (<[ $"x" := Blob $"hi" (Seconds 1700000100) ]>
           (<[ $".x.placeholder" :=
                 Blob ($"1700000000" ++ Py.CR :: $"B") (Seconds 1700000200) ]> ∅))
        ∅ 1700000300 0 [].

(** Client B with the lock timeout switched off. *)
Definition relay_no_timeout : Relay.t := relay_of $"B" 0.

(** A relay that holds one lock blob without owner, written long ago. *)
Definition old_lock : world :=
  World (<[ $".y.lock" := Blob [] (Seconds 5) ]> ∅) ∅ 4000 0 [].

(** The same lock blob, with the epoch as its modification time. *)
Definition epoch_lock : world :=
  World (<[ $".y.lock" := Blob [] (Seconds 0) ]> ∅) ∅ 4000 0 [].

(** An access controller on a repository, in the default mode, built
    without logger as [escalectl] does. *)
Definition controller (location : option str) : AccessController.t :=
  {| AccessController.name := $"repo";
     AccessController.path := $"/home/user/repo";
     AccessController.mode := Some $"shared";
     AccessController.persistent := AccessAttributes.__init__ location;
     AccessController.logger := false |}.

(** The same controller, built by a worker that has a logger. *)
Definition logging_controller (location : option str) : AccessController.t :=
  {| AccessController.name := $"repo";
     AccessController.path := $"/home/user/repo";
     AccessController.mode := Some $"shared";
     AccessController.persistent := AccessAttributes.__init__ location;
     AccessController.logger := true |}.

(** [os.path.relpath] where no absolute path is passed. *)
Definition relpath_unused (path start : str) : str := path.

(** An access store with a record for [a.txt], which is not on disk. *)
Definition deleted_file : Access.state :=
  Access.State (<[ $"a.txt" := $"+ " ]> ∅) ∅.

(** Clients A, which pushes, and C, a second puller. *)
Definition relay_A : Relay.t := relay_of $"A" 3600.
Definition relay_C : Relay.t := relay_of $"C" 3600.

(** Scenario S2 before the push: A has [src] on its disk and the relay
    is empty. *)
Definition before_push : world :=
  World ∅ (<[ User $"src" := $"hi" ]> ∅) 1700000100 0 [].

(** Scenario S2 while A holds the lock of [x] for writing. *)
Definition locked_by_A : world :=
  World (<[ $".x.lock" := Blob ($"A" ++ Py.LF :: $"w") (Seconds 1700000150) ]>
           (remote after_push))
        ∅ 1700000200 0 [].

(** A relay that holds [x] and no placeholder for it. *)
Definition bare_file : world :=
  World (<[ $"x" := Blob $"hi" (Seconds 1700000100) ]> ∅) ∅ 1700000200 0 [].

(** A relay that holds nothing. *)
Definition empty_relay : world := World ∅ ∅ 1700000200 0 [].

(** Scenario S2 after a pop by B that crashed: the lock of B is still
    there, and so is the local copy of [x]. *)
Definition crashed_pop : world :=
  World (<[ $".x.lock" := Blob ($"B" ++ Py.LF :: $"r") (Seconds 1700000150) ]>
           (remote after_push))
        (<[ User $"/home/user/repo/x" := $"h" ]> ∅) 1700000200 0 [].

(** The locks the two crashes leave, as [listCorrupted] reports them. *)
Definition write_lock : LockInfo := mkLockInfo (Some $"A") (Some $"w") (Some $"x").
Definition read_lock : LockInfo := mkLockInfo (Some $"B") (Some $"r") (Some $"x").

(** An access controller that only downloads. *)
Definition downloader : AccessController.t :=
  {| AccessController.name := $"repo";
     AccessController.path := $"/home/user/repo";
     AccessController.mode := Some $"download";
     AccessController.persistent := AccessAttributes.__init__ None;
     AccessController.logger := true |}.

(** The accessor of a local file that is there and may not be deleted. *)
Definition kept_file : Accessor.t :=
  {| Accessor.exists_ := ret true;
     Accessor.delete_ := raise (EnvironmentError None) |}.

(** * Properties *)

(** ** Strings and paths *)

Section PyFacts.
Import Py.

Lemma startswith_app (p t : str) : startswith (p ++ t) p = true.
Proof.
  induction p as [|c p IH]; simpl; [reflexivity|].
  rewrite bool_decide_eq_true_2 by reflexivity. exact IH.
Qed.

Lemma startswith_inv (s p : str) :
  startswith s p = true -> exists t, s = p ++ t.
Proof.
  revert s; induction p as [|c p IH]; intros s Hs; simpl in *.
  - exists s; reflexivity.
  - destruct s as [|d s]; [discriminate|].
    apply andb_true_iff in Hs as [Hc Hs].
    apply bool_decide_eq_true_1 in Hc; subst d.
    destruct (IH _ Hs) as [t ->]. exists t; reflexivity.
Qed.

Lemma endswith_app (t p : str) : endswith (t ++ p) p = true.
Proof. unfold endswith. rewrite rev_app_distr. apply startswith_app. Qed.

Lemma endswith_inv (s p : str) :
  endswith s p = true -> exists t, s = t ++ p.
Proof.
  unfold endswith; intros Hs.
  destruct (startswith_inv _ _ Hs) as [t Ht].
  exists (rev t).
  rewrite <- (rev_involutive s), Ht, rev_app_distr, rev_involutive.
  reflexivity.
Qed.

Lemma contains_app c (a b : str) :
  contains c (a ++ b) = contains c a || contains c b.
Proof. unfold contains. apply existsb_app. Qed.

Lemma contains_false_app c (a b : str) :
  contains c a = false -> contains c b = false -> contains c (a ++ b) = false.
Proof. intros Ha Hb. rewrite contains_app, Ha, Hb. reflexivity. Qed.

(** [s[len(a):-len(b)]] and [s[len(a):]] take the middle out. *)
Lemma slice_middle (a f b : str) :
  slice (a ++ f ++ b) (length a)
        (if truthy b then Some (- Z.of_nat (length b)) else None) = f.
Proof.
  unfold slice.
  assert (Hd : drop (length a) (a ++ f ++ b) = f ++ b) by apply drop_app_length.
  rewrite Hd.
  destruct b as [|x b]; simpl truthy; cbv iota.
  - rewrite !app_nil_r, length_app.
    replace (length a + length f - length a)%nat with (length f) by lia.
    apply firstn_all.
  - destruct (Z.ltb_spec (- Z.of_nat (length (x :: b))) 0) as [_|Hge];
      [|simpl length in Hge; lia].
    rewrite !length_app.
    replace (Z.to_nat (Z.of_nat (length a + (length f + length (x :: b)))
                       + - Z.of_nat (length (x :: b))) - length a)%nat
      with (length f) by lia.
    apply take_app_length.
Qed.

(** *** [rfind] *)

Lemma rfind1_absent c (x : str) : contains c x = false -> rfind1 c x = 0%nat.
Proof.
  induction x as [|y x IH]; simpl; [reflexivity|].
  intros Hx. apply orb_false_iff in Hx as [Hy Hx].
  rewrite (IH Hx), Hy. reflexivity.
Qed.

Lemma rfind1_app_absent c (h x : str) :
  contains c x = false -> rfind1 c (h ++ x) = rfind1 c h.
Proof.
  intros Hx. induction h as [|y h IH]; simpl.
  - apply rfind1_absent, Hx.
  - rewrite IH. reflexivity.
Qed.

Lemma rfind1_snoc c (h : str) : rfind1 c (h ++ [c]) = S (length h).
Proof.
  induction h as [|y h IH]; simpl.
  - rewrite bool_decide_eq_true_2 by reflexivity. reflexivity.
  - rewrite IH. reflexivity.
Qed.

Lemma rfind1_after c (h x : str) :
  contains c x = false -> rfind1 c (h ++ c :: x) = S (length h).
Proof.
  intros Hx. change (h ++ c :: x) with (h ++ [c] ++ x).
  rewrite app_assoc, rfind1_app_absent by exact Hx. apply rfind1_snoc.
Qed.

Lemma rfind1_le c (p : str) : (rfind1 c p <= length p)%nat.
Proof.
  induction p as [|y p IH]; simpl; [lia|].
  destruct (rfind1 c p); [case_bool_decide; lia | lia].
Qed.

Lemma rfind1_tail_absent c (p : str) : contains c (drop (rfind1 c p) p) = false.
Proof.
  induction p as [|y p IH]; simpl; [reflexivity|].
  destruct (rfind1 c p) eqn:E.
  - case_bool_decide as Hy; simpl.
    + rewrite drop_0 in IH |- *. exact IH.
    + rewrite drop_0 in IH. rewrite IH.
      rewrite bool_decide_eq_false_2 by exact Hy. reflexivity.
  - simpl. exact IH.
Qed.

Lemma rfind1_head c (p : str) :
  rfind1 c p = 0%nat \/ exists h, take (rfind1 c p) p = h ++ [c].
Proof.
  induction p as [|y p IH]; simpl; [left; reflexivity|].
  destruct (rfind1 c p) eqn:E.
  - case_bool_decide as Hy; [right | left; reflexivity].
    exists []. subst y. reflexivity.
  - right. destruct IH as [IH|[h Hh]]; [discriminate|].
    exists (y :: h). simpl. rewrite Hh. reflexivity.
Qed.

Lemma startswith_absent c (x : str) :
  contains c x = false -> startswith x [c] = false.
Proof.
  destruct x as [|y x]; simpl; [reflexivity|].
  intros Hx. apply orb_false_iff in Hx as [Hy _].
  apply bool_decide_eq_false_1 in Hy.
  rewrite bool_decide_eq_false_2 by congruence. reflexivity.
Qed.

(** *** Last character, [endswith] and [rstrip] *)

Lemma endswith_single (s : str) c :
  endswith s [c] = bool_decide (last s = Some c).
Proof.
  unfold endswith. destruct s as [|x s] using rev_ind.
  - rewrite bool_decide_eq_false_2 by discriminate. reflexivity.
  - rewrite rev_app_distr, last_snoc. simpl. rewrite andb_true_r.
    apply bool_decide_ext. split; congruence.
Qed.

Lemma rstrip_last c (s : str) : last (rstrip c s) <> Some c.
Proof.
  induction s as [|x s IH]; simpl; [discriminate|].
  destruct (rstrip c s) as [|z t] eqn:E.
  - case_bool_decide; simpl; congruence.
  - exact IH.
Qed.

Lemma rstrip_id c (s : str) : last s <> Some c -> rstrip c s = s.
Proof.
  induction s as [|x s IH]; simpl; [reflexivity|].
  destruct s as [|z s'].
  - simpl. intros Hx. rewrite bool_decide_eq_false_2 by congruence. reflexivity.
  - intros Hl. rewrite IH by exact Hl. reflexivity.
Qed.

Lemma rstrip_snoc c (h : str) : rstrip c (h ++ [c]) = rstrip c h.
Proof.
  induction h as [|y h IH]; simpl.
  - rewrite bool_decide_eq_true_2 by reflexivity. reflexivity.
  - rewrite IH. reflexivity.
Qed.

Lemma all_are_last c (d : str) :
  all_are c d = true -> d <> [] -> last d = Some c.
Proof.
  induction d as [|x d IH]; [congruence|].
  simpl. intros Hd _. apply andb_true_iff in Hd as [Hx Hd].
  apply bool_decide_eq_true_1 in Hx; subst x.
  destruct d as [|z d']; [reflexivity|].
  apply IH; [exact Hd | discriminate].
Qed.

Lemma all_are_app c (a b : str) :
  all_are c (a ++ b) = all_are c a && all_are c b.
Proof. unfold all_are. apply forallb_app. Qed.

(** *** [os.path.split] and [os.path.join] *)

Lemma split_snd (p : str) : (os_path_split p).2 = os_path_basename p.
Proof. reflexivity. Qed.

Lemma basename_flat (p : str) : contains sep (os_path_basename p) = false.
Proof. apply rfind1_tail_absent. Qed.

Lemma split_fst_dir_part (p : str) : dir_part (os_path_split p).1.
Proof.
  unfold os_path_split; simpl.
  destruct (truthy (take (rfind1 sep p) p)
            && negb (all_are sep (take (rfind1 sep p) p))) eqn:E.
  - right. apply rstrip_last.
  - apply andb_false_iff in E as [E|E].
    + left. destruct (take (rfind1 sep p) p); [reflexivity | discriminate].
    + left. apply negb_false_iff, E.
Qed.

Lemma split_join (d x : str) :
  dir_part d -> contains sep x = false ->
  os_path_split (os_path_join d x) = (d, x).
Proof.
  intros Hd Hx. unfold os_path_join.
  rewrite (startswith_absent _ _ Hx), endswith_single.
  destruct d as [|y d'] eqn:Ed.
  - simpl. unfold os_path_split.
    rewrite (rfind1_absent _ _ Hx). reflexivity.
  - rewrite <- Ed in *. simpl negb. simpl orb.
    assert (Hne : d <> []) by (rewrite Ed; discriminate).
    replace (truthy d) with true by (rewrite Ed; reflexivity). simpl.
    case_bool_decide as Hl.
    + (* only separators *)
      destruct Hd as [Hall|Hno]; [|contradiction].
      destruct (last_Some d sep) as [[h Hh] _]; [exact Hl|].
      unfold os_path_split.
      assert (Hi : rfind1 sep (d ++ x) = length d).
      { rewrite rfind1_app_absent by exact Hx.
        rewrite Hh, rfind1_snoc, length_app. simpl. lia. }
      rewrite Hi, take_app_length, drop_app_length, Hall.
      rewrite andb_false_r. reflexivity.
    + unfold os_path_split.
      assert (Hi : rfind1 sep (d ++ sep :: x) = S (length d))
        by (apply rfind1_after, Hx).
      rewrite Hi.
      replace (d ++ sep :: x) with ((d ++ [sep]) ++ x)
        by (rewrite <- app_assoc; reflexivity).
      replace (S (length d)) with (length (d ++ [sep]))
        by (rewrite length_app; simpl; lia).
      rewrite take_app_length, drop_app_length.
      assert (Hall : all_are sep (d ++ [sep]) = false).
      { rewrite all_are_app. apply andb_false_iff. left.
        destruct (all_are sep d) eqn:E; [|reflexivity].
        exfalso. apply Hl, all_are_last; assumption. }
      rewrite Hall.
      replace (truthy (d ++ [sep])) with true
        by (destruct d; reflexivity).
      simpl. rewrite rstrip_snoc, rstrip_id by exact Hl. reflexivity.
Qed.

Lemma basename_join (d x : str) :
  contains sep x = false -> os_path_basename (os_path_join d x) = x.
Proof.
  intros Hx. unfold os_path_join, os_path_basename.
  rewrite (startswith_absent _ _ Hx), endswith_single.
  destruct d as [|y d'] eqn:Ed.
  - simpl. rewrite (rfind1_absent _ _ Hx). reflexivity.
  - rewrite <- Ed in *.
    replace (truthy d) with true by (rewrite Ed; reflexivity). simpl.
    case_bool_decide as Hl.
    + destruct (last_Some d sep) as [[h Hh] _]; [exact Hl|].
      rewrite rfind1_app_absent by exact Hx.
      rewrite Hh at 1. rewrite rfind1_snoc.
      replace (S (length h)) with (length d)
        by (rewrite Hh, length_app; simpl; lia).
      apply drop_app_length.
    + rewrite rfind1_after by exact Hx.
      replace (d ++ sep :: x) with ((d ++ [sep]) ++ x)
        by (rewrite <- app_assoc; reflexivity).
      replace (S (length d)) with (length (d ++ [sep]))
        by (rewrite length_app; simpl; lia).
      apply drop_app_length.
Qed.

End PyFacts.

(** ** Marker codec *)

Section CodecFacts.
Import Py Relay.
Variable self : Relay.t.

Lemma _isPlaceholder_placeholder f : _isPlaceholder self (_placeholder self f) = true.
Proof.
  unfold _isPlaceholder, _placeholder.
  rewrite startswith_app, app_assoc, endswith_app. reflexivity.
Qed.

Lemma _isLock_lock f : _isLock self (_lock self f) = true.
Proof.
  unfold _isLock, _lock.
  rewrite startswith_app, app_assoc, endswith_app. reflexivity.
Qed.

Lemma _fromPlaceholder_placeholder f :
  _fromPlaceholder self (_placeholder self f) = f.
Proof. apply slice_middle. Qed.

Lemma _fromLock_lock f : _fromLock self (_lock self f) = f.
Proof. apply slice_middle. Qed.

Lemma _isPlaceholder_safe f : _isPlaceholder self (_safePlaceholder self f) = true.
Proof.
  unfold _safePlaceholder.
  destruct (_isPlaceholder self f) eqn:E; [exact E|].
  apply _isPlaceholder_placeholder.
Qed.

Lemma _isLock_safe f : _isLock self (_safeLock self f) = true.
Proof.
  unfold _safeLock.
  destruct (_isLock self f) eqn:E; [exact E|].
  apply _isLock_lock.
Qed.

Lemma _safePlaceholder_fixed f :
  _isPlaceholder self f = true -> _safePlaceholder self f = f.
Proof. unfold _safePlaceholder. intros ->. reflexivity. Qed.

Lemma _safeLock_fixed f : _isLock self f = true -> _safeLock self f = f.
Proof. unfold _safeLock. intros ->. reflexivity. Qed.

(** The intended message name, without hash, is recognised and decoded
    by the message classifier and decoder. *)
Lemma _isMessage_plain f :
  _isMessage self (_message_prefix self ++ f ++ _message_suffix self) = true.
Proof.
  unfold _isMessage.
  rewrite startswith_app, app_assoc, endswith_app. reflexivity.
Qed.

Lemma _fromMessage_plain f :
  _message_hash self = None ->
  _fromMessage self (_message_prefix self ++ f ++ _message_suffix self) = inr f.
Proof. unfold _fromMessage. intros ->. rewrite slice_middle. reflexivity. Qed.

(** [self.message_hash] fails, so does every encoding of a name that is
    not a message name already. *)
Lemma _message_raises filename filepath :
  _message self filename filepath = inl AttributeError.
Proof. reflexivity. Qed.

Lemma message_raises path :
  isMessage self path = false -> message self path = inl AttributeError.
Proof.
  unfold isMessage, message, _safeMessage.
  rewrite <- split_snd. destruct (os_path_split path) as [d f]; simpl.
  intros ->. reflexivity.
Qed.

Section Flat.
Hypothesis Hflat : flat_markers self.

Lemma _placeholder_flat f :
  contains sep f = false -> contains sep (_placeholder self f) = false.
Proof.
  intros Hf. destruct Hflat. unfold _placeholder.
  repeat apply contains_false_app; assumption.
Qed.

Lemma _lock_flat f :
  contains sep f = false -> contains sep (_lock self f) = false.
Proof.
  intros Hf. destruct Hflat. unfold _lock.
  repeat apply contains_false_app; assumption.
Qed.

Lemma _safePlaceholder_flat f :
  contains sep f = false -> contains sep (_safePlaceholder self f) = false.
Proof.
  intros Hf. unfold _safePlaceholder.
  destruct (_isPlaceholder self f); [exact Hf | apply _placeholder_flat, Hf].
Qed.

Lemma _safeLock_flat f :
  contains sep f = false -> contains sep (_safeLock self f) = false.
Proof.
  intros Hf. unfold _safeLock.
  destruct (_isLock self f); [exact Hf | apply _lock_flat, Hf].
Qed.

(** Where [with_path] lands when the new final component is flat. *)
Lemma split_with_path path (g : str -> str) :
  contains sep (g (os_path_basename path)) = false ->
  os_path_split (with_path path g)
  = ((os_path_split path).1, g (os_path_basename path)).
Proof.
  intros Hg. unfold with_path.
  pose proof (split_fst_dir_part path) as Hd.
  rewrite <- split_snd in *.
  destruct (os_path_split path) as [d f]; simpl in *.
  apply split_join; assumption.
Qed.

Lemma split_placeholder path :
  os_path_split (placeholder self path)
  = ((os_path_split path).1, _safePlaceholder self (os_path_basename path)).
Proof.
  apply split_with_path, _safePlaceholder_flat, basename_flat.
Qed.

Lemma split_lock path :
  os_path_split (lock self path)
  = ((os_path_split path).1, _safeLock self (os_path_basename path)).
Proof.
  apply split_with_path, _safeLock_flat, basename_flat.
Qed.

Lemma basename_placeholder path :
  os_path_basename (placeholder self path)
  = _safePlaceholder self (os_path_basename path).
Proof. rewrite <- split_snd, split_placeholder. reflexivity. Qed.

Lemma basename_lock path :
  os_path_basename (lock self path) = _safeLock self (os_path_basename path).
Proof. rewrite <- split_snd, split_lock. reflexivity. Qed.

Lemma with_path_split path (g : str -> str) :
  with_path path g
  = os_path_join (os_path_split path).1 (g (os_path_basename path)).
Proof.
  unfold with_path. rewrite <- split_snd.
  destruct (os_path_split path); reflexivity.
Qed.

Lemma placeholder_idempotent path :
  placeholder self (placeholder self path) = placeholder self path.
Proof.
  unfold placeholder at 1. rewrite with_path_split.
  rewrite basename_placeholder, split_placeholder. simpl.
  rewrite (_safePlaceholder_fixed _ (_isPlaceholder_safe _)).
  unfold placeholder. rewrite with_path_split. reflexivity.
Qed.

Lemma lock_idempotent path : lock self (lock self path) = lock self path.
Proof.
  unfold lock at 1. rewrite with_path_split.
  rewrite basename_lock, split_lock. simpl.
  rewrite (_safeLock_fixed _ (_isLock_safe _)).
  unfold lock. rewrite with_path_split. reflexivity.
Qed.

(** Round trip of the placeholder and lock codecs. *)
Lemma isPlaceholder_placeholder path :
  isPlaceholder self (placeholder self path) = true.
Proof.
  unfold isPlaceholder. rewrite basename_placeholder.
  apply _isPlaceholder_safe.
Qed.

Lemma isLock_lock path : isLock self (lock self path) = true.
Proof. unfold isLock. rewrite basename_lock. apply _isLock_safe. Qed.

Lemma fromPlaceholder_placeholder path :
  isPlaceholder self path = false -> normalized path ->
  fromPlaceholder self (placeholder self path) = path.
Proof.
  intros Hreg Hnorm. unfold fromPlaceholder. rewrite with_path_split.
  rewrite basename_placeholder, split_placeholder. simpl.
  unfold _safePlaceholder. unfold isPlaceholder in Hreg. rewrite Hreg.
  rewrite _fromPlaceholder_placeholder. exact Hnorm.
Qed.

Lemma fromLock_lock path :
  isLock self path = false -> normalized path ->
  fromLock self (lock self path) = path.
Proof.
  intros Hreg Hnorm. unfold fromLock. rewrite with_path_split.
  rewrite basename_lock, split_lock. simpl.
  unfold _safeLock. unfold isLock in Hreg. rewrite Hreg.
  rewrite _fromLock_lock. exact Hnorm.
Qed.

End Flat.

End CodecFacts.

Lemma relay_of_flat client lock_timeout : flat_markers (relay_of client lock_timeout).
Proof. split; reflexivity. Qed.

Lemma relay_of_codec_ok client lock_timeout : codec_ok (relay_of client lock_timeout).
Proof.
  split; [apply relay_of_flat|].
  intros f g Heq. unfold Relay._lock, Relay._placeholder in Heq. simpl in Heq.
  injection Heq as Heq. apply (f_equal (@rev ascii)) in Heq.
  rewrite !rev_app_distr in Heq. simpl in Heq. discriminate.
Qed.

(** ** Running computations *)

Section MonadFacts.
Context {S A B : Type}.

Lemma bind_ok (m : ST S A) (k : A -> ST S B) w a w' :
  m w = (Ok a, w') -> bind m k w = k a w'.
Proof. unfold bind. intros ->. reflexivity. Qed.

Lemma bind_raise (m : ST S A) (k : A -> ST S B) w e w' :
  m w = (Raise e, w') -> bind m k w = (Raise e, w').
Proof. unfold bind. intros ->. reflexivity. Qed.

Lemma bind_pending (m : ST S A) (k : A -> ST S B) w w' :
  m w = (Pending, w') -> bind m k w = (Pending, w').
Proof. unfold bind. intros ->. reflexivity. Qed.

End MonadFacts.

Section SafeFacts.
Context {A : Type}.
Implicit Types (callback : M A) (w : world).

Lemma _safe_ok callback w a w' :
  callback w = (Ok a, w') -> Relay._safe callback w = (Ok a, w').
Proof. unfold Relay._safe, try_except. intros ->. reflexivity. Qed.

Lemma _safe_pending callback w w' :
  callback w = (Pending, w') -> Relay._safe callback w = (Pending, w').
Proof. unfold Relay._safe, try_except. intros ->. reflexivity. Qed.

Lemma _safe_escalates callback w w' :
  callback w = (Raise (EnvironmentError (Some 24)), w') ->
  Relay._safe callback w
  = (Raise (UnrecoverableError (EnvironmentError (Some 24))), w').
Proof. unfold Relay._safe, try_except. intros ->. reflexivity. Qed.

Lemma _safe_propagates callback w e w' :
  callback w = (Raise e, w') -> e <> EnvironmentError (Some 24) ->
  Relay._safe callback w = (Raise e, w').
Proof.
  unfold Relay._safe, try_except. intros -> He.
  destruct e as [errno| | | | | | | |]; try reflexivity.
  case_bool_decide as Hn; [|reflexivity]. subst errno. contradiction.
Qed.

End SafeFacts.

(** Unfolding of the monad and of the primitive operations on a world. *)
Ltac mrun :=
  cbv beta iota zeta delta
    [bind ret raise pending gets modify try_except try_finally
     write_file read_file append_file os_unlink mkstemp time_time
     Relay._safe Transport._push Transport._get Transport._pop
     Transport._list Transport._list_mtime
     set_disk set_remote set_clock set_next_temp set_temporary_files
     remote disk clock next_temp _temporary_files fst snd negb andb orb].

Section TransportFacts.
Import Py Transport Relay.

Lemma touch_run remote_file content w :
  touch remote_file content w
  = (Ok tt,
     World (<[remote_file := Blob (written content) (Seconds (clock w))]>
              (remote w))
           (delete (Temp (next_temp w)) (disk w)) (clock w)
           (S (next_temp w)) (_temporary_files w)).
Proof.
  destruct w as [r d t n tf]. unfold touch. mrun.
  rewrite lookup_insert_eq. mrun. rewrite lookup_insert_eq. mrun.
  rewrite !delete_insert_eq. reflexivity.
Qed.

Lemma unlink_run remote_file w b :
  remote w !! remote_file = Some b ->
  unlink remote_file w
  = (Ok tt,
     World (delete remote_file (remote w))
           (delete (Temp (next_temp w)) (disk w)) (clock w)
           (S (next_temp w)) (_temporary_files w)).
Proof.
  destruct w as [r d t n tf]. simpl. intros Hb. unfold unlink. mrun.
  rewrite Hb. mrun. rewrite lookup_insert_eq. mrun.
  rewrite !delete_insert_eq. reflexivity.
Qed.

Lemma unlink_missing remote_file w :
  remote w !! remote_file = None ->
  unlink remote_file w
  = (Raise not_found,
     World (remote w) (delete (Temp (next_temp w)) (disk w)) (clock w)
           (S (next_temp w)) (_temporary_files w)).
Proof.
  destruct w as [r d t n tf]. simpl. intros Hb. unfold unlink. mrun.
  rewrite Hb. unfold not_found. mrun.
  rewrite bool_decide_eq_false_2 by discriminate. mrun.
  rewrite lookup_insert_eq. mrun.
  rewrite !delete_insert_eq. reflexivity.
Qed.

End TransportFacts.

(** ** Listings, and the presence of locks and placeholders *)

Section ListingFacts.
Import Py Transport Relay.

Lemma _list_run dir recursive w :
  _list dir recursive w = (Ok (map fst (listing (remote w) dir recursive)), w).
Proof. reflexivity. Qed.

Lemma _list_mtime_run dir recursive w :
  _list_mtime dir recursive w = (Ok (listing (remote w) dir recursive), w).
Proof. reflexivity. Qed.

Lemma elem_of_names r dir n :
  n ∈ names r dir <-> exists k b, r !! k = Some b /\ os_path_split k = (dir, n).
Proof.
  unfold names, listing. rewrite list_elem_of_In, in_map_iff. split.
  - intros [[n' m] [Hn Hin]]. simpl in Hn; subst n'.
    apply list_elem_of_In, list_elem_of_omap in Hin as [[k b] [Hkb Hf]].
    apply elem_of_map_to_list in Hkb.
    exists k, b. split; [exact Hkb|].
    unfold relative_name in Hf. cbn [fst snd] in Hf.
    destruct (os_path_split k) as [d' n'].
    case_bool_decide as Hd; simpl in Hf; [|discriminate].
    injection Hf as <- _. subst d'. reflexivity.
  - intros (k & b & Hkb & Hsplit).
    exists (n, modified b). split; [reflexivity|].
    apply list_elem_of_In, list_elem_of_omap.
    exists (k, b). split; [apply elem_of_map_to_list, Hkb|].
    cbn [fst snd]. unfold relative_name. rewrite Hsplit.
    rewrite bool_decide_eq_true_2 by reflexivity. reflexivity.
Qed.

Lemma exists__run filename dirname w :
  contains sep filename = false ->
  exists_ filename (Some dirname) w
  = (Ok (bool_decide (filename ∈ names (remote w) dirname)), w).
Proof.
  intros Hflat. unfold exists_. simpl truthy_opt.
  destruct dirname as [|c dirname]; simpl truthy.
  - unfold os_path_split. rewrite (rfind1_absent _ _ Hflat). simpl.
    rewrite drop_0. reflexivity.
  - reflexivity.
Qed.

Section Flat.
Variable self : Relay.t.
Hypothesis Hflat : flat_markers self.

Lemma hasPlaceholder_run remote_file w :
  hasPlaceholder self remote_file w
  = (Ok (bool_decide (_placeholder self (os_path_basename remote_file)
                        ∈ names (remote w) (os_path_split remote_file).1)),
     w).
Proof.
  unfold hasPlaceholder. rewrite <- split_snd.
  destruct (os_path_split remote_file) as [d f] eqn:E.
  apply exists__run, _placeholder_flat; [exact Hflat|].
  change f with (d, f).2. rewrite <- E. apply basename_flat.
Qed.

Lemma hasLock_run remote_file w :
  hasLock self remote_file w
  = (Ok (bool_decide (_lock self (os_path_basename remote_file)
                        ∈ names (remote w) (os_path_split remote_file).1)),
     w).
Proof.
  unfold hasLock. rewrite <- split_snd.
  destruct (os_path_split remote_file) as [d f] eqn:E.
  apply exists__run, _lock_flat; [exact Hflat|].
  change f with (d, f).2. rewrite <- E. apply basename_flat.
Qed.

Lemma basename_of_flat x : contains sep x = false -> os_path_basename x = x.
Proof.
  intros Hx. unfold os_path_basename.
  rewrite (rfind1_absent _ _ Hx). apply drop_0.
Qed.

Lemma IRelay_hasPlaceholder_run remote_file w :
  IRelay.hasPlaceholder self remote_file w
  = (Ok (bool_decide (_placeholder self (os_path_basename remote_file)
                        ∈ names (remote w) (os_path_split remote_file).1)),
     w).
Proof.
  unfold IRelay.hasPlaceholder, IRelay.listPlaceholders.
  rewrite <- split_snd.
  destruct (os_path_split remote_file) as [d f] eqn:E. simpl.
  assert (Hf : contains sep f = false).
  { change f with (d, f).2. rewrite <- E. apply basename_flat. }
  unfold bind at 1 2. rewrite _list_run. unfold ret.
  f_equal. f_equal. apply bool_decide_ext.
  rewrite list_elem_of_filter. unfold names. split; [tauto|].
  intros Hin. split; [|exact Hin].
  unfold isPlaceholder.
  rewrite basename_of_flat by (apply _placeholder_flat; assumption).
  apply _isPlaceholder_placeholder.
Qed.

Lemma IRelay_hasLock_run remote_file w :
  IRelay.hasLock self remote_file w
  = (Ok (bool_decide (_lock self (os_path_basename remote_file)
                        ∈ names (remote w) (os_path_split remote_file).1)),
     w).
Proof.
  unfold IRelay.hasLock, IRelay.listLocks.
  rewrite <- split_snd.
  destruct (os_path_split remote_file) as [d f] eqn:E. simpl.
  assert (Hf : contains sep f = false).
  { change f with (d, f).2. rewrite <- E. apply basename_flat. }
  unfold bind at 1 2. rewrite _list_run. unfold ret.
  f_equal. f_equal. apply bool_decide_ext.
  rewrite list_elem_of_filter. unfold names. split; [tauto|].
  intros Hin. split; [|exact Hin].
  unfold isLock.
  rewrite basename_of_flat by (apply _lock_flat; assumption).
  apply _isLock_lock.
Qed.

End Flat.

End ListingFacts.

(** ** Locks, temporary files and [markAsRead] *)

Section EngineFacts.
Import Py Transport Relay.
Context `{Essential}.
Variable self : Relay.t.
Hypothesis Hflat : flat_markers self.

Lemma newTemporaryFile_run w :
  newTemporaryFile w
  = (Ok (Temp (next_temp w)),
     World (remote w) (<[Temp (next_temp w) := []]> (disk w)) (clock w)
           (S (next_temp w)) (_temporary_files w ++ [Temp (next_temp w)])).
Proof. destruct w. reflexivity. Qed.

Lemma delTemporaryFile_run f w :
  delTemporaryFile f w
  = (Ok tt,
     World (remote w) (delete f (disk w)) (clock w) (next_temp w)
           (default (_temporary_files w) (list_remove f (_temporary_files w)))).
Proof.
  destruct w as [r d t n tf]. unfold delTemporaryFile. mrun.
  destruct (d !! f) eqn:E; mrun; [reflexivity|].
  rewrite (delete_id _ _ E). reflexivity.
Qed.

Lemma acquireLock_run rounds remote_file mode_ blocking w :
  _lock self (os_path_basename remote_file)
    ∉ names (remote w) (os_path_split remote_file).1 ->
  (blocking_truthy blocking = true -> rounds <> 0%nat) ->
  acquireLock self rounds remote_file mode_ blocking w
  = (Ok true,
     World (<[lock self remote_file :=
                Blob (repr_LockInfo (mkLockInfo (Some (client self)) mode_ None))
                     (Seconds (clock w))]> (remote w))
           (delete (Temp (next_temp w)) (disk w)) (clock w)
           (S (next_temp w)) (_temporary_files w)).
Proof.
  intros Hfree Hrounds. unfold acquireLock.
  assert (Hl : hasLock self remote_file w = (Ok false, w)).
  { rewrite hasLock_run by exact Hflat.
    rewrite bool_decide_eq_false_2 by exact Hfree. reflexivity. }
  destruct (blocking_truthy blocking) eqn:Hb.
  - destruct rounds as [|rounds']; [exfalso; apply Hrounds; reflexivity|].
    simpl acquireLock_wait. mrun. rewrite Hl. mrun.
    rewrite touch_run. reflexivity.
  - mrun. rewrite Hl. mrun. rewrite touch_run. reflexivity.
Qed.

(** A held lock makes a call that does not block give up, and leaves
    the world as it is. *)
Lemma acquireLock_busy rounds remote_file mode_ blocking w :
  _lock self (os_path_basename remote_file)
    ∈ names (remote w) (os_path_split remote_file).1 ->
  blocking_truthy blocking = false ->
  acquireLock self rounds remote_file mode_ blocking w = (Ok false, w).
Proof.
  intros Hheld Hb. unfold acquireLock. rewrite Hb.
  mrun. rewrite hasLock_run by exact Hflat.
  rewrite bool_decide_eq_true_2 by exact Hheld. reflexivity.
Qed.

(** [markAsRead] without a local copy: the placeholder gains a line. *)
Lemma markAsRead_run remote_file w b :
  remote w !! placeholder self remote_file = Some b ->
  markAsRead self remote_file None w
  = (Ok tt,
     World (<[placeholder self remote_file :=
                Blob (content b ++ LF :: client self) (Seconds (clock w))]>
              (remote w))
           (delete (Temp (next_temp w)) (disk w)) (clock w)
           (S (next_temp w))
           (default (_temporary_files w ++ [Temp (next_temp w)])
              (list_remove (Temp (next_temp w))
                 (_temporary_files w ++ [Temp (next_temp w)])))).
Proof.
  destruct w as [r d t n tf]. simpl. intros Hb. unfold markAsRead.
  cbn [truthy_path]. mrun. rewrite newTemporaryFile_run. mrun.
  rewrite Hb. mrun. rewrite !lookup_insert_eq. mrun.
  rewrite ?lookup_insert_eq. mrun.
  rewrite delTemporaryFile_run. mrun.
  rewrite !delete_insert_eq. reflexivity.
Qed.

(** [markAsRead] with the local copy the caller downloaded: the copy is
    uploaded as it is. *)
Lemma markAsRead_local_run remote_file local_placeholder w c :
  lpath_truthy local_placeholder = true ->
  disk w !! local_placeholder = Some c ->
  markAsRead self remote_file (Some local_placeholder) w
  = (Ok tt,
     World (<[placeholder self remote_file := Blob c (Seconds (clock w))]>
              (remote w))
           (disk w) (clock w) (next_temp w) (_temporary_files w)).
Proof.
  destruct w as [r d t n tf]. simpl. intros Hpath Hc. unfold markAsRead.
  cbn [truthy_path]. rewrite Hpath.
  mrun. rewrite Hc. reflexivity.
Qed.

End EngineFacts.

(** ** [pop] with a puller count *)

Section PopFacts.
Import Py Transport Relay.
Context `{Essential}.
Variable self : Relay.t.
Hypothesis Hok : codec_ok self.

Lemma lock_not_regular remote_file :
  regular self remote_file -> lock self remote_file <> remote_file.
Proof.
  intros [Hl _] Heq. destruct Hok as [Hflat _].
  pose proof (isLock_lock self Hflat remote_file) as Hm.
  rewrite Heq, Hl in Hm. discriminate.
Qed.

Lemma placeholder_not_regular remote_file :
  regular self remote_file -> placeholder self remote_file <> remote_file.
Proof.
  intros [_ Hp] Heq. destruct Hok as [Hflat _].
  pose proof (isPlaceholder_placeholder self Hflat remote_file) as Hm.
  rewrite Heq, Hp in Hm. discriminate.
Qed.

Lemma lock_not_placeholder remote_file :
  regular self remote_file ->
  lock self remote_file <> placeholder self remote_file.
Proof.
  intros [Hl Hp] Heq. destruct Hok as [Hflat Hapart].
  apply (f_equal os_path_basename) in Heq.
  rewrite basename_lock, basename_placeholder in Heq by exact Hflat.
  unfold _safeLock, _safePlaceholder, isLock, isPlaceholder in *.
  rewrite Hl, Hp in Heq. exact (Hapart _ _ Heq).
Qed.

Lemma placeholder_listed (remote_file : str) (r : gmap str blob) (b : blob) :
  regular self remote_file ->
  r !! placeholder self remote_file = Some b ->
  _placeholder self (os_path_basename remote_file)
    ∈ names r (os_path_split remote_file).1.
Proof.
  intros [_ Hp] Hb. destruct Hok as [Hflat _].
  apply elem_of_names. exists (placeholder self remote_file), b.
  split; [exact Hb|].
  rewrite split_placeholder by exact Hflat.
  unfold _safePlaceholder. unfold isPlaceholder in Hp. rewrite Hp.
  reflexivity.
Qed.

(** The run of [pop] on a regular file that is on the relay with its
    placeholder and without a lock, for a puller count above 1. *)
Lemma pop_counted_run rounds remote_file local_dest pullers blocking kwargs
    w data pb :
  regular self remote_file ->
  1 < pullers ->
  remote w !! remote_file = Some data ->
  remote w !! placeholder self remote_file = Some pb ->
  _lock self (os_path_basename remote_file)
    ∉ names (remote w) (os_path_split remote_file).1 ->
  (blocking_truthy blocking = true -> rounds <> 0%nat) ->
  exists w',
    pop self rounds remote_file (User local_dest) pullers blocking kwargs w
    = (Ok true, w')
    /\ remote w'
       = delete (lock self remote_file)
           (<[placeholder self remote_file :=
                Blob (content pb) (Seconds (clock w))]>
              ((if Z.of_nat (length (readlines (content pb))) - 1 <? pullers - 1
                then remote_file_kept else delete remote_file)
                 (<[lock self remote_file :=
                      Blob (repr_LockInfo
                              (mkLockInfo (Some (client self)) (Some $"r") None))
                           (Seconds (clock w))]> (remote w))))
    /\ disk w' !! User local_dest = Some (content data).
Proof.
  intros Hreg HN Hdata Hpb Hfree Hrounds.
  pose proof (lock_not_regular _ Hreg) as HLF.
  pose proof (placeholder_not_regular _ Hreg) as HPF.
  pose proof (lock_not_placeholder _ Hreg) as HLP.
  pose proof Hok as [Hflat _].
  assert (HN0 : (pullers =? 0) = false) by (apply Z.eqb_neq; lia).
  assert (HN1 : (1 <? pullers) = true) by (apply Z.ltb_lt; lia).
  unfold remote_file_kept.
  destruct w as [r d t n tf]. simpl in Hdata, Hpb, Hfree. simpl clock.
  destruct (Z.of_nat (length (readlines (content pb))) - 1 <? pullers - 1)
    eqn:Hlet.
  - eexists. split; [|split].
    + unfold pop. rewrite HN0, HN1. mrun.
      rewrite acquireLock_run by assumption. mrun.
      rewrite hasPlaceholder_run by exact Hflat. mrun.
      rewrite bool_decide_eq_true_2
        by (eapply placeholder_listed; [exact Hreg|];
            rewrite lookup_insert_ne by exact HLP; exact Hpb).
      mrun. rewrite newTemporaryFile_run. mrun.
      rewrite (lookup_insert_ne _ _ _ _ HLP), Hpb. mrun.
      rewrite lookup_insert_eq. mrun. rewrite Hlet.
      rewrite (lookup_insert_ne _ _ _ _ HLF), Hdata. mrun.
      erewrite markAsRead_local_run
        by (lazymatch goal with
            | |- lpath_truthy _ = true => reflexivity
            | _ => simpl; rewrite lookup_insert_ne by discriminate;
                   apply lookup_insert_eq
            end).
      mrun. rewrite delTemporaryFile_run. mrun.
      unfold releaseLock.
      erewrite unlink_run
        by (simpl; rewrite lookup_insert_ne by (apply not_eq_sym, HLP);
            apply lookup_insert_eq).
      mrun. reflexivity.
    + reflexivity.
    + simpl. rewrite lookup_delete_ne by discriminate.
      rewrite lookup_delete_ne by discriminate. apply lookup_insert_eq.
  - eexists. split; [|split].
    + unfold pop. rewrite HN0, HN1. mrun.
      rewrite acquireLock_run by assumption. mrun.
      rewrite hasPlaceholder_run by exact Hflat. mrun.
      rewrite bool_decide_eq_true_2
        by (eapply placeholder_listed; [exact Hreg|];
            rewrite lookup_insert_ne by exact HLP; exact Hpb).
      mrun. rewrite newTemporaryFile_run. mrun.
      rewrite (lookup_insert_ne _ _ _ _ HLP), Hpb. mrun.
      rewrite lookup_insert_eq. mrun. rewrite Hlet.
      rewrite (lookup_insert_ne _ _ _ _ HLF), Hdata. mrun.
      erewrite markAsRead_local_run
        by (lazymatch goal with
            | |- lpath_truthy _ = true => reflexivity
            | _ => simpl; rewrite lookup_insert_ne by discriminate;
                   apply lookup_insert_eq
            end).
      mrun. rewrite delTemporaryFile_run. mrun.
      unfold releaseLock.
      erewrite unlink_run
        by (simpl; rewrite lookup_insert_ne by (apply not_eq_sym, HLP);
            rewrite lookup_delete_ne by (apply not_eq_sym, HLF);
            apply lookup_insert_eq).
      mrun. reflexivity.
    + reflexivity.
    + simpl. rewrite lookup_delete_ne by discriminate.
      rewrite lookup_delete_ne by discriminate. apply lookup_insert_eq.
Qed.

End PopFacts.

(** ** Corrupted locks *)

Section CorruptedFacts.
Import Py Transport Relay.
Context `{Essential}.
Variable self : Relay.t.

Lemma getLockInfo_run remote_file w :
  getLockInfo self remote_file w
  = (Ok (stored_lock_info self (remote w) remote_file),
     World (remote w) (delete (Temp (next_temp w)) (disk w)) (clock w)
           (S (next_temp w)) (_temporary_files w)).
Proof.
  destruct w as [r d t n tf]. unfold getLockInfo, stored_lock_info. mrun.
  destruct (r !! lock self remote_file) as [b|] eqn:E; mrun.
  - rewrite lookup_insert_eq. mrun. rewrite lookup_insert_eq. mrun.
    rewrite !delete_insert_eq. reflexivity.
  - unfold not_found. mrun.
    rewrite bool_decide_eq_false_2 by discriminate. mrun.
    rewrite lookup_insert_eq. mrun.
    rewrite !delete_insert_eq. reflexivity.
Qed.

(** One round of the loop appends the information of a corrupted lock,
    and leaves relay and clock as they are. *)
Lemma listCorrupted_entry_run remote_dir file mtime_ locks w :
  exists w',
    listCorrupted_entry self remote_dir file mtime_ locks w
    = (Ok (locks ++
             if corrupted self (remote w) (clock w) remote_dir (file, mtime_)
             then [listed_lock_info self (remote w) remote_dir file]
             else []),
       w')
    /\ remote w' = remote w /\ clock w' = clock w.
Proof.
  destruct w as [r d t n tf]. cbn [remote clock].
  unfold listCorrupted_entry, corrupted. cbn [fst snd].
  destruct (isLock self file); cbn [andb].
  - unfold bind at 1. rewrite getLockInfo_run.
    cbn [remote clock disk next_temp _temporary_files].
    fold (listed_lock_info self r remote_dir file).
    set (info := listed_lock_info self r remote_dir file).
    destruct (truthy_opt (owner info)); cbn [andb orb negb].
    + case_bool_decide; eexists; (split; [reflexivity|split; reflexivity])
        || (rewrite app_nil_r; eexists; split; [reflexivity|split; reflexivity]).
    + destruct (mtime_truthy mtime_), (lock_timeout self =? 0);
        cbn [andb negb]; rewrite ?app_nil_r;
        try (eexists; split; [reflexivity|split; reflexivity]).
      mrun.
      destruct (lock_timeout self <? t - mtime_seconds mtime_);
        rewrite ?app_nil_r; eexists; (split; [reflexivity|]);
        split; reflexivity.
  - rewrite app_nil_r. eexists. split; [reflexivity|]. split; reflexivity.
Qed.

Lemma listCorrupted_for_run remote_dir ls : forall locks w,
  exists w',
    listCorrupted_for self remote_dir ls locks w
    = (Ok (locks ++
             map (fun entry => listed_lock_info self (remote w) remote_dir entry.1)
               (List.filter (corrupted self (remote w) (clock w) remote_dir) ls)),
       w')
    /\ remote w' = remote w /\ clock w' = clock w.
Proof.
  induction ls as [|[file mtime_] rest IH]; intros locks w; simpl.
  - exists w. rewrite app_nil_r. repeat split.
  - destruct (listCorrupted_entry_run remote_dir file mtime_ locks w)
      as (w1 & Hrun & Hr & Hc).
    rewrite (bind_ok _ _ _ _ _ Hrun).
    destruct (IH (locks ++
                    if corrupted self (remote w) (clock w) remote_dir (file, mtime_)
                    then [listed_lock_info self (remote w) remote_dir file]
                    else []) w1) as (w2 & Hrun2 & Hr2 & Hc2).
    exists w2. rewrite Hrun2, Hr, Hc. split; [|split; congruence].
    f_equal. f_equal.
    destruct (corrupted self (remote w) (clock w) remote_dir (file, mtime_));
      simpl; rewrite <- app_assoc; reflexivity.
Qed.

End CorruptedFacts.

(** ** Ready files *)

Section ReadyFacts.
Import Py Transport Relay.
Context `{Essential}.
Variable self : Relay.t.

Lemma listReady_for_filter ls files : forall ready_,
  listReady_for self ls files ready_
  = ready_ ++ List.filter (ready self ls) files.
Proof.
  induction files as [|file rest IH]; intros ready_.
  - simpl. rewrite app_nil_r. reflexivity.
  - cbn [listReady_for List.filter].
    pose proof (IH (ready_ ++ [file])) as IH1. pose proof (IH ready_) as IH0.
    rewrite <- app_assoc in IH1. cbn [app] in IH1.
    set (tail := List.filter (ready self ls) rest) in *.
    unfold ready, isLock, isPlaceholder. rewrite <- !split_snd.
    destruct (os_path_split file) as [filedir filename]; cbn [fst snd].
    destruct (negb (_isLock self filename)
              && negb (_isPlaceholder self filename)
              && negb (bool_decide (join filedir (_lock self filename) ∈ ls)));
      [exact IH1 | exact IH0].
Qed.

Lemma listReady_run remote_dir recursive w :
  listReady self remote_dir recursive w
  = (let ls := map fst (listing (remote w) remote_dir recursive) in
     (Ok (List.filter (ready self ls) ls), w)).
Proof.
  unfold listReady. mrun. rewrite listReady_for_filter. reflexivity.
Qed.

End ReadyFacts.

(** ** Access attributes and controller *)

Ltac arun :=
  cbv beta iota zeta delta
    [bind ret raise gets modify
     Access.os_path_exists Access.set_table Access.table Access.files
     Access.new_bytes Access.is_the_undefined Access.value
     AccessAttributes.with_entry AccessAttributes.entry_get
     AccessAttributes.entry_delete AccessAttributes.entry_set
     AccessAttributes.bytes_join AccessAttributes._encode
     fst snd negb andb orb].

Section AccessFacts.
Import Py Access.

(** [_set] never takes the branch that deletes: the value it compares
    with [self._undefined] is the object [join] has just built. *)
Lemma _set_keeps_record self attr resource perm_ w w' :
  AccessAttributes._set self attr resource perm_ w = (Ok tt, w') ->
  is_Some (table w' !! resource).
Proof.
  destruct w as [tbl fs]. unfold AccessAttributes._set.
  destruct (AccessAttributes.location self); arun; [|discriminate].
  destruct (tbl !! resource); destruct perm_; arun;
    try discriminate;
    intros [= <-]; simpl; rewrite lookup_insert_eq; eexists; reflexivity.
Qed.

Section Controller.
Variable os_path_relpath : str -> str -> str.
Variable self : AccessController.t.

Lemma __contains___run resource w :
  AccessAttributes.__contains__ (AccessController.persistent self) resource w
  = (Ok (truthy_opt (AccessAttributes.location (AccessController.persistent self))
         && bool_decide (is_Some (table w !! resource))), w).
Proof.
  destruct w as [tbl fs]. unfold AccessAttributes.__contains__.
  destruct (AccessAttributes.location (AccessController.persistent self))
    as [loc|]; cbn [truthy_opt]; [|reflexivity].
  destruct (truthy loc); [|reflexivity].
  arun. destruct (tbl !! resource) eqn:E; arun.
  - rewrite bool_decide_eq_true_2 by (eexists; reflexivity). reflexivity.
  - rewrite bool_decide_eq_false_2 by (intros [? ?]; discriminate).
    reflexivity.
Qed.

(** A file that is neither on disk nor in the table is refused. *)
Lemma __safe___refuses {B} (access : str -> A B) filename w :
  (AccessController._format os_path_relpath self filename).2 ∉ files w ->
  (forall r, (AccessController._format os_path_relpath self filename).1 = Some r ->
             table w !! r = None) ->
  AccessController.__safe__ os_path_relpath self access filename w
  = (Raise (EnvironmentError None), w).
Proof.
  intros Hmissing Hunknown. unfold AccessController.__safe__.
  destruct (AccessController._format os_path_relpath self filename)
    as [relpath abspath]; cbn [fst snd] in *.
  unfold bind at 1 2. unfold os_path_exists, gets.
  rewrite bool_decide_eq_false_2 by exact Hmissing. cbn [negb].
  rewrite andb_true_r.
  destruct relpath as [r|]; cbn [truthy_opt]; [|reflexivity].
  destruct (truthy r) eqn:Hr;
    [|unfold ret; cbn [truthy_opt]; rewrite Hr; reflexivity].
  unfold bind at 1. rewrite __contains___run. cbn [from_option id].
  rewrite (Hunknown r eq_refl).
  rewrite (bool_decide_eq_false_2 (is_Some None))
    by (intros [? ?]; discriminate).
  rewrite andb_false_r. reflexivity.
Qed.

(** A file on disk is passed on to the setter. *)
Lemma __safe___found {B} (access : str -> A B) filename w r :
  (AccessController._format os_path_relpath self filename).1 = Some r ->
  truthy r = true ->
  (AccessController._format os_path_relpath self filename).2 ∈ files w ->
  AccessController.__safe__ os_path_relpath self access filename w
  = access r w.
Proof.
  intros Hrel Hr Hin. unfold AccessController.__safe__.
  destruct (AccessController._format os_path_relpath self filename)
    as [relpath abspath]; cbn [fst snd] in *. subst relpath.
  unfold bind at 1 2. unfold os_path_exists, gets.
  cbn [truthy_opt]. rewrite Hr. cbn [andb].
  rewrite bool_decide_eq_true_2 by exact Hin. cbn [negb].
  unfold ret. cbn [truthy_opt]. rewrite Hr. reflexivity.
Qed.

(** A file that is missing on disk and has a record in the table
    reaches the call of the logger; with a logger it is passed on to
    the setter. *)
Lemma __safe___recorded {B} (access : str -> A B) filename w r :
  (AccessController._format os_path_relpath self filename).1 = Some r ->
  truthy r = true ->
  (AccessController._format os_path_relpath self filename).2 ∉ files w ->
  truthy_opt (AccessAttributes.location (AccessController.persistent self))
  = true ->
  is_Some (table w !! r) ->
  AccessController.__safe__ os_path_relpath self access filename w
  = if AccessController.logger self then access r w
    else (Raise AttributeError, w).
Proof.
  intros Hrel Hr Hmissing Hloc Hknown. unfold AccessController.__safe__.
  destruct (AccessController._format os_path_relpath self filename)
    as [relpath abspath]; cbn [fst snd] in *. subst relpath.
  unfold bind at 1 2. unfold os_path_exists, gets.
  cbn [truthy_opt]. rewrite Hr. cbn [andb].
  rewrite bool_decide_eq_false_2 by exact Hmissing. cbn [negb].
  unfold bind at 1. rewrite __contains___run, Hloc. cbn [from_option id].
  rewrite bool_decide_eq_true_2 by exact Hknown. cbn [andb].
  unfold AccessController.logger_debug.
  destruct (AccessController.logger self).
  - unfold bind, ret. cbn [truthy_opt]. rewrite Hr. reflexivity.
  - reflexivity.
Qed.

End Controller.

End AccessFacts.

(** ** Lines of a placeholder *)

Section LinesFacts.
Import Py.

Lemma startswith_feed (c : ascii) (s : str) :
  startswith (c :: s) [LF] = bool_decide (c = LF).
Proof.
  simpl. rewrite andb_true_r. apply bool_decide_ext. split; congruence.
Qed.

(** The lines [readlines] returns are the lines of the text. *)
Lemma readlines_from_line_count (s : str) : forall cur,
  length (readlines_from cur s)
  = (line_ends s + if unfinished (truthy cur) s then 1 else 0)%nat.
Proof.
  induction s as [|c s IH]; intros cur.
  - destruct cur; reflexivity.
  - cbn [readlines_from line_ends unfinished].
    destruct (bool_decide (c = LF)) eqn:HLF; cbn [orb negb andb].
    + cbn [length]. rewrite IH. reflexivity.
    + destruct (bool_decide (c = CR)) eqn:HCR; cbn [orb negb andb].
      * destruct s as [|c' s']; [reflexivity|].
        rewrite startswith_feed.
        destruct (bool_decide (c' = LF)) eqn:HLF'; cbn [negb].
        -- transitivity (length (readlines_from [] (c' :: s'))).
           ++ cbn [readlines_from]. rewrite HLF'. reflexivity.
           ++ rewrite IH. reflexivity.
        -- cbn [length]. rewrite IH. reflexivity.
      * rewrite IH. reflexivity.
Qed.

Lemma readlines_line_count (s : str) : length (readlines s) = line_count s.
Proof. apply readlines_from_line_count. Qed.



(** Whether the last line is finished is decided by the end of the
    text. *)
Lemma unfinished_app (x y : str) : forall p,
  y <> [] -> unfinished p (x ++ y) = unfinished false y.
Proof.
  induction x as [|a x IH]; intros p Hy.
  - destruct y; [congruence | reflexivity].
  - cbn [app unfinished]. apply IH, Hy.
Qed.

Lemma unfinished_last (s : str) : forall p,
  unfinished p s
  = match last s with
    | Some a => negb (bool_decide (a = LF) || bool_decide (a = CR))
    | None => p
    end.
Proof.
  induction s as [|c s IH]; intros p; [reflexivity|].
  cbn [unfinished]. rewrite IH. destruct s as [|a s]; [reflexivity|].
  change (last (c :: a :: s)) with (last (a :: s)).
  destruct (last (a :: s)) eqn:Hl; [reflexivity|].
  apply last_None in Hl. discriminate.
Qed.

Lemma unfinished_plain (s : str) : forall p,
  contains LF s = false -> contains CR s = false ->
  unfinished p s = p || truthy s.
Proof.
  induction s as [|c s IH]; intros p HLF HCR.
  - cbn. rewrite orb_false_r. reflexivity.
  - simpl in HLF, HCR.
    apply orb_false_iff in HLF as [Hc1 HLF].
    apply orb_false_iff in HCR as [Hc2 HCR].
    cbn [unfinished truthy]. rewrite Hc1, Hc2, IH by assumption.
    rewrite orb_true_r. reflexivity.
Qed.

Lemma line_ends_plain (s : str) :
  contains LF s = false -> contains CR s = false -> line_ends s = 0%nat.
Proof.
  induction s as [|c s IH]; intros HLF HCR; [reflexivity|].
  simpl in HLF, HCR.
  apply orb_false_iff in HLF as [Hc1 HLF].
  apply orb_false_iff in HCR as [Hc2 HCR].
  cbn [line_ends]. rewrite Hc1, Hc2, IH by assumption. reflexivity.
Qed.

(** Without carriage returns the line ends are the line feeds. *)
Lemma line_ends_feeds (s : str) :
  contains CR s = false -> line_ends s = count LF s.
Proof.
  induction s as [|c s IH]; intros HCR; [reflexivity|].
  simpl in HCR. apply orb_false_iff in HCR as [Hc HCR].
  unfold count in *. cbn [line_ends List.filter]. rewrite Hc, IH by exact HCR.
  destruct (bool_decide (c = LF)); reflexivity.
Qed.

(** A text in the format of a placeholder, lines joined by line feeds:
    one line more than line feeds. *)
Lemma line_count_plain (s : str) :
  contains CR s = false -> s <> [] -> last s <> Some LF ->
  line_count s = (count LF s + 1)%nat.
Proof.
  intros HCR Hs Hlast. unfold line_count.
  rewrite line_ends_feeds by exact HCR. f_equal.
  rewrite unfinished_last.
  destruct (last s) as [a|] eqn:Hl.
  - rewrite (bool_decide_eq_false_2 (a = LF)) by congruence.
    assert (Ha : bool_decide (a = CR) = false).
    { apply bool_decide_eq_false_2. intros ->.
      apply last_Some in Hl as [h ->].
      unfold contains in HCR. rewrite existsb_app in HCR.
      apply orb_false_iff in HCR as [_ HCR]. simpl in HCR.
      discriminate. }
    rewrite Ha. reflexivity.
  - apply last_None in Hl. contradiction.
Qed.

Lemma line_ends_cons (c : ascii) (s : str) :
  line_ends (c :: s)
  = ((if bool_decide (c = LF) then 1
      else if bool_decide (c = CR) && negb (startswith s [LF]) then 1 else 0)
     + line_ends s)%nat.
Proof. reflexivity. Qed.

(** A line feed after a carriage return ends the same line. *)
Lemma line_ends_feed (x b : str) :
  (line_ends (x ++ LF :: b) + (if bool_decide (last x = Some CR) then 1 else 0)
   = line_ends x + 1 + line_ends b)%nat.
Proof.
  induction x as [|a x IH].
  - cbn [app line_ends last].
    rewrite (bool_decide_eq_true_2 (LF = LF)) by reflexivity.
    rewrite (bool_decide_eq_false_2 (None = Some CR)) by discriminate. lia.
  - destruct x as [|a' x'].
    + cbn [app line_ends last]. rewrite startswith_feed.
      rewrite (bool_decide_eq_true_2 (LF = LF)) by reflexivity.
      cbn [negb]. rewrite andb_false_r.
      replace (startswith [] [LF]) with false by reflexivity.
      cbn [negb]. rewrite andb_true_r.
      destruct (bool_decide (a = LF)) eqn:HLF.
      * apply bool_decide_eq_true_1 in HLF. subst a.
        rewrite bool_decide_eq_false_2 by discriminate. lia.
      * destruct (bool_decide (a = CR)) eqn:HCR.
        -- apply bool_decide_eq_true_1 in HCR. subst a.
           rewrite bool_decide_eq_true_2 by reflexivity. lia.
        -- apply bool_decide_eq_false_1 in HCR.
           rewrite bool_decide_eq_false_2 by congruence. lia.
    + change (last (a :: a' :: x')) with (last (a' :: x')).
      cbn [app] in *.
      rewrite (line_ends_cons a (a' :: x' ++ LF :: b)).
      rewrite (line_ends_cons a (a' :: x')).
      rewrite !startswith_feed. lia.
Qed.


(** What a new reader adds to the number of lines [pop] counts: one
    line, or two when the body is empty or ends with a line feed. *)
Lemma line_count_reader (body c : str) :
  c <> [] -> contains LF c = false -> contains CR c = false ->
  line_count (body ++ LF :: c)
  = (line_count body
     + if bool_decide (last body = Some LF) || negb (truthy body)
       then 2 else 1)%nat.
Proof.
  intros Hc HLF HCR. unfold line_count.
  rewrite unfinished_app by discriminate.
  cbn [unfinished]. rewrite (bool_decide_eq_true_2 (LF = LF)) by reflexivity.
  cbn [orb negb]. rewrite unfinished_plain by assumption.
  replace (truthy c) with true by (destruct c; [congruence | reflexivity]).
  cbn [orb].
  pose proof (line_ends_feed body c) as Hfeed.
  rewrite (line_ends_plain c) in Hfeed by assumption.
  rewrite unfinished_last.
  destruct (last body) as [a|] eqn:Hl.
  - replace (truthy body) with true
      by (destruct body; [discriminate | reflexivity]).
    cbn [negb]. rewrite orb_false_r.
    destruct (bool_decide (a = LF)) eqn:Ha.
    + apply bool_decide_eq_true_1 in Ha. subst a.
      rewrite (bool_decide_eq_false_2 (Some LF = Some CR)) in Hfeed
        by discriminate.
      rewrite (bool_decide_eq_true_2 (Some LF = Some LF)) by reflexivity.
      cbn [orb negb]. lia.
    + apply bool_decide_eq_false_1 in Ha.
      rewrite (bool_decide_eq_false_2 (Some a = Some LF)) by congruence.
      destruct (bool_decide (a = CR)) eqn:Hr.
      * apply bool_decide_eq_true_1 in Hr. subst a.
        rewrite (bool_decide_eq_true_2 (Some CR = Some CR)) in Hfeed
          by reflexivity.
        cbn [orb negb]. lia.
      * apply bool_decide_eq_false_1 in Hr.
        rewrite (bool_decide_eq_false_2 (Some a = Some CR)) in Hfeed
          by congruence.
        cbn [orb negb]. lia.
  - apply last_None in Hl. subst body.
    rewrite (bool_decide_eq_false_2 (None = Some CR)) in Hfeed
      by discriminate.
    rewrite (bool_decide_eq_false_2 (None = Some LF)) by discriminate.
    cbn [app truthy negb orb line_ends] in *. lia.
Qed.


End LinesFacts.

(** * Properties of the specification *)

Section Claims.
Import Py Transport.
Context `{Essential}.

(** C1 (a defect of the code).  A call [markAsRead(F)] that downloads
    the placeholder itself uploads it with a line feed and the client
    appended.  The call [pop] makes for a puller count above 1 passes
    the local copy it has downloaded, and [markAsRead] then uploads
    that copy as it is: after such a [pop] the body of the placeholder
    is what it was, no reader is added. *)
Theorem C1_pop_uploads_placeholder_unchanged (self : Relay.t) rounds
    remote_file local_dest pullers blocking kwargs w data pb :
  codec_ok self ->
  regular self remote_file ->
  1 < pullers ->
  remote w !! remote_file = Some data ->
  remote w !! Relay.placeholder self remote_file = Some pb ->
  Relay._lock self (os_path_basename remote_file)
    ∉ names (remote w) (os_path_split remote_file).1 ->
  (Relay.blocking_truthy blocking = true -> rounds <> 0%nat) ->
  (exists w1,
      Relay.markAsRead self remote_file None w = (Ok tt, w1)
      /\ content <$> remote w1 !! Relay.placeholder self remote_file
         = Some (content pb ++ LF :: Relay.client self))
  /\ (exists w2,
         Relay.pop self rounds remote_file (User local_dest) pullers
           blocking kwargs w = (Ok true, w2)
         /\ content <$> remote w2 !! Relay.placeholder self remote_file
            = Some (content pb)).
Proof.
  intros Hok Hreg HN Hdata Hpb Hfree Hrounds. split.
  - eexists. split; [apply (markAsRead_run self _ _ _ Hpb)|].
    simpl. rewrite lookup_insert_eq. reflexivity.
  - destruct (pop_counted_run self Hok rounds remote_file local_dest pullers
                blocking kwargs w data pb Hreg HN Hdata Hpb Hfree Hrounds)
      as (w2 & Hrun & Hremote & _).
    exists w2. split; [exact Hrun|].
    rewrite Hremote.
    rewrite lookup_delete_ne by (apply lock_not_placeholder; assumption).
    rewrite lookup_insert_eq. reflexivity.
Qed.

(** C2.  On a regular file that is on the relay with its placeholder
    and without a lock, [pop] with a puller count [N > 1] returns
    [True], computes [reads] as the number of lines of the placeholder
    minus 1, and the file is gone from the relay if and only if
    [reads >= N - 1]; when [reads < N - 1] the file is still there,
    unchanged.  The local destination holds the content either way.
    The lines are those of the text: one for each line end, and one for
    a last line without line end.  For a body in the format of a
    placeholder, lines joined by line feeds, [reads] is the number of
    line feeds, one for each reader recorded. *)
Theorem C2_pop_deletes_iff_enough_reads (self : Relay.t) rounds
    remote_file local_dest pullers blocking kwargs w data pb :
  codec_ok self ->
  regular self remote_file ->
  1 < pullers ->
  remote w !! remote_file = Some data ->
  remote w !! Relay.placeholder self remote_file = Some pb ->
  Relay._lock self (os_path_basename remote_file)
    ∉ names (remote w) (os_path_split remote_file).1 ->
  (Relay.blocking_truthy blocking = true -> rounds <> 0%nat) ->
  let reads := Z.of_nat (line_count (content pb)) - 1 in
  (contains CR (content pb) = false -> content pb <> [] ->
   last (content pb) <> Some LF ->
   reads = Z.of_nat (count LF (content pb)))
  /\ exists w',
      Relay.pop self rounds remote_file (User local_dest) pullers
        blocking kwargs w = (Ok true, w')
      /\ (remote w' !! remote_file = None <-> reads >= pullers - 1)
      /\ (reads < pullers - 1 -> remote w' !! remote_file = Some data)
      /\ disk w' !! User local_dest = Some (content data).
Proof.
  intros Hok Hreg HN Hdata Hpb Hfree Hrounds reads. split.
  { intros HCR Hne Hlast. unfold reads.
    rewrite line_count_plain by assumption. lia. }
  destruct (pop_counted_run self Hok rounds remote_file local_dest pullers
              blocking kwargs w data pb Hreg HN Hdata Hpb Hfree Hrounds)
    as (w' & Hrun & Hremote & Hdisk).
  exists w'. split; [exact Hrun|].
  rewrite readlines_line_count in Hremote.
  assert (Hlookup : remote w' !! remote_file
                    = if reads <? pullers - 1 then Some data else None).
  { rewrite Hremote. fold reads.
    rewrite lookup_delete_ne by (apply lock_not_regular; assumption).
    rewrite lookup_insert_ne by (apply placeholder_not_regular; assumption).
    destruct (reads <? pullers - 1).
    - unfold remote_file_kept.
      rewrite lookup_insert_ne by (apply lock_not_regular; assumption).
      exact Hdata.
    - apply lookup_delete_eq. }
  rewrite Hlookup.
  destruct (Z.ltb_spec reads (pullers - 1)); repeat split;
    try (intros; lia); try discriminate; try exact Hdisk; reflexivity.
Qed.

Lemma corrupted_unreachable (self : Relay.t) r now remote_dir entry :
  truthy (Relay.client self) = false ->
  Relay.lock_timeout self = 0 ->
  corrupted self r now remote_dir entry = false.
Proof.
  intros Hclient Htimeout. unfold corrupted. rewrite Htimeout.
  destruct (Relay.isLock self entry.1); [|reflexivity]. cbn [andb].
  destruct (truthy_opt (owner (listed_lock_info self r remote_dir entry.1)))
    eqn:Howner; cbn [andb orb negb].
  - case_bool_decide as Heq; [|reflexivity].
    rewrite Heq in Howner. simpl in Howner. congruence.
  - reflexivity.
Qed.

(** C3 (as amended).  For every listing with modification times,
    [listCorrupted] returns the lock information of exactly the listed
    lock blobs that (a) have an owner, and it is this client, whatever
    their age, or (b) have no owner while a lock timeout is set, the
    listing gives a modification time other than 0, and that time is
    more than [lock_timeout] seconds before the current time; the order
    of the listing is kept, relay and clock are left as they are.  A
    lock owned by another client is never listed. *)
Theorem C3_listCorrupted_selects (self : Relay.t) remote_dir :
  (forall ls w, exists w',
      Relay.listCorrupted_for self remote_dir ls [] w
      = (Ok (map (fun entry =>
                    listed_lock_info self (remote w) remote_dir entry.1)
               (List.filter (corrupted self (remote w) (clock w) remote_dir)
                  ls)), w')
      /\ remote w' = remote w /\ clock w' = clock w)
  /\ (forall recursive w, exists w',
         Relay.listCorrupted self remote_dir recursive w
         = (Ok (map (fun entry =>
                       listed_lock_info self (remote w) remote_dir entry.1)
                  (List.filter (corrupted self (remote w) (clock w) remote_dir)
                     (listing (remote w) remote_dir recursive))), w')
         /\ remote w' = remote w /\ clock w' = clock w)
  /\ (forall r now file mtime_,
         let info := listed_lock_info self r remote_dir file in
         corrupted self r now remote_dir (file, mtime_) = true
         <-> Relay.isLock self file = true
             /\ ((truthy_opt (owner info) = true
                  /\ owner info = Some (Relay.client self))
                 \/ (truthy_opt (owner info) = false
                     /\ Relay.lock_timeout self <> 0
                     /\ mtime_truthy mtime_ = true
                     /\ Relay.lock_timeout self < now - mtime_seconds mtime_)))
  /\ (forall r now file mtime_,
         let info := listed_lock_info self r remote_dir file in
         truthy_opt (owner info) = true ->
         owner info <> Some (Relay.client self) ->
         corrupted self r now remote_dir (file, mtime_) = false).
Proof.
  split; [|split; [|split]].
  - intros ls w. apply (listCorrupted_for_run self remote_dir ls [] w).
  - intros recursive w. unfold Relay.listCorrupted.
    destruct (truthy (Relay.client self)) eqn:Hclient; cbn [orb negb].
    + unfold bind. rewrite (_safe_ok _ _ _ _ (_list_mtime_run _ _ w)).
      apply (listCorrupted_for_run self remote_dir _ [] w).
    + destruct (Z.eqb_spec (Relay.lock_timeout self) 0) as [Hzero|Hset];
        cbn [negb].
      * exists w. split; [|split; reflexivity].
        unfold ret. f_equal. f_equal.
        induction (listing (remote w) remote_dir recursive) as [|e l IH];
          [reflexivity|].
        simpl. rewrite (corrupted_unreachable self _ _ _ e Hclient Hzero).
        exact IH.
      * unfold bind. rewrite (_safe_ok _ _ _ _ (_list_mtime_run _ _ w)).
        apply (listCorrupted_for_run self remote_dir _ [] w).
  - intros r now file mtime_ info. unfold corrupted. cbn [fst snd].
    fold info.
    destruct (Relay.isLock self file); cbn [andb];
      [|split; [discriminate | intros [? _]; discriminate]].
    destruct (truthy_opt (owner info)); cbn [andb orb negb].
    + rewrite orb_false_r, bool_decide_eq_true. split.
      * intros Ho. split; [reflexivity|]. left. split; [reflexivity|exact Ho].
      * intros [_ [[_ Ho]|[Hf _]]]; [exact Ho | discriminate].
    + rewrite !andb_true_iff, negb_true_iff, Z.eqb_neq, Z.ltb_lt. split.
      * intros [[Ht Hm] Hold]. split; [reflexivity|]. right. tauto.
      * intros [_ [[Hf _]|(_ & Ht & Hm & Hold)]]; [discriminate|tauto].
  - intros r now file mtime_ info Howner Hother. unfold corrupted.
    cbn [fst snd]. fold info. rewrite Howner. cbn [andb orb negb].
    rewrite bool_decide_eq_false_2 by exact Hother.
    apply andb_false_r.
Qed.

(** C4 (as amended).  For every listing, [listReady] returns, in the
    order of the listing, exactly the names that are neither a lock
    name nor a placeholder name and whose lock name is not in the
    listing; it never returns a lock or a placeholder name.  (Message
    names are not filtered.)  The loop is stated on every list of names,
    the method on every relay whose listing is that list. *)
Theorem C4_listReady_selects (self : Relay.t) (ls : list str) :
  Relay.listReady_for self ls ls [] = List.filter (ready self ls) ls
  /\ (forall file,
         In file (Relay.listReady_for self ls ls [])
         <-> In file ls
             /\ Relay.isLock self file = false
             /\ Relay.isPlaceholder self file = false
             /\ join (os_path_split file).1
                     (Relay._lock self (os_path_basename file)) ∉ ls)
  /\ (forall remote_dir recursive w,
         map fst (listing (remote w) remote_dir recursive) = ls ->
         Relay.listReady self remote_dir recursive w
         = (Ok (List.filter (ready self ls) ls), w)).
Proof.
  pose proof (listReady_for_filter self ls ls []) as Heq. simpl in Heq.
  split; [exact Heq|]. split.
  - intros file. rewrite Heq, filter_In. unfold ready.
    rewrite !andb_true_iff, !negb_true_iff, bool_decide_eq_false. tauto.
  - intros remote_dir recursive w <-. apply listReady_run.
Qed.

(** C7.  Whatever the callback, [_safe] raises [UnrecoverableError]
    around an environment error whose [errno] is 24, lets every other
    exception of the callback through as it is, and returns what the
    callback returns; the state is the one the callback leaves. *)
Theorem C7__safe_escalates_errno_24 {A} (callback : M A) (w w' : world) :
  (callback w = (Raise (EnvironmentError (Some 24)), w') ->
   Relay._safe callback w
   = (Raise (UnrecoverableError (EnvironmentError (Some 24))), w'))
  /\ (forall e, callback w = (Raise e, w') ->
                e <> EnvironmentError (Some 24) ->
                Relay._safe callback w = (Raise e, w'))
  /\ (forall a, callback w = (Ok a, w') ->
                Relay._safe callback w = (Ok a, w')).
Proof.
  split; [|split].
  - apply _safe_escalates.
  - intros e. apply _safe_propagates.
  - intros a. apply _safe_ok.
Qed.

(** C8 (a defect of the code).  The message codec does not round-trip:
    [message(path)] reads [self.message_hash], an attribute the object
    does not have, so encoding a name that is not a message name
    already raises [AttributeError] instead of returning a message
    name. *)
Theorem C8_message_encoding_raises (self : Relay.t) (path : str) :
  Relay.isMessage self path = false ->
  Relay.message self path = inl AttributeError.
Proof. apply message_raises. Qed.

(** X28.  The placeholder and lock codecs do round-trip, on every path
    that is not a marker name already and has no doubled separator
    before its final component. *)
Theorem codec_round_trip (self : Relay.t) (path : str) :
  flat_markers self -> regular self path -> normalized path ->
  Relay.isPlaceholder self (Relay.placeholder self path) = true
  /\ Relay.fromPlaceholder self (Relay.placeholder self path) = path
  /\ Relay.isLock self (Relay.lock self path) = true
  /\ Relay.fromLock self (Relay.lock self path) = path.
Proof.
  intros Hflat [Hl Hp] Hn. repeat split.
  - apply isPlaceholder_placeholder, Hflat.
  - apply fromPlaceholder_placeholder; assumption.
  - apply isLock_lock, Hflat.
  - apply fromLock_lock; assumption.
Qed.

(** C9.  With marker prefixes and suffixes that hold no path separator
    (as the constructor sets them), the safe placeholder name and the
    safe lock name are idempotent on every path. *)
Theorem C9_safe_names_idempotent (self : Relay.t) (path : str) :
  flat_markers self ->
  Relay.placeholder self (Relay.placeholder self path)
  = Relay.placeholder self path
  /\ Relay.lock self (Relay.lock self path) = Relay.lock self path.
Proof.
  intros Hflat. split.
  - apply placeholder_idempotent, Hflat.
  - apply lock_idempotent, Hflat.
Qed.

(** C10.  On every state of the relay, [Relay.hasPlaceholder] (existence
    of the placeholder name in the listing of the directory) and
    [IRelay.hasPlaceholder] (membership among the listed placeholders)
    give the same result, and so do the two [hasLock]: in every list of
    names, the placeholder name of a file is in the list exactly when it
    is among the placeholder names of the list, and likewise for its
    lock name. *)
Theorem C10_hasPlaceholder_implementations_agree (self : Relay.t)
    (remote_file : str) (w : world) :
  flat_markers self ->
  Relay.hasPlaceholder self remote_file w
  = IRelay.hasPlaceholder self remote_file w
  /\ Relay.hasLock self remote_file w = IRelay.hasLock self remote_file w
  /\ (forall ls : list str,
         let name := Relay._placeholder self (os_path_basename remote_file) in
         name ∈ ls
         <-> name ∈ filter (fun file => Relay.isPlaceholder self file = true) ls)
  /\ (forall ls : list str,
         let name := Relay._lock self (os_path_basename remote_file) in
         name ∈ ls
         <-> name ∈ filter (fun file => Relay.isLock self file = true) ls).
Proof.
  intros Hflat. split; [|split; [|split]].
  - rewrite hasPlaceholder_run, IRelay_hasPlaceholder_run by exact Hflat.
    reflexivity.
  - rewrite hasLock_run, IRelay_hasLock_run by exact Hflat. reflexivity.
  - intros ls name. rewrite list_elem_of_filter. split; [|tauto].
    intros Hin. split; [|exact Hin]. unfold Relay.isPlaceholder, name.
    rewrite basename_of_flat
      by (apply _placeholder_flat; [exact Hflat | apply basename_flat]).
    apply _isPlaceholder_placeholder.
  - intros ls name. rewrite list_elem_of_filter. split; [|tauto].
    intros Hin. split; [|exact Hin]. unfold Relay.isLock, name.
    rewrite basename_of_flat
      by (apply _lock_flat; [exact Hflat | apply basename_flat]).
    apply _isLock_lock.
Qed.

End Claims.

Section AccessClaims.
Import Py Access.

(** C5 (a defect of the code).  A record that [setReadability] brings
    to the value undefined/undefined is not removed: [_set] compares
    the byte string it has just built with [self._undefined] by
    identity, which never holds, and stores the two blanks. *)
Theorem C5_undefined_record_stays :
  AccessAttributes.setReadability (AccessAttributes.__init__ (Some $"db"))
    $"a.txt" PermNone deleted_file
  = (Ok tt, State (<[ $"a.txt" := $"  " ]> ∅) ∅).
Proof. vm_compute. reflexivity. Qed.

(** C6 (a defect of the code).  [setReadability] and [setWritability]
    of the access controller fail with [OSError] and leave the access
    store as it is for a file that is neither on the local disk nor
    recorded in the access store.  For a file that is missing on disk
    and has a record in the store they do not, against the docstring of
    [__safe__]: the branch for recorded files calls the logger and
    passes the file on, so that the setter runs on the record when the
    controller has a logger, and the call fails with [AttributeError]
    when it has none. *)
Theorem C6_recorded_missing_file_not_refused
    (os_path_relpath : str -> str -> str) (self : AccessController.t)
    (filename : str) (value : perm) (w : state) :
  let relpath := (AccessController._format os_path_relpath self filename).1 in
  let abspath := (AccessController._format os_path_relpath self filename).2 in
  abspath ∉ files w ->
  ((forall r, relpath = Some r -> table w !! r = None) ->
   AccessController.setReadability os_path_relpath self filename value w
   = (Raise (EnvironmentError None), w)
   /\ AccessController.setWritability os_path_relpath self filename value w
      = (Raise (EnvironmentError None), w))
  /\ (forall r,
         relpath = Some r -> truthy r = true ->
         truthy_opt (AccessAttributes.location
                       (AccessController.persistent self)) = true ->
         is_Some (table w !! r) ->
         AccessController.setReadability os_path_relpath self filename value w
         = (if AccessController.logger self
            then AccessAttributes.setReadability
                   (AccessController.persistent self) r value w
            else (Raise AttributeError, w))
         /\ AccessController.setWritability os_path_relpath self filename value w
            = (if AccessController.logger self
               then AccessAttributes.setWritability
                      (AccessController.persistent self) r value w
               else (Raise AttributeError, w))).
Proof.
  intros relpath abspath Hmissing. split.
  - intros Hunknown.
    split; apply __safe___refuses; assumption.
  - intros r Hrel Hr Hloc Hknown.
    unfold AccessController.setReadability, AccessController.setWritability.
    split.
    + apply (__safe___recorded os_path_relpath self
               (fun rp => AccessAttributes.setReadability
                            (AccessController.persistent self) rp value)
               filename w r); assumption.
    + apply (__safe___recorded os_path_relpath self
               (fun rp => AccessAttributes.setWritability
                            (AccessController.persistent self) rp value)
               filename w r); assumption.
Qed.

End AccessClaims.

(** * Concrete runs *)

(** C1, on scenario S2: B pops [x] with two pullers; the placeholder
    still reads [1700000000]. *)
Lemma C1_scenario_S2 :
  exists w2,
    @Relay.pop line_externals relay_B 1 $"x" (User $"dest") 2
      (Relay.BlockBool true) None after_push = (Ok true, w2)
    /\ content <$> remote w2 !! $".x.placeholder" = Some $"1700000000".
Proof.
  refine (proj2 (@C1_pop_uploads_placeholder_unchanged line_externals relay_B
                   1%nat $"x" $"dest" 2 (Relay.BlockBool true) None after_push
                   (Blob $"hi" (Seconds 1700000100))
                   (Blob $"1700000000" (Seconds 1700000100))
                   _ _ _ _ _ _ _)).
  - apply relay_of_codec_ok.
  - split; reflexivity.
  - reflexivity.
  - reflexivity.
  - reflexivity.
  - compute_done.
  - intros _. discriminate.
Defined.

(** C2, on scenario S2.  For B no read is recorded, two pullers are
    expected, and [x] stays on the relay; for C, after B, one read is
    recorded and [x] is deleted.  A body in which a carriage return
    ends the first line counts one read as well. *)
Lemma C2_scenario_S2 :
  (exists w',
      @Relay.pop line_externals relay_B 1 $"x" (User $"dest") 2
        (Relay.BlockBool true) None after_push = (Ok true, w')
      /\ (remote w' !! $"x" = None <-> 0 >= 1)
      /\ (0 < 1 -> remote w' !! $"x" = Some (Blob $"hi" (Seconds 1700000100)))
      /\ disk w' !! User $"dest" = Some $"hi")
  /\ (exists w',
         @Relay.pop line_externals relay_C 1 $"x" (User $"dest") 2
           (Relay.BlockBool true) None marked_by_B = (Ok true, w')
         /\ (remote w' !! $"x" = None <-> 1 >= 1)
         /\ (1 < 1 -> remote w' !! $"x" = Some (Blob $"hi" (Seconds 1700000100)))
         /\ disk w' !! User $"dest" = Some $"hi")
  /\ (exists w',
         @Relay.pop line_externals relay_C 1 $"x" (User $"dest") 2
           (Relay.BlockBool true) None marked_with_return = (Ok true, w')
         /\ (remote w' !! $"x" = None <-> 1 >= 1)
         /\ (1 < 1 -> remote w' !! $"x" = Some (Blob $"hi" (Seconds 1700000100)))
         /\ disk w' !! User $"dest" = Some $"hi").
Proof.
  split; [|split].
  - refine (proj2 (@C2_pop_deletes_iff_enough_reads line_externals relay_B
                     1%nat $"x" $"dest" 2 (Relay.BlockBool true) None
                     after_push (Blob $"hi" (Seconds 1700000100))
                     (Blob $"1700000000" (Seconds 1700000100))
                     _ _ _ _ _ _ _)).
    + apply relay_of_codec_ok.
    + split; reflexivity.
    + reflexivity.
    + reflexivity.
    + reflexivity.
    + compute_done.
    + intros _. discriminate.
  - refine (proj2 (@C2_pop_deletes_iff_enough_reads line_externals relay_C
                     1%nat $"x" $"dest" 2 (Relay.BlockBool true) None
                     marked_by_B (Blob $"hi" (Seconds 1700000100))
                     (Blob ($"1700000000" ++ Py.LF :: $"B")
                           (Seconds 1700000200))
                     _ _ _ _ _ _ _)).
    + apply relay_of_codec_ok.
    + split; reflexivity.
    + reflexivity.
    + reflexivity.
    + reflexivity.
    + compute_done.
    + intros _. discriminate.
  - refine (proj2 (@C2_pop_deletes_iff_enough_reads line_externals relay_C
                     1%nat $"x" $"dest" 2 (Relay.BlockBool true) None
                     marked_with_return (Blob $"hi" (Seconds 1700000100))
                     (Blob ($"1700000000" ++ Py.CR :: $"B")
                           (Seconds 1700000200))
                     _ _ _ _ _ _ _)).
    + apply relay_of_codec_ok.
    + split; reflexivity.
    + reflexivity.
    + reflexivity.
    + reflexivity.
    + compute_done.
    + intros _. discriminate.
Defined.

(** C3 as stated fails: with the lock timeout switched off, a lock blob
    without owner that is older than [lock_timeout] seconds is not
    listed; nor is, with the default timeout, such a blob whose listed
    modification time is 0. *)
Lemma C3_counterexample :
  (Relay.isLock relay_no_timeout $".y.lock" = true
   /\ owner (@listed_lock_info line_externals relay_no_timeout
               (remote old_lock) [] $".y.lock") = None
   /\ Relay.lock_timeout relay_no_timeout < clock old_lock - 5
   /\ @Relay.listCorrupted_for line_externals relay_no_timeout []
        [($".y.lock", Seconds 5)] [] old_lock
      = (Ok [], World (remote old_lock) ∅ 4000 1 [])
   /\ (@Relay.listCorrupted line_externals relay_no_timeout [] true old_lock).1
      = Ok [])
  /\ (Relay.isLock relay_B $".y.lock" = true
      /\ owner (@listed_lock_info line_externals relay_B
                  (remote epoch_lock) [] $".y.lock") = None
      /\ Relay.lock_timeout relay_B < clock epoch_lock - 0
      /\ (@Relay.listCorrupted line_externals relay_B [] true epoch_lock).1
         = Ok []).
Proof. repeat split; vm_compute; reflexivity. Qed.

(** C4 as stated fails: a message name is a marker name, and [listReady]
    returns it. *)
Lemma C4_counterexample :
  Relay.isMessage relay_B $".foo.message" = true
  /\ Relay.isSpecial relay_B $".foo.message" = true
  /\ @Relay.listReady_for line_externals relay_B
       [ $".foo.message" ] [ $".foo.message" ] []
     = [ $".foo.message" ].
Proof. repeat split; vm_compute; reflexivity. Qed.

(** C6: [a.txt] has the record [+ ] and is not on disk.  The controller
    [escalectl] builds, without logger, fails with [AttributeError]; a
    controller with a logger rewrites the record. *)
Lemma C6_deleted_a_txt :
  (AccessController.setReadability relpath_unused (controller (Some $"db"))
     $"a.txt" Access.PermFalse deleted_file
   = (Raise AttributeError, deleted_file)
   /\ AccessController.setWritability relpath_unused (controller (Some $"db"))
        $"a.txt" Access.PermFalse deleted_file
      = (Raise AttributeError, deleted_file))
  /\ (AccessController.setReadability relpath_unused
        (logging_controller (Some $"db")) $"a.txt" Access.PermFalse deleted_file
      = (Ok tt, Access.State (<[ $"a.txt" := $"- " ]> ∅) ∅)
      /\ AccessController.setWritability relpath_unused
           (logging_controller (Some $"db")) $"a.txt" Access.PermFalse
           deleted_file
         = (Ok tt, Access.State (<[ $"a.txt" := $"+-" ]> ∅) ∅)).
Proof.
  split.
  - refine (proj2 (C6_recorded_missing_file_not_refused relpath_unused
                     (controller (Some $"db")) $"a.txt" Access.PermFalse
                     deleted_file _) $"a.txt" _ _ _ _).
    + compute_done.
    + reflexivity.
    + reflexivity.
    + reflexivity.
    + eexists. reflexivity.
  - refine (proj2 (C6_recorded_missing_file_not_refused relpath_unused
                     (logging_controller (Some $"db")) $"a.txt"
                     Access.PermFalse deleted_file _) $"a.txt" _ _ _ _).
    + compute_done.
    + reflexivity.
    + reflexivity.
    + reflexivity.
    + eexists. reflexivity.
Defined.

(** C7: a callback failing with [errno] 24. *)
Lemma C7_too_many_open_files :
  Relay._safe (raise (EnvironmentError (Some 24)) : M unit) after_push
  = (Raise (UnrecoverableError (EnvironmentError (Some 24))), after_push).
Proof.
  refine (proj1 (C7__safe_escalates_errno_24
                   (raise (EnvironmentError (Some 24)))
                   after_push after_push) _).
  reflexivity.
Defined.

(** C8: encoding [foo] as a message name. *)
Lemma C8_message_foo : Relay.message relay_B $"foo" = inl AttributeError.
Proof.
  refine (C8_message_encoding_raises relay_B $"foo" _). reflexivity.
Defined.

(** X28: the placeholder and lock codecs on [dir/foo]. *)
Lemma codec_round_trip_foo :
  Relay.isPlaceholder relay_B (Relay.placeholder relay_B $"dir/foo") = true
  /\ Relay.fromPlaceholder relay_B (Relay.placeholder relay_B $"dir/foo")
     = $"dir/foo"
  /\ Relay.isLock relay_B (Relay.lock relay_B $"dir/foo") = true
  /\ Relay.fromLock relay_B (Relay.lock relay_B $"dir/foo") = $"dir/foo".
Proof.
  refine (codec_round_trip relay_B $"dir/foo" _ _ _).
  - apply relay_of_flat.
  - split; reflexivity.
  - reflexivity.
Defined.

(** C9: on [dir/foo]. *)
Lemma C9_dir_foo :
  Relay.placeholder relay_B (Relay.placeholder relay_B $"dir/foo")
  = Relay.placeholder relay_B $"dir/foo"
  /\ Relay.lock relay_B (Relay.lock relay_B $"dir/foo")
     = Relay.lock relay_B $"dir/foo".
Proof.
  refine (C9_safe_names_idempotent relay_B $"dir/foo" _).
  apply relay_of_flat.
Defined.

(** C10: on scenario S2. *)
Lemma C10_scenario_S2 :
  Relay.hasPlaceholder relay_B $"x" after_push
  = IRelay.hasPlaceholder relay_B $"x" after_push
  /\ Relay.hasLock relay_B $"x" after_push
     = IRelay.hasLock relay_B $"x" after_push.
Proof.
  destruct (C10_hasPlaceholder_implementations_agree relay_B $"x" after_push
              (relay_of_flat _ _)) as (Hp & Hl & _).
  exact (conj Hp Hl).
Defined.

(** * Further properties of the relay engine *)

Section NamesFacts.
Import Py Transport Relay.

Lemma names_insert_mono (r : gmap str blob) k b d x :
  x ∈ names r d -> x ∈ names (<[k:=b]> r) d.
Proof.
  rewrite !elem_of_names. intros (k' & b' & Hk & Hs).
  destruct (decide (k = k')) as [->|Hne].
  - exists k', b. split; [apply lookup_insert_eq | exact Hs].
  - exists k', b'. split; [rewrite lookup_insert_ne by exact Hne; exact Hk | exact Hs].
Qed.

Lemma names_insert_inv (r : gmap str blob) k b d x :
  x ∈ names (<[k:=b]> r) d -> os_path_split k = (d, x) \/ x ∈ names r d.
Proof.
  rewrite !elem_of_names. intros (k' & b' & Hk & Hs).
  destruct (decide (k = k')) as [->|Hne]; [left; exact Hs|].
  right. exists k', b'. rewrite lookup_insert_ne in Hk by exact Hne.
  split; assumption.
Qed.

Lemma names_delete_inv (r : gmap str blob) k d x :
  x ∈ names (delete k r) d -> x ∈ names r d.
Proof.
  rewrite !elem_of_names. intros (k' & b' & Hk & Hs).
  exists k', b'. split; [|exact Hs].
  destruct (decide (k = k')) as [->|Hne].
  - rewrite lookup_delete_eq in Hk. discriminate.
  - rewrite lookup_delete_ne in Hk by exact Hne. exact Hk.
Qed.

Lemma names_present (r : gmap str blob) path b :
  r !! path = Some b ->
  os_path_basename path ∈ names r (os_path_split path).1.
Proof.
  intros Hb. apply elem_of_names. exists path, b. split; [exact Hb|].
  rewrite <- split_snd. destruct (os_path_split path); reflexivity.
Qed.

Lemma exists__run_whole remote_file w :
  exists_ remote_file None w
  = (Ok (bool_decide (os_path_basename remote_file
                        ∈ names (remote w) (os_path_split remote_file).1)), w).
Proof.
  unfold exists_. cbn [truthy_opt]. rewrite <- split_snd.
  destruct (os_path_split remote_file) as [d f]. reflexivity.
Qed.

End NamesFacts.

Section MoreEngineFacts.
Import Py Transport Relay.
Context `{Essential}.
Variable self : Relay.t.
Hypothesis Hok : codec_ok self.

Let Hflat : flat_markers self := proj1 Hok.

(** No lock of [remote_file] is listed once a regular path, its
    placeholder path or its lock path has been written or removed. *)
Lemma lock_name_of_lock remote_file :
  regular self remote_file ->
  os_path_split (lock self remote_file)
  = ((os_path_split remote_file).1, _lock self (os_path_basename remote_file)).
Proof.
  intros [Hl _]. rewrite split_lock by exact Hflat.
  unfold _safeLock. unfold isLock in Hl. rewrite Hl. reflexivity.
Qed.

Lemma placeholder_name_of_placeholder remote_file :
  regular self remote_file ->
  os_path_split (placeholder self remote_file)
  = ((os_path_split remote_file).1,
     _placeholder self (os_path_basename remote_file)).
Proof.
  intros [_ Hp]. rewrite split_placeholder by exact Hflat.
  unfold _safePlaceholder. unfold isPlaceholder in Hp. rewrite Hp. reflexivity.
Qed.

Lemma regular_not_lock_name remote_file :
  regular self remote_file ->
  os_path_split remote_file
  <> ((os_path_split remote_file).1, _lock self (os_path_basename remote_file)).
Proof.
  intros [Hl _] Heq. apply (f_equal snd) in Heq. rewrite split_snd in Heq.
  simpl in Heq. unfold isLock in Hl. rewrite Heq, _isLock_lock in Hl.
  discriminate.
Qed.

Lemma regular_not_placeholder_name remote_file :
  regular self remote_file ->
  os_path_split remote_file
  <> ((os_path_split remote_file).1,
      _placeholder self (os_path_basename remote_file)).
Proof.
  intros [_ Hp] Heq. apply (f_equal snd) in Heq. rewrite split_snd in Heq.
  simpl in Heq. unfold isPlaceholder in Hp.
  rewrite Heq, _isPlaceholder_placeholder in Hp. discriminate.
Qed.

Lemma placeholder_not_lock_name remote_file :
  regular self remote_file ->
  os_path_split (placeholder self remote_file)
  <> ((os_path_split remote_file).1, _lock self (os_path_basename remote_file)).
Proof.
  intros Hreg Heq. rewrite placeholder_name_of_placeholder in Heq by exact Hreg.
  injection Heq as Heq. exact (proj2 Hok _ _ (eq_sym Heq)).
Qed.

Lemma lock_not_placeholder_name remote_file :
  regular self remote_file ->
  os_path_split (lock self remote_file)
  <> ((os_path_split remote_file).1,
      _placeholder self (os_path_basename remote_file)).
Proof.
  intros Hreg Heq. rewrite lock_name_of_lock in Heq by exact Hreg.
  injection Heq as Heq. exact (proj2 Hok _ _ Heq).
Qed.

End MoreEngineFacts.

Section EngineRuns.
Import Py Transport Relay.
Context `{Essential}.
Variable self : Relay.t.
Hypothesis Hok : codec_ok self.

Let Hflat : flat_markers self := proj1 Hok.

(** What a [push] to a free regular path leaves on the relay. *)
Lemma push_run rounds local_file remote_dest last_modified blocking w c :
  regular self remote_dest ->
  disk w !! User local_file = Some c ->
  _lock self (os_path_basename remote_dest)
    ∉ names (remote w) (os_path_split remote_dest).1 ->
  (blocking_truthy blocking = true -> rounds <> 0%nat) ->
  exists w',
    push self rounds (User local_file) remote_dest last_modified blocking w
    = (Ok true, w')
    /\ remote w' !! remote_dest = Some (Blob c (Seconds (clock w)))
    /\ remote w' !! lock self remote_dest = None
    /\ remote w' !! placeholder self remote_dest
       = (if truthy_opt last_modified
          then Some (Blob (default [] last_modified) (Seconds (clock w)))
          else remote w !! placeholder self remote_dest)
    /\ (forall k, k <> remote_dest -> k <> lock self remote_dest ->
                  k <> placeholder self remote_dest ->
                  remote w' !! k = remote w !! k).
Proof.
  intros Hreg Hc Hfree Hrounds.
  pose proof (lock_not_regular self Hok _ Hreg) as HLF.
  pose proof (placeholder_not_regular self Hok _ Hreg) as HPF.
  pose proof (lock_not_placeholder self Hok _ Hreg) as HLP.
  destruct w as [r d t n tf]. simpl in Hc, Hfree. simpl clock. simpl remote.
  destruct (truthy_opt last_modified) eqn:Hlm.
  - eexists. split; [|split; [|split; [|split]]].
    + unfold push. mrun. rewrite acquireLock_run by assumption. mrun.
      rewrite Hlm. unfold updatePlaceholder. rewrite touch_run. mrun.
      rewrite !lookup_delete_ne by discriminate. rewrite Hc. mrun.
      unfold releaseLock.
      erewrite unlink_run
        by (simpl; rewrite lookup_insert_ne by (apply not_eq_sym, HLF);
            rewrite lookup_insert_ne by (apply not_eq_sym, HLP);
            apply lookup_insert_eq).
      mrun. reflexivity.
    + simpl. rewrite lookup_delete_ne by exact HLF. apply lookup_insert_eq.
    + simpl. apply lookup_delete_eq.
    + simpl. rewrite lookup_delete_ne by exact HLP.
      rewrite lookup_insert_ne by (apply not_eq_sym, HPF).
      apply lookup_insert_eq.
    + intros k Hk1 Hk2 Hk3. simpl.
      rewrite lookup_delete_ne by (apply not_eq_sym, Hk2).
      rewrite lookup_insert_ne by (apply not_eq_sym, Hk1).
      rewrite lookup_insert_ne by (apply not_eq_sym, Hk3).
      rewrite lookup_insert_ne by (apply not_eq_sym, Hk2). reflexivity.
  - eexists. split; [|split; [|split; [|split]]].
    + unfold push. mrun. rewrite acquireLock_run by assumption. mrun.
      rewrite Hlm. mrun.
      rewrite !lookup_delete_ne by discriminate. rewrite Hc. mrun.
      unfold releaseLock.
      erewrite unlink_run
        by (simpl; rewrite lookup_insert_ne by (apply not_eq_sym, HLF);
            apply lookup_insert_eq).
      mrun. reflexivity.
    + simpl. rewrite lookup_delete_ne by exact HLF. apply lookup_insert_eq.
    + simpl. apply lookup_delete_eq.
    + simpl. rewrite lookup_delete_ne by exact HLP.
      rewrite lookup_insert_ne by (apply not_eq_sym, HPF).
      rewrite lookup_insert_ne by exact HLP. reflexivity.
    + intros k Hk1 Hk2 Hk3. simpl.
      rewrite lookup_delete_ne by (apply not_eq_sym, Hk2).
      rewrite lookup_insert_ne by (apply not_eq_sym, Hk1).
      rewrite lookup_insert_ne by (apply not_eq_sym, Hk2). reflexivity.
Qed.

(** X1.  [push] of a local user file to a regular remote path that is
    not locked returns [True]; afterwards the relay holds the file with
    the local content, no lock for it, a placeholder whose body is the
    last-modified text when one is given (the placeholder is left alone
    otherwise), and every other blob as before. *)
Theorem push_uploads rounds local_file remote_dest last_modified blocking w c :
  regular self remote_dest ->
  disk w !! User local_file = Some c ->
  _lock self (os_path_basename remote_dest)
    ∉ names (remote w) (os_path_split remote_dest).1 ->
  (blocking_truthy blocking = true -> rounds <> 0%nat) ->
  exists w',
    push self rounds (User local_file) remote_dest last_modified blocking w
    = (Ok true, w')
    /\ remote w' !! remote_dest = Some (Blob c (Seconds (clock w)))
    /\ remote w' !! lock self remote_dest = None
    /\ remote w' !! placeholder self remote_dest
       = (if truthy_opt last_modified
          then Some (Blob (default [] last_modified) (Seconds (clock w)))
          else remote w !! placeholder self remote_dest)
    /\ (forall k, k <> remote_dest -> k <> lock self remote_dest ->
                  k <> placeholder self remote_dest ->
                  remote w' !! k = remote w !! k).
Proof. exact (push_run rounds local_file remote_dest last_modified blocking w c). Qed.

(** X2.  While a lock for the file is listed, the calls that do not
    block give up: [push], [pop], [get] and [delete] return [False] and
    leave relay, disk and clock as they are. *)
Theorem held_lock_refuses rounds remote_file local_file pullers last_modified
    blocking kwargs w :
  _lock self (os_path_basename remote_file)
    ∈ names (remote w) (os_path_split remote_file).1 ->
  blocking_truthy blocking = false ->
  push self rounds local_file remote_file last_modified blocking w = (Ok false, w)
  /\ pop self rounds remote_file local_file pullers blocking kwargs w
     = (Ok false, w)
  /\ get self rounds remote_file local_file pullers blocking kwargs w
     = (Ok false, w)
  /\ delete_ self rounds remote_file blocking kwargs w = (Ok false, w).
Proof.
  intros Hheld Hb.
  repeat split; unfold push, pop, get, delete_;
    rewrite (bind_ok _ _ _ _ _
               (acquireLock_busy self Hflat rounds remote_file _ blocking w
                  Hheld Hb));
    reflexivity.
Qed.

(** The polling loop never ends while the lock is listed: after every
    number of rounds it is still waiting, and only the clock has moved. *)
Lemma acquireLock_wait_held rounds remote_file secs : forall w,
  _lock self (os_path_basename remote_file)
    ∈ names (remote w) (os_path_split remote_file).1 ->
  0 <= secs ->
  acquireLock_wait self rounds remote_file secs w
  = (Pending, set_clock (fun t => t + Z.of_nat rounds * secs) w).
Proof.
  induction rounds as [|rounds IH]; intros w Hheld Hsecs.
  - simpl. unfold pending. destruct w as [r d t n tf]. unfold set_clock.
    simpl. rewrite Z.add_0_r. reflexivity.
  - cbn [acquireLock_wait].
    assert (Hl : hasLock self remote_file w = (Ok true, w)).
    { rewrite hasLock_run by exact Hflat.
      rewrite bool_decide_eq_true_2 by exact Hheld. reflexivity. }
    rewrite (bind_ok _ _ _ _ _ Hl). cbv iota.
    unfold time_sleep. destruct (Z.ltb_spec secs 0) as [Hneg|_]; [lia|].
    unfold bind at 1. unfold modify.
    rewrite IH by (destruct w; simpl; assumption).
    destruct w as [r d t n tf]. unfold set_clock. simpl.
    do 2 f_equal. lia.
Qed.

(** X3.  A call that blocks never takes over a lock that stays listed:
    whatever the number of polling rounds, [pop] is still waiting, has
    written nothing to the relay, and has slept the polling interval
    once per round (60 seconds for [blocking=True]). *)
Theorem blocking_pop_waits rounds remote_file local_dest pullers blocking
    kwargs w :
  _lock self (os_path_basename remote_file)
    ∈ names (remote w) (os_path_split remote_file).1 ->
  blocking_truthy blocking = true ->
  let secs := match blocking with BlockBool _ => 60 | BlockSecs n => n end in
  0 <= secs ->
  pop self rounds remote_file local_dest pullers blocking kwargs w
  = (Pending, set_clock (fun t => t + Z.of_nat rounds * secs) w).
Proof.
  intros Hheld Hb secs Hsecs. unfold pop, acquireLock. rewrite Hb.
  fold secs.
  rewrite (bind_pending _ _ w
             (set_clock (fun t => t + Z.of_nat rounds * secs) w));
    [reflexivity|].
  apply bind_pending. apply bind_pending.
  apply acquireLock_wait_held; assumption.
Qed.

End EngineRuns.

Section PopRuns.
Import Py Transport Relay.
Context `{Essential}.
Variable self : Relay.t.
Hypothesis Hok : codec_ok self.

Let Hflat : flat_markers self := proj1 Hok.

Lemma placeholder_unlisted_after_lock (remote_file : str)
    (r : gmap str blob) (b : blob) :
  regular self remote_file ->
  _placeholder self (os_path_basename remote_file)
    ∉ names r (os_path_split remote_file).1 ->
  _placeholder self (os_path_basename remote_file)
    ∉ names (<[lock self remote_file := b]> r) (os_path_split remote_file).1.
Proof.
  intros Hreg Hno Hin. apply names_insert_inv in Hin as [Hs|Hin];
    [|exact (Hno Hin)].
  exact (lock_not_placeholder_name self Hok _ Hreg Hs).
Qed.

(** What a [pop] with at most one puller leaves on the relay. *)
Lemma pop_single_run rounds remote_file local_dest pullers blocking
    w data pb :
  regular self remote_file ->
  pullers <> 0 -> pullers <= 1 ->
  remote w !! remote_file = Some data ->
  remote w !! placeholder self remote_file = Some pb ->
  _lock self (os_path_basename remote_file)
    ∉ names (remote w) (os_path_split remote_file).1 ->
  (blocking_truthy blocking = true -> rounds <> 0%nat) ->
  exists w',
    pop self rounds remote_file (User local_dest) pullers blocking None w
    = (Ok true, w')
    /\ remote w' !! remote_file = None
    /\ remote w' !! placeholder self remote_file
       = Some (Blob (content pb ++ LF :: client self) (Seconds (clock w)))
    /\ remote w' !! lock self remote_file = None
    /\ disk w' !! User local_dest = Some (content data).
Proof.
  intros Hreg HN0 HN1 Hdata Hpb Hfree Hrounds.
  pose proof (lock_not_regular self Hok _ Hreg) as HLF.
  pose proof (placeholder_not_regular self Hok _ Hreg) as HPF.
  pose proof (lock_not_placeholder self Hok _ Hreg) as HLP.
  assert (HN0' : (pullers =? 0) = false) by (apply Z.eqb_neq; lia).
  assert (HN1' : (1 <? pullers) = false) by (apply Z.ltb_ge; lia).
  destruct w as [r d t n tf]. simpl in Hdata, Hpb, Hfree. simpl clock.
  eexists. split; [|split; [|split; [|split]]].
  - unfold pop. rewrite HN0', HN1'. mrun.
    rewrite acquireLock_run by assumption. mrun.
    rewrite hasPlaceholder_run by exact Hflat. mrun.
    rewrite bool_decide_eq_true_2
      by (eapply placeholder_listed; [exact Hok|exact Hreg|];
          rewrite lookup_insert_ne by exact HLP; exact Hpb).
    mrun. rewrite (lookup_insert_ne _ _ _ _ HLF), Hdata. mrun.
    erewrite markAsRead_run
      by (simpl; rewrite lookup_delete_ne by (apply not_eq_sym, HPF);
          rewrite lookup_insert_ne by exact HLP; exact Hpb).
    mrun. unfold releaseLock.
    erewrite unlink_run
      by (simpl; rewrite lookup_insert_ne by (apply not_eq_sym, HLP);
          rewrite lookup_delete_ne by (apply not_eq_sym, HLF);
          apply lookup_insert_eq).
    mrun. reflexivity.
  - simpl. rewrite lookup_delete_ne by exact HLF.
    rewrite lookup_insert_ne by exact HPF. apply lookup_delete_eq.
  - simpl. rewrite lookup_delete_ne by exact HLP. apply lookup_insert_eq.
  - simpl. apply lookup_delete_eq.
  - simpl. rewrite !lookup_delete_ne by discriminate. apply lookup_insert_eq.
Qed.

(** X4.  [pop] with [placeholder=True], or any puller count that is not
    above 1, of a regular file that is on the relay with its placeholder
    and without a lock: the file is downloaded and deleted, the
    placeholder gains a line with the client, and the lock is released. *)
Theorem pop_single_puller rounds remote_file local_dest pullers blocking
    w data pb :
  regular self remote_file ->
  pullers <> 0 -> pullers <= 1 ->
  remote w !! remote_file = Some data ->
  remote w !! placeholder self remote_file = Some pb ->
  _lock self (os_path_basename remote_file)
    ∉ names (remote w) (os_path_split remote_file).1 ->
  (blocking_truthy blocking = true -> rounds <> 0%nat) ->
  exists w',
    pop self rounds remote_file (User local_dest) pullers blocking None w
    = (Ok true, w')
    /\ remote w' !! remote_file = None
    /\ remote w' !! placeholder self remote_file
       = Some (Blob (content pb ++ LF :: client self) (Seconds (clock w)))
    /\ remote w' !! lock self remote_file = None
    /\ disk w' !! User local_dest = Some (content data).
Proof. exact (pop_single_run rounds remote_file local_dest pullers blocking w data pb). Qed.

(** X5.  [pop] with a placeholder requested, of a regular file for which
    no placeholder is listed: the file is downloaded and deleted, and an
    empty placeholder is created for it, whatever the puller count. *)
Theorem pop_creates_placeholder rounds remote_file local_dest pullers blocking
    kwargs w data :
  regular self remote_file ->
  pullers <> 0 ->
  remote w !! remote_file = Some data ->
  _placeholder self (os_path_basename remote_file)
    ∉ names (remote w) (os_path_split remote_file).1 ->
  _lock self (os_path_basename remote_file)
    ∉ names (remote w) (os_path_split remote_file).1 ->
  (blocking_truthy blocking = true -> rounds <> 0%nat) ->
  exists w',
    pop self rounds remote_file (User local_dest) pullers blocking kwargs w
    = (Ok true, w')
    /\ remote w' !! remote_file = None
    /\ remote w' !! placeholder self remote_file
       = Some (Blob [] (Seconds (clock w)))
    /\ remote w' !! lock self remote_file = None
    /\ disk w' !! User local_dest = Some (content data).
Proof.
  intros Hreg HN0 Hdata Hnone Hfree Hrounds.
  pose proof (lock_not_regular self Hok _ Hreg) as HLF.
  pose proof (placeholder_not_regular self Hok _ Hreg) as HPF.
  pose proof (lock_not_placeholder self Hok _ Hreg) as HLP.
  assert (HN0' : (pullers =? 0) = false) by (apply Z.eqb_neq; lia).
  destruct w as [r d t n tf]. simpl in Hdata, Hnone, Hfree. simpl clock.
  eexists. split; [|split; [|split; [|split]]].
  - unfold pop. rewrite HN0'. mrun.
    rewrite acquireLock_run by assumption. mrun.
    rewrite hasPlaceholder_run by exact Hflat. mrun.
    rewrite bool_decide_eq_false_2
      by (apply placeholder_unlisted_after_lock; assumption).
    mrun. rewrite (lookup_insert_ne _ _ _ _ HLF), Hdata. mrun.
    unfold updatePlaceholder. rewrite touch_run. mrun.
    unfold releaseLock.
    erewrite unlink_run
      by (simpl; rewrite lookup_insert_ne by (apply not_eq_sym, HLP);
          rewrite lookup_delete_ne by (apply not_eq_sym, HLF);
          apply lookup_insert_eq).
    mrun. reflexivity.
  - simpl. rewrite lookup_delete_ne by exact HLF.
    rewrite lookup_insert_ne by exact HPF. apply lookup_delete_eq.
  - simpl. rewrite lookup_delete_ne by exact HLP. apply lookup_insert_eq.
  - simpl. apply lookup_delete_eq.
  - simpl. rewrite !lookup_delete_ne by discriminate. apply lookup_insert_eq.
Qed.

(** X6.  [pop] with [placeholder=False] downloads and deletes the file
    and releases the lock; it neither creates nor changes a placeholder,
    and leaves every other blob as it is. *)
Theorem pop_without_placeholder rounds remote_file local_dest blocking
    kwargs w data :
  regular self remote_file ->
  remote w !! remote_file = Some data ->
  _lock self (os_path_basename remote_file)
    ∉ names (remote w) (os_path_split remote_file).1 ->
  (blocking_truthy blocking = true -> rounds <> 0%nat) ->
  exists w',
    pop self rounds remote_file (User local_dest) 0 blocking kwargs w
    = (Ok true, w')
    /\ remote w' !! remote_file = None
    /\ remote w' !! lock self remote_file = None
    /\ (forall k, k <> remote_file -> k <> lock self remote_file ->
                  remote w' !! k = remote w !! k)
    /\ disk w' !! User local_dest = Some (content data).
Proof.
  intros Hreg Hdata Hfree Hrounds.
  pose proof (lock_not_regular self Hok _ Hreg) as HLF.
  destruct w as [r d t n tf]. simpl in Hdata, Hfree. simpl clock.
  eexists. split; [|split; [|split; [|split]]].
  - unfold pop. change (0 =? 0) with true. mrun.
    rewrite acquireLock_run by assumption. mrun.
    rewrite (lookup_insert_ne _ _ _ _ HLF), Hdata. mrun.
    unfold releaseLock.
    erewrite unlink_run
      by (simpl; rewrite lookup_delete_ne by (apply not_eq_sym, HLF);
          apply lookup_insert_eq).
    mrun. reflexivity.
  - simpl. rewrite lookup_delete_ne by exact HLF. apply lookup_delete_eq.
  - simpl. apply lookup_delete_eq.
  - intros k Hk1 Hk2. simpl.
    rewrite lookup_delete_ne by (apply not_eq_sym, Hk2).
    rewrite lookup_delete_ne by (apply not_eq_sym, Hk1).
    rewrite lookup_insert_ne by (apply not_eq_sym, Hk2). reflexivity.
  - simpl. rewrite !lookup_delete_ne by discriminate. apply lookup_insert_eq.
Qed.

(** What a [get] leaves on the relay. *)
Lemma get_run rounds remote_file local_dest pullers blocking
    w data pb :
  regular self remote_file ->
  pullers <> 0 ->
  remote w !! remote_file = Some data ->
  remote w !! placeholder self remote_file = Some pb ->
  _lock self (os_path_basename remote_file)
    ∉ names (remote w) (os_path_split remote_file).1 ->
  (blocking_truthy blocking = true -> rounds <> 0%nat) ->
  exists w',
    get self rounds remote_file (User local_dest) pullers blocking None w
    = (Ok true, w')
    /\ remote w'
       = delete (lock self remote_file)
           (<[placeholder self remote_file :=
                Blob (content pb ++ LF :: client self) (Seconds (clock w))]>
              (<[lock self remote_file :=
                   Blob (repr_LockInfo
                           (mkLockInfo (Some (client self)) (Some $"r") None))
                        (Seconds (clock w))]> (remote w)))
    /\ clock w' = clock w
    /\ disk w' !! User local_dest = Some (content data).
Proof.
  intros Hreg HN0 Hdata Hpb Hfree Hrounds.
  pose proof (lock_not_regular self Hok _ Hreg) as HLF.
  pose proof (placeholder_not_regular self Hok _ Hreg) as HPF.
  pose proof (lock_not_placeholder self Hok _ Hreg) as HLP.
  assert (HN0' : (pullers =? 0) = false) by (apply Z.eqb_neq; lia).
  destruct w as [r d t n tf]. simpl in Hdata, Hpb, Hfree. simpl clock.
  simpl remote.
  eexists. split; [|split; [|split]].
  - unfold get. rewrite HN0'. mrun.
    rewrite acquireLock_run by assumption. mrun.
    rewrite (lookup_insert_ne _ _ _ _ HLF), Hdata. mrun.
    rewrite hasPlaceholder_run by exact Hflat. mrun.
    rewrite bool_decide_eq_true_2
      by (eapply placeholder_listed; [exact Hok|exact Hreg|];
          rewrite lookup_insert_ne by exact HLP; exact Hpb).
    mrun.
    erewrite markAsRead_run
      by (simpl; rewrite lookup_insert_ne by exact HLP; exact Hpb).
    mrun. unfold releaseLock.
    erewrite unlink_run
      by (simpl; rewrite lookup_insert_ne by (apply not_eq_sym, HLP);
          apply lookup_insert_eq).
    mrun. reflexivity.
  - reflexivity.
  - reflexivity.
  - simpl. rewrite !lookup_delete_ne by discriminate. apply lookup_insert_eq.
Qed.

(** X8.  [get] of a regular file that is on the relay with its
    placeholder and without a lock keeps the file on the relay, adds a
    line with the client to the placeholder, for every puller count
    other than 0, and releases the lock. *)
Theorem get_marks_as_read rounds remote_file local_dest pullers blocking
    w data pb :
  regular self remote_file ->
  pullers <> 0 ->
  remote w !! remote_file = Some data ->
  remote w !! placeholder self remote_file = Some pb ->
  _lock self (os_path_basename remote_file)
    ∉ names (remote w) (os_path_split remote_file).1 ->
  (blocking_truthy blocking = true -> rounds <> 0%nat) ->
  exists w',
    get self rounds remote_file (User local_dest) pullers blocking None w
    = (Ok true, w')
    /\ remote w'
       = delete (lock self remote_file)
           (<[placeholder self remote_file :=
                Blob (content pb ++ LF :: client self) (Seconds (clock w))]>
              (<[lock self remote_file :=
                   Blob (repr_LockInfo
                           (mkLockInfo (Some (client self)) (Some $"r") None))
                        (Seconds (clock w))]> (remote w)))
    /\ clock w' = clock w
    /\ disk w' !! User local_dest = Some (content data).
Proof. exact (get_run rounds remote_file local_dest pullers blocking w data pb). Qed.

End PopRuns.

Section FailureRuns.
Import Py Transport Relay.
Context `{Essential}.
Variable self : Relay.t.
Hypothesis Hok : codec_ok self.

Let Hflat : flat_markers self := proj1 Hok.

Lemma not_found_not_escalated :
  bool_decide (Some 2 = Some 24) = false.
Proof. apply bool_decide_eq_false_2. discriminate. Qed.

(** X7.  [pop] and [get] of a regular file that is not on the relay fail
    with the not-found error of the transport, after the lock has been
    written: the lock is not released and stays on the relay. *)
Theorem pop_missing_file_leaves_lock rounds remote_file local_dest pullers
    blocking kwargs w :
  regular self remote_file ->
  remote w !! remote_file = None ->
  _lock self (os_path_basename remote_file)
    ∉ names (remote w) (os_path_split remote_file).1 ->
  (blocking_truthy blocking = true -> rounds <> 0%nat) ->
  (exists w',
      pop self rounds remote_file local_dest pullers blocking kwargs w
      = (Raise not_found, w')
      /\ is_Some (remote w' !! lock self remote_file)
      /\ remote w' !! remote_file = None)
  /\ (exists w',
         get self rounds remote_file local_dest pullers blocking kwargs w
         = (Raise not_found, w')
         /\ is_Some (remote w' !! lock self remote_file)
         /\ remote w' !! remote_file = None).
Proof.
  intros Hreg Hmissing Hfree Hrounds.
  pose proof (lock_not_regular self Hok _ Hreg) as HLF.
  pose proof (lock_not_placeholder self Hok _ Hreg) as HLP.
  destruct w as [r d t n tf]. simpl in Hmissing, Hfree. split.
  - unfold pop. mrun. rewrite acquireLock_run by assumption. mrun.
    assert (Hend :
              let held :=
                <[lock self remote_file :=
                    Blob (repr_LockInfo
                            (mkLockInfo (Some (client self)) (Some $"r") None))
                         (Seconds t)]> r in
              is_Some (held !! lock self remote_file)
              /\ held !! remote_file = None).
    { simpl. rewrite lookup_insert_eq, (lookup_insert_ne _ _ _ _ HLF).
      split; [eexists; reflexivity | exact Hmissing]. }
    destruct (pullers =? 0); mrun.
    + rewrite (lookup_insert_ne _ _ _ _ HLF), Hmissing.
      unfold not_found. mrun. rewrite not_found_not_escalated. mrun.
      eexists; (split; [reflexivity | exact Hend]).
    + rewrite hasPlaceholder_run by exact Hflat. mrun.
      destruct (bool_decide _); mrun; [destruct (1 <? pullers); mrun|].
      * rewrite newTemporaryFile_run. mrun.
        rewrite (lookup_insert_ne _ _ _ _ HLP).
        destruct (r !! placeholder self remote_file) as [pb|]; mrun.
        -- rewrite lookup_insert_eq. mrun.
           destruct (_ <? _); mrun;
             rewrite (lookup_insert_ne _ _ _ _ HLF), Hmissing;
             unfold not_found; mrun; rewrite not_found_not_escalated; mrun;
             eexists; (split; [reflexivity | exact Hend]).
        -- unfold not_found. mrun. rewrite not_found_not_escalated. mrun.
           eexists; (split; [reflexivity | exact Hend]).
      * rewrite (lookup_insert_ne _ _ _ _ HLF), Hmissing.
        unfold not_found. mrun. rewrite not_found_not_escalated. mrun.
        eexists; (split; [reflexivity | exact Hend]).
      * rewrite (lookup_insert_ne _ _ _ _ HLF), Hmissing.
        unfold not_found. mrun. rewrite not_found_not_escalated. mrun.
        eexists; (split; [reflexivity | exact Hend]).
  - unfold get. mrun. rewrite acquireLock_run by assumption. mrun.
    rewrite (lookup_insert_ne _ _ _ _ HLF), Hmissing.
    unfold not_found. mrun. rewrite not_found_not_escalated. mrun.
    eexists. split; [reflexivity|]. simpl.
    rewrite lookup_insert_eq, (lookup_insert_ne _ _ _ _ HLF).
    split; [eexists; reflexivity | exact Hmissing].
Qed.

End FailureRuns.

Section RepairRuns.
Import Py Transport Relay.
Context `{Essential}.
Variable self : Relay.t.
Hypothesis Hok : codec_ok self.

Let Hflat : flat_markers self := proj1 Hok.

Lemma releasePlace_present remote_file handle_missing w b :
  remote w !! placeholder self remote_file = Some b ->
  releasePlace self remote_file handle_missing w
  = (Ok tt,
     World (delete (placeholder self remote_file) (remote w))
           (delete (Temp (next_temp w)) (disk w)) (clock w)
           (S (next_temp w)) (_temporary_files w)).
Proof.
  intros Hb. unfold releasePlace, try_except.
  rewrite (unlink_run _ _ _ Hb). reflexivity.
Qed.

Lemma releasePlace_missing remote_file handle_missing w :
  remote w !! placeholder self remote_file = None ->
  releasePlace self remote_file handle_missing w
  = ((if handle_missing then Ok tt else Raise not_found),
     World (remote w) (delete (Temp (next_temp w)) (disk w)) (clock w)
           (S (next_temp w)) (_temporary_files w)).
Proof.
  intros Hb. unfold releasePlace, try_except.
  rewrite (unlink_missing _ _ Hb). unfold not_found.
  rewrite not_found_not_escalated. destruct handle_missing; reflexivity.
Qed.

(** X10.  [releasePlace] deletes the placeholder of the file and nothing
    else; when there is none it succeeds without touching the relay if
    [handle_missing] is set, and fails with the not-found error of the
    transport otherwise. *)
Theorem releasePlace_outcomes remote_file handle_missing w :
  exists w',
    releasePlace self remote_file handle_missing w
    = ((if bool_decide (is_Some (remote w !! placeholder self remote_file))
           || handle_missing
        then Ok tt else Raise not_found), w')
    /\ remote w' = delete (placeholder self remote_file) (remote w)
    /\ clock w' = clock w.
Proof.
  destruct (remote w !! placeholder self remote_file) as [b|] eqn:Hb.
  - rewrite (releasePlace_present _ handle_missing _ _ Hb).
    rewrite bool_decide_eq_true_2 by (eexists; reflexivity).
    eexists. repeat split.
  - rewrite (releasePlace_missing _ handle_missing _ Hb).
    rewrite bool_decide_eq_false_2 by (intros [? ?]; discriminate).
    eexists. split; [reflexivity|]. split; [|reflexivity].
    simpl. symmetry. apply delete_id, Hb.
Qed.

Lemma markAsRead_missing remote_file w :
  remote w !! placeholder self remote_file = None ->
  markAsRead self remote_file None w
  = (Raise not_found,
     World (remote w) (<[Temp (next_temp w) := []]> (disk w)) (clock w)
           (S (next_temp w)) (_temporary_files w ++ [Temp (next_temp w)])).
Proof.
  destruct w as [r d t n tf]. simpl. intros Hb. unfold markAsRead.
  mrun. rewrite newTemporaryFile_run. mrun. rewrite Hb.
  unfold not_found. mrun. rewrite not_found_not_escalated. reflexivity.
Qed.

(** X9.  [delete] of a regular file that is on the relay without a lock
    removes the file.  With a placeholder on the relay it then adds a
    line with the client to it, releases the lock and returns [True];
    without one the call fails with the not-found error of the
    transport, the file being removed already and the lock left on the
    relay. *)
Theorem delete_outcomes rounds remote_file blocking w data :
  regular self remote_file ->
  remote w !! remote_file = Some data ->
  _lock self (os_path_basename remote_file)
    ∉ names (remote w) (os_path_split remote_file).1 ->
  (blocking_truthy blocking = true -> rounds <> 0%nat) ->
  exists w',
    delete_ self rounds remote_file blocking None w
    = (match remote w !! placeholder self remote_file with
       | Some _ => Ok true
       | None => Raise not_found
       end, w')
    /\ remote w' !! remote_file = None
    /\ match remote w !! placeholder self remote_file with
       | Some pb =>
           remote w' !! placeholder self remote_file
           = Some (Blob (content pb ++ LF :: client self) (Seconds (clock w)))
           /\ remote w' !! lock self remote_file = None
       | None =>
           remote w' !! placeholder self remote_file = None
           /\ is_Some (remote w' !! lock self remote_file)
       end.
Proof.
  intros Hreg Hdata Hfree Hrounds.
  pose proof (lock_not_regular self Hok _ Hreg) as HLF.
  pose proof (placeholder_not_regular self Hok _ Hreg) as HPF.
  pose proof (lock_not_placeholder self Hok _ Hreg) as HLP.
  destruct w as [r d t n tf]. simpl in Hdata, Hfree. simpl clock. simpl remote.
  destruct (r !! placeholder self remote_file) as [pb|] eqn:Hpb.
  - eexists. split; [|split; [|split]].
    + unfold delete_. mrun. rewrite acquireLock_run by assumption. mrun.
      erewrite unlink_run
        by (simpl; rewrite lookup_insert_ne by exact HLF; exact Hdata).
      mrun.
      erewrite markAsRead_run
        by (simpl; rewrite lookup_delete_ne by (apply not_eq_sym, HPF);
            rewrite lookup_insert_ne by exact HLP; exact Hpb).
      mrun. unfold releaseLock.
      erewrite unlink_run
        by (simpl; rewrite lookup_insert_ne by (apply not_eq_sym, HLP);
            rewrite lookup_delete_ne by (apply not_eq_sym, HLF);
            apply lookup_insert_eq).
      mrun. reflexivity.
    + simpl. rewrite lookup_delete_ne by exact HLF.
      rewrite lookup_insert_ne by exact HPF. apply lookup_delete_eq.
    + simpl. rewrite lookup_delete_ne by exact HLP. apply lookup_insert_eq.
    + simpl. apply lookup_delete_eq.
  - eexists. split; [|split; [|split]].
    + unfold delete_. mrun. rewrite acquireLock_run by assumption. mrun.
      erewrite unlink_run
        by (simpl; rewrite lookup_insert_ne by exact HLF; exact Hdata).
      mrun.
      rewrite markAsRead_missing
        by (simpl; rewrite lookup_delete_ne by (apply not_eq_sym, HPF);
            rewrite lookup_insert_ne by exact HLP; exact Hpb).
      mrun. reflexivity.
    + simpl. apply lookup_delete_eq.
    + simpl. rewrite lookup_delete_ne by (apply not_eq_sym, HPF).
      rewrite lookup_insert_ne by exact HLP. exact Hpb.
    + simpl. rewrite lookup_delete_ne by (apply not_eq_sym, HLF).
      rewrite lookup_insert_eq. eexists. reflexivity.
Qed.

Lemma releasePlace_handled remote_file w :
  releasePlace self remote_file true w
  = (Ok tt,
     World (delete (placeholder self remote_file) (remote w))
           (delete (Temp (next_temp w)) (disk w)) (clock w)
           (S (next_temp w)) (_temporary_files w)).
Proof.
  destruct (remote w !! placeholder self remote_file) as [b|] eqn:Hb.
  - apply (releasePlace_present _ _ _ _ Hb).
  - rewrite (releasePlace_missing _ _ _ Hb), (delete_id _ _ Hb). reflexivity.
Qed.

(** X11.  [repair] of a lock in write mode (a push that crashed) on a
    regular target whose lock blob is on the relay removes the remote
    file if there is one, the placeholder if there is one, and the lock,
    and nothing else, whether the local file exists or not. *)
Theorem repair_write_lock lock_ local_file remote_file w lb found_locally :
  mode lock_ = Some $"w" ->
  target lock_ = Some remote_file ->
  regular self remote_file ->
  Accessor.exists_ local_file w = (Ok found_locally, w) ->
  remote w !! lock self remote_file = Some lb ->
  is_Some (remote w !! remote_file)
  \/ os_path_basename remote_file
       ∉ names (remote w) (os_path_split remote_file).1 ->
  exists w',
    repair self lock_ local_file w = (Ok tt, w')
    /\ remote w'
       = delete (lock self remote_file)
           (delete (placeholder self remote_file)
              (delete remote_file (remote w)))
    /\ clock w' = clock w.
Proof.
  intros Hmode Htarget Hreg Hlocal Hlb Hcase.
  pose proof (lock_not_regular self Hok _ Hreg) as HLF.
  pose proof (lock_not_placeholder self Hok _ Hreg) as HLP.
  destruct w as [r d t n tf]. simpl in Hlb, Hcase. simpl remote. simpl clock.
  unfold repair, target_path. rewrite Hmode, Htarget.
  rewrite bool_decide_eq_true_2 by reflexivity.
  unfold bind at 1 2. rewrite Hlocal. mrun. rewrite exists__run_whole. mrun.
  destruct (r !! remote_file) as [b|] eqn:Hb.
  - rewrite bool_decide_eq_true_2 by (eapply names_present; exact Hb).
    mrun. erewrite unlink_run by (simpl; exact Hb). mrun.
    rewrite releasePlace_handled. mrun. unfold releaseLock.
    erewrite unlink_run
      by (simpl; rewrite lookup_delete_ne by (apply not_eq_sym, HLP);
          rewrite lookup_delete_ne by (apply not_eq_sym, HLF); exact Hlb).
    eexists. split; [reflexivity|]. split; reflexivity.
  - destruct Hcase as [[? ?]|Hno]; [discriminate|].
    rewrite bool_decide_eq_false_2 by exact Hno.
    mrun. rewrite releasePlace_handled. mrun. unfold releaseLock.
    erewrite unlink_run
      by (simpl; rewrite lookup_delete_ne by (apply not_eq_sym, HLP);
          exact Hlb).
    eexists. split; [reflexivity|]. split; [|reflexivity].
    simpl. rewrite (delete_id _ _ Hb). reflexivity.
Qed.

End RepairRuns.

Section AccessorRuns.
Import Py Transport Relay.
Context `{Essential}.
Variable self : Relay.t.
Hypothesis Hok : codec_ok self.
Variable controller_ : AccessController.t.

(** X12.  [repair] of a lock in read mode (a pop that crashed), with the
    accessor the access controller makes for a local file that exists:
    unless the controller is in download mode the accessor refuses to
    delete the file, [repair] fails with that error before it touches
    the relay, and the lock is not released. *)
Theorem repair_read_lock_refused lock_ filename w c :
  mode lock_ = Some $"r" ->
  AccessController.mode controller_ <> Some $"download" ->
  disk w !! User (join (AccessController.path controller_) filename) = Some c ->
  (do local_file <- AccessController.accessor controller_ filename;
   repair self lock_ local_file) w
  = (Raise (EnvironmentError None), w).
Proof.
  intros Hmode Hctl Hc. unfold AccessController.accessor,
    AccessController.os_path_isfile, repair.
  rewrite Hmode.
  rewrite (bool_decide_eq_false_2 (Some $"r" = Some $"w")) by discriminate.
  rewrite (bool_decide_eq_true_2 (Some $"r" = Some $"r")) by reflexivity.
  rewrite (bool_decide_eq_false_2 _ Hctl).
  unfold bind at 1 2. unfold gets. rewrite Hc.
  rewrite bool_decide_eq_true_2 by (eexists; reflexivity).
  reflexivity.
Qed.

(** X13.  In download mode the same repair deletes the local file; it
    releases the lock, and it removes the placeholder only when the
    remote file is gone, so that the file is requested again; a remote
    file that is still there is kept with its placeholder. *)
Theorem repair_read_lock_download lock_ filename remote_file w c lb :
  mode lock_ = Some $"r" ->
  target lock_ = Some remote_file ->
  regular self remote_file ->
  AccessController.mode controller_ = Some $"download" ->
  disk w !! User (join (AccessController.path controller_) filename) = Some c ->
  remote w !! lock self remote_file = Some lb ->
  is_Some (remote w !! remote_file)
  \/ os_path_basename remote_file
       ∉ names (remote w) (os_path_split remote_file).1 ->
  exists w',
    (do local_file <- AccessController.accessor controller_ filename;
     repair self lock_ local_file) w
    = (Ok tt, w')
    /\ disk w' !! User (join (AccessController.path controller_) filename) = None
    /\ remote w'
       = delete (lock self remote_file)
           (if bool_decide (is_Some (remote w !! remote_file))
            then remote w
            else delete (placeholder self remote_file) (remote w))
    /\ clock w' = clock w.
Proof.
  intros Hmode Htarget Hreg Hctl Hc Hlb Hcase.
  pose proof (lock_not_regular self Hok _ Hreg) as HLF.
  pose proof (lock_not_placeholder self Hok _ Hreg) as HLP.
  destruct w as [r d t n tf]. simpl in Hc, Hlb, Hcase. simpl remote. simpl clock.
  unfold AccessController.accessor, AccessController.os_path_isfile, repair,
    target_path.
  rewrite Hmode, Htarget, Hctl.
  rewrite (bool_decide_eq_false_2 (Some $"r" = Some $"w")) by discriminate.
  rewrite (bool_decide_eq_true_2 (Some $"r" = Some $"r")) by reflexivity.
  rewrite (bool_decide_eq_true_2 (Some $"download" = Some $"download"))
    by reflexivity.
  mrun. rewrite Hc.
  rewrite (bool_decide_eq_true_2 (is_Some (Some c))) by (eexists; reflexivity).
  mrun. cbv beta iota delta [Accessor.exists_ Accessor.delete_]. mrun.
  rewrite Hc. mrun. rewrite exists__run_whole. mrun.
  destruct (r !! remote_file) as [b|] eqn:Hb.
  - rewrite bool_decide_eq_true_2 by (eapply names_present; exact Hb).
    rewrite (bool_decide_eq_true_2 (is_Some (Some b)))
      by (eexists; reflexivity).
    mrun. unfold releaseLock.
    erewrite unlink_run by (simpl; exact Hlb).
    eexists. split; [reflexivity|]. split; [|split; reflexivity].
    simpl. rewrite lookup_delete_ne by discriminate. apply lookup_delete_eq.
  - destruct Hcase as [[? ?]|Hno]; [discriminate|].
    rewrite bool_decide_eq_false_2 by exact Hno.
    rewrite (bool_decide_eq_false_2 (is_Some None))
      by (intros [? ?]; discriminate).
    mrun. rewrite (releasePlace_handled self). mrun. unfold releaseLock.
    erewrite unlink_run
      by (simpl; rewrite lookup_delete_ne by (apply not_eq_sym, HLP);
          exact Hlb).
    eexists. split; [reflexivity|]. split; [|split; reflexivity].
    simpl. rewrite !lookup_delete_ne by discriminate. apply lookup_delete_eq.
Qed.

End AccessorRuns.

Section InspectRuns.
Import Py Transport Relay.
Context `{Essential}.
Variable self : Relay.t.

(** X14.  Each [markAsRead] without local copy, by a client whose
    identifier is not empty and holds no line feed and no carriage
    return, raises the number of lines [pop] counts in the placeholder
    by one; by two when the body was empty or ended with a line feed. *)
Theorem markAsRead_adds_a_line remote_file w pb :
  remote w !! placeholder self remote_file = Some pb ->
  client self <> [] ->
  contains LF (client self) = false ->
  contains CR (client self) = false ->
  exists w1 pb1,
    markAsRead self remote_file None w = (Ok tt, w1)
    /\ remote w1 !! placeholder self remote_file = Some pb1
    /\ length (readlines (content pb1))
       = (length (readlines (content pb))
          + if bool_decide (last (content pb) = Some LF)
               || negb (truthy (content pb))
            then 2 else 1)%nat.
Proof.
  intros Hpb Hclient HLF HCR.
  eexists _, _. split; [apply (markAsRead_run self _ _ _ Hpb)|].
  split; [simpl; apply lookup_insert_eq|].
  simpl. rewrite !readlines_line_count.
  apply line_count_reader; assumption.
Qed.

(** X15.  [getMetaInfo] returns nothing and changes nothing when no
    placeholder is listed for the file; otherwise it copies the body of
    the placeholder to the output file, or, when no output file is
    given or its path is empty, to a new temporary file that it
    registers and leaves on disk, returns that path, and leaves the
    relay as it is. *)
Theorem getMetaInfo_outcomes remote_file output_file w :
  flat_markers self ->
  (_placeholder self (os_path_basename remote_file)
     ∉ names (remote w) (os_path_split remote_file).1 ->
   getMetaInfo self remote_file output_file w = (Ok None, w))
  /\ (forall pb,
         regular self remote_file ->
         remote w !! placeholder self remote_file = Some pb ->
         let local_placeholder :=
           if truthy_path output_file
           then default (Temp (next_temp w)) output_file
           else Temp (next_temp w) in
         exists w',
           getMetaInfo self remote_file output_file w
           = (Ok (Some local_placeholder), w')
           /\ disk w' !! local_placeholder = Some (content pb)
           /\ remote w' = remote w
           /\ (truthy_path output_file = false ->
               local_placeholder ∈ _temporary_files w')).
Proof.
  intros Hflat. split.
  - intros Hno. unfold getMetaInfo. unfold bind.
    rewrite hasPlaceholder_run by exact Hflat.
    rewrite bool_decide_eq_false_2 by exact Hno. reflexivity.
  - intros pb [Hl Hp] Hpb local_placeholder.
    assert (Hlisted : _placeholder self (os_path_basename remote_file)
                        ∈ names (remote w) (os_path_split remote_file).1).
    { apply elem_of_names. exists (placeholder self remote_file), pb.
      split; [exact Hpb|]. rewrite split_placeholder by exact Hflat.
      unfold _safePlaceholder. unfold isPlaceholder in Hp. rewrite Hp.
      reflexivity. }
    destruct w as [r d t n tf]. simpl in Hpb, Hlisted. subst local_placeholder.
    unfold getMetaInfo. mrun. rewrite hasPlaceholder_run by exact Hflat.
    rewrite bool_decide_eq_true_2 by exact Hlisted.
    assert (Hnew :
      exists w',
        (do local_placeholder <- newTemporaryFile;
         _safe (_get (placeholder self remote_file) local_placeholder) ;;
         ret (Some local_placeholder)) (World r d t n tf)
        = (Ok (Some (Temp n)), w')
        /\ disk w' !! Temp n = Some (content pb)
        /\ remote w' = r
        /\ Temp n ∈ _temporary_files w').
    { mrun. rewrite newTemporaryFile_run. mrun. rewrite Hpb. mrun.
      eexists. split; [reflexivity|].
      simpl. rewrite lookup_insert_eq. repeat split.
      apply list_elem_of_In, in_or_app. right. left. reflexivity. }
    destruct output_file as [f|]; cbn [truthy_path].
    + destruct (lpath_truthy f) eqn:Hf.
      * cbn [from_option id]. mrun. rewrite Hpb. mrun.
        eexists. split; [reflexivity|].
        simpl. rewrite lookup_insert_eq. repeat split. discriminate.
      * destruct Hnew as (w' & Hrun & Hdisk & Hremote & Htemp).
        exists w'. split; [exact Hrun|]. split; [exact Hdisk|].
        split; [exact Hremote|]. intros _. exact Htemp.
    + destruct Hnew as (w' & Hrun & Hdisk & Hremote & Htemp).
      exists w'. split; [exact Hrun|]. split; [exact Hdisk|].
      split; [exact Hremote|]. intros _. exact Htemp.
Qed.

(** X16.  [getLockInfo] never changes the relay or the clock.  It returns
    the zero-value information when the file has no lock blob, and, once
    [acquireLock] has succeeded, what [parse_lock_file] makes of the
    body [acquireLock] wrote: the representation of this client and the
    mode. *)
Theorem getLockInfo_reads_the_lock rounds remote_file mode_ blocking w :
  flat_markers self ->
  (exists w',
      getLockInfo self remote_file w
      = (Ok (stored_lock_info self (remote w) remote_file), w')
      /\ remote w' = remote w /\ clock w' = clock w)
  /\ (remote w !! lock self remote_file = None ->
      stored_lock_info self (remote w) remote_file = LockInfo_zero)
  /\ (_lock self (os_path_basename remote_file)
        ∉ names (remote w) (os_path_split remote_file).1 ->
      (blocking_truthy blocking = true -> rounds <> 0%nat) ->
      exists w',
        (acquireLock self rounds remote_file mode_ blocking ;;
         getLockInfo self remote_file) w
        = (Ok (parse_lock_file
                 (repr_LockInfo (mkLockInfo (Some (client self)) mode_ None))
                 remote_file), w')).
Proof.
  intros Hflat. split; [|split].
  - rewrite getLockInfo_run. eexists. repeat split.
  - intros Hnone. unfold stored_lock_info. rewrite Hnone. reflexivity.
  - intros Hfree Hrounds.
    rewrite (bind_ok _ _ _ _ _
               (acquireLock_run self Hflat rounds remote_file mode_ blocking w
                  Hfree Hrounds)).
    rewrite getLockInfo_run. unfold stored_lock_info. simpl remote.
    rewrite lookup_insert_eq. eexists. reflexivity.
Qed.

End InspectRuns.

(** * Sequences of operations *)

Section Sequences.
Import Py Transport Relay.
Context `{Essential}.



Lemma relay_of_regular a ta b tb path :
  regular (relay_of a ta) path -> regular (relay_of b tb) path.
Proof. intros Hreg. exact Hreg. Qed.

(** A lock stays unlisted on a relay that differs from one without the
    lock in the file, its placeholder and its removed lock only. *)
Lemma lock_still_unlisted (self : Relay.t) (r m : gmap str blob) remote_file :
  codec_ok self ->
  regular self remote_file ->
  _lock self (os_path_basename remote_file)
    ∉ names r (os_path_split remote_file).1 ->
  m !! lock self remote_file = None ->
  (forall k, k <> remote_file -> k <> lock self remote_file ->
             k <> placeholder self remote_file -> m !! k = r !! k) ->
  _lock self (os_path_basename remote_file)
    ∉ names m (os_path_split remote_file).1.
Proof.
  intros Hok Hreg Hfree Hnone Hsame Hin.
  apply elem_of_names in Hin as (k & b & Hk & Hs).
  destruct (decide (k = remote_file)) as [->|HkF];
    [exact (regular_not_lock_name self _ Hreg Hs)|].
  destruct (decide (k = lock self remote_file)) as [->|HkL]; [congruence|].
  destruct (decide (k = placeholder self remote_file)) as [->|HkP];
    [exact (placeholder_not_lock_name self Hok _ Hreg Hs)|].
  rewrite (Hsame k HkF HkL HkP) in Hk.
  apply Hfree, elem_of_names. exists k, b. split; assumption.
Qed.

(** X17.  A push by one client followed by a pop by another, with
    [placeholder=True]: the second client gets the content that was
    pushed; the file and the lock are gone from the relay, and the
    placeholder stays there, its body the last-modified text and a line
    with the second client. *)
Theorem push_then_pop a ta b tb rounds local_file remote_file last_modified
    local_dest w c :
  rounds <> 0%nat ->
  regular (relay_of a ta) remote_file ->
  truthy last_modified = true ->
  disk w !! User local_file = Some c ->
  _lock (relay_of a ta) (os_path_basename remote_file)
    ∉ names (remote w) (os_path_split remote_file).1 ->
  exists w',
    (push (relay_of a ta) rounds (User local_file) remote_file
       (Some last_modified) (BlockBool true) ;;
     pop (relay_of b tb) rounds remote_file (User local_dest) 1
       (BlockBool true) None) w
    = (Ok true, w')
    /\ remote w' !! remote_file = None
    /\ remote w' !! lock (relay_of b tb) remote_file = None
    /\ content <$> remote w' !! placeholder (relay_of b tb) remote_file
       = Some (last_modified ++ LF :: b)
    /\ disk w' !! User local_dest = Some c.
Proof.
  intros Hrounds Hreg Hlm Hc Hfree.
  destruct (push_run (relay_of a ta) (relay_of_codec_ok a ta) rounds
              local_file remote_file (Some last_modified) (BlockBool true)
              w c Hreg Hc Hfree (fun _ => Hrounds))
    as (w1 & Hpush & HF & HL & HP & Hrest).
  cbn [truthy_opt] in HP. rewrite Hlm in HP. cbn [default from_option id] in HP.
  assert (Hfree1 : _lock (relay_of b tb) (os_path_basename remote_file)
                     ∉ names (remote w1) (os_path_split remote_file).1).
  { apply (lock_still_unlisted (relay_of a ta) (remote w) (remote w1));
      [apply relay_of_codec_ok | assumption..]. }
  destruct (pop_single_run (relay_of b tb) (relay_of_codec_ok b tb) rounds
              remote_file local_dest 1 (BlockBool true) w1 _ _
              (relay_of_regular a ta b tb _ Hreg) ltac:(lia) ltac:(lia)
              HF HP Hfree1 (fun _ => Hrounds))
    as (w2 & Hpop & HF2 & HP2 & HL2 & Hdisk).
  exists w2. rewrite (bind_ok _ _ _ _ _ Hpush).
  split; [exact Hpop|]. split; [exact HF2|]. split; [exact HL2|].
  split; [rewrite HP2; reflexivity | exact Hdisk].
Qed.


End Sequences.

(** * Marker names *)

Section MarkerNames.
Import Py Transport Relay.
Variable self : Relay.t.
Hypothesis Hflat : flat_markers self.

(** X19.  Two regular files never share a placeholder, nor a lock: on
    regular paths without doubled separator before the final component,
    the placeholder name and the lock name determine the file. *)
Theorem marker_names_injective p q :
  regular self p -> regular self q -> normalized p -> normalized q ->
  (placeholder self p = placeholder self q -> p = q)
  /\ (lock self p = lock self q -> p = q).
Proof.
  intros [Hlp Hpp] [Hlq Hpq] Hnp Hnq. split; intros Heq.
  - rewrite <- (fromPlaceholder_placeholder self Hflat p Hpp Hnp), Heq.
    apply fromPlaceholder_placeholder; assumption.
  - rewrite <- (fromLock_lock self Hflat p Hlp Hnp), Heq.
    apply fromLock_lock; assumption.
Qed.

End MarkerNames.

Section SpecialNames.
Import Py Transport Relay.
Variables (client_ : str) (lock_timeout_ : Z).

Let self := relay_of client_ lock_timeout_.

Lemma placeholder_is_no_lock f : _isLock self (_placeholder self f) = false.
Proof.
  unfold _isLock, _placeholder, endswith. apply andb_false_iff. right.
  change (_placeholder_prefix self) with $".".
  change (_placeholder_suffix self) with $".placeholder".
  change (_lock_suffix self) with $".lock".
  rewrite !rev_app_distr. reflexivity.
Qed.

(** X20.  On a relay made by the constructor, [fromSpecial] gives back
    the regular file a lock name or a placeholder name was made from,
    and raises [ValueError] on a name that is no lock, placeholder or
    message name. *)
Theorem fromSpecial_decodes p :
  regular self p -> normalized p ->
  fromSpecial self (lock self p) = inr p
  /\ fromSpecial self (placeholder self p) = inr p
  /\ (isMessage self p = false -> fromSpecial self p = inl ValueError).
Proof.
  intros Hreg Hn. pose proof (relay_of_codec_ok client_ lock_timeout_) as Hok.
  fold self in Hok. split; [|split].
  - unfold fromSpecial.
    rewrite (lock_name_of_lock self Hok p Hreg).
    unfold _fromSpecial. rewrite _isLock_lock, _fromLock_lock. f_equal. exact Hn.
  - unfold fromSpecial.
    rewrite (placeholder_name_of_placeholder self Hok p Hreg).
    unfold _fromSpecial.
    rewrite placeholder_is_no_lock, _isPlaceholder_placeholder,
      _fromPlaceholder_placeholder.
    f_equal. exact Hn.
  - intros Hm. destruct Hreg as [Hl Hp].
    unfold isLock, isPlaceholder, isMessage in *. unfold fromSpecial.
    rewrite <- split_snd in *. destruct (os_path_split p) as [d f].
    cbn [snd] in *. unfold _fromSpecial. rewrite Hl, Hp, Hm. reflexivity.
Qed.

End SpecialNames.

(** * Listings of transfered files *)

Section TransferedFacts.
Import Py Transport Relay.
Context `{Essential}.
Variable self : Relay.t.

Lemma listTransfered_placeholders_run ls : forall placeholders others,
  listTransfered_placeholders self ls placeholders others
  = (placeholders
       ++ map (fromPlaceholder self) (List.filter (isPlaceholder self) ls),
     others ++ List.filter (fun f => negb (isPlaceholder self f)) ls).
Proof.
  induction ls as [|file rest IH]; intros placeholders others.
  - simpl. rewrite !app_nil_r. reflexivity.
  - cbn [listTransfered_placeholders List.filter].
    destruct (isPlaceholder self file); cbn [negb map].
    + rewrite IH, <- app_assoc. reflexivity.
    + rewrite IH, <- app_assoc. reflexivity.
Qed.

Lemma listTransfered_locks_run (keep : str -> bool) ls : forall locks others,
  listTransfered_locks self (List.filter keep ls) locks others
  = (locks
       ++ map (fromLock self)
            (List.filter (fun f => keep f && isLock self f) ls),
     others ++ List.filter (fun f => keep f && negb (isLock self f)) ls).
Proof.
  induction ls as [|file rest IH]; intros locks others.
  - simpl. rewrite !app_nil_r. reflexivity.
  - cbn [List.filter]. destruct (keep file); cbn [andb].
    + cbn [listTransfered_locks].
      destruct (isLock self file); cbn [negb map].
      * rewrite IH, <- app_assoc. reflexivity.
      * rewrite IH, <- app_assoc. reflexivity.
    + apply IH.
Qed.

(** X21.  [listTransfered] decodes every listed placeholder name, in the
    order of the listing.  With [end2end] these names are the result;
    without it the result is the listed names that are neither
    placeholder nor lock names, then the decoded placeholders, then the
    decoded names of the locks that are no placeholder names.  The relay
    is left as it is. *)
Theorem listTransfered_selects remote_dir end2end recursive w :
  let ls := map fst (listing (remote w) remote_dir recursive) in
  let placeholders :=
    map (fromPlaceholder self) (List.filter (isPlaceholder self) ls) in
  let locks :=
    map (fromLock self)
      (List.filter (fun f => negb (isPlaceholder self f) && isLock self f) ls) in
  let others :=
    List.filter
      (fun f => negb (isPlaceholder self f) && negb (isLock self f)) ls in
  listTransfered self remote_dir end2end recursive w
  = (Ok (if end2end then placeholders else others ++ placeholders ++ locks), w).
Proof.
  intros ls placeholders locks others. unfold listTransfered. mrun.
  fold ls. unfold listTransfered_of.
  rewrite listTransfered_placeholders_run. cbn [app].
  destruct end2end; [reflexivity|].
  rewrite listTransfered_locks_run. reflexivity.
Qed.

End TransferedFacts.

(** * Relays with page listings *)

Section PRelayFacts.
Import Py Transport Relay.
Variable self : Relay.t.

(** X22.  With the listings [PRelay] defines itself ([listPlaceheld] and
    [listLocked] not overloaded), [hasPlaceholder] and [hasLock] answer
    [False] for every regular file, whatever the relay holds: the
    listings hold marker names, and the name of a regular file is
    none. *)
Theorem PRelay_listings_hold_marker_names remote_file w :
  regular self remote_file ->
  PRelay.hasPlaceholder self remote_file w = (Ok false, w)
  /\ PRelay.hasLock self remote_file w = (Ok false, w).
Proof.
  intros [Hl Hp]. unfold isLock, isPlaceholder in Hl, Hp.
  pose proof (basename_flat remote_file) as Hf.
  unfold PRelay.hasPlaceholder, PRelay.hasLock,
    PRelay.listPlaceheld, PRelay.listLocked.
  rewrite <- split_snd in *. destruct (os_path_split remote_file) as [d f].
  cbn [snd] in *. mrun.
  split; f_equal; f_equal; apply bool_decide_eq_false_2; intros Hin;
    apply list_elem_of_filter in Hin as [Hin _];
    unfold isPlaceholder, isLock in Hin;
    rewrite (basename_of_flat _ Hf) in Hin; congruence.
Qed.

End PRelayFacts.

(** * Access attributes *)

Section AttributeRuns.
Import Py Access.
Variable location_ : str.

Let self := AccessAttributes.__init__ (Some location_).

Lemma _set_run attr resource perm_ c w :
  symbol perm_ = Some c ->
  AccessAttributes._set self attr resource perm_ w
  = (Ok tt,
     State (<[resource := take attr (record w resource) ++ c
                          :: drop (attr + 1) (record w resource)]> (table w))
           (files w)).
Proof.
  intros Hc. destruct w as [tbl fs]. unfold AccessAttributes._set, record.
  cbn [AccessAttributes.location self AccessAttributes.__init__].
  arun. cbn [table files].
  destruct (tbl !! resource) as [v|]; destruct perm_; try discriminate;
    injection Hc as <-; arun; reflexivity.
Qed.

(** X23.  A setter of the access attributes writes one symbol of the
    record of one resource: [setReadability] the first and
    [setWritability] the second, the other symbol, the records of the
    other resources and the files staying as they are.  The record is
    two symbols long afterwards, as it was. *)
Theorem setters_write_one_symbol resource perm_ c w r0 w0 :
  symbol perm_ = Some c ->
  record w resource = [r0; w0] ->
  (exists w',
      AccessAttributes.setReadability self resource perm_ w = (Ok tt, w')
      /\ record w' resource = [c; w0]
      /\ (forall k, k <> resource -> table w' !! k = table w !! k)
      /\ files w' = files w)
  /\ (exists w',
         AccessAttributes.setWritability self resource perm_ w = (Ok tt, w')
         /\ record w' resource = [r0; c]
         /\ (forall k, k <> resource -> table w' !! k = table w !! k)
         /\ files w' = files w).
Proof.
  intros Hc Hrec.
  unfold AccessAttributes.setReadability, AccessAttributes.setWritability.
  split; eexists; (split; [apply (_set_run _ _ _ c), Hc|]);
    rewrite Hrec; unfold record; cbn [table files];
    (split; [rewrite lookup_insert_eq; reflexivity|]);
    (split; [|reflexivity]);
    intros k Hk; apply lookup_insert_ne; congruence.
Qed.

(** X24.  Setting the readability and the writability of a resource
    gives the same store in either order: the record holds the two
    symbols set. *)
Theorem readability_writability_commute resource r w_ cr cw st r0 w0 :
  symbol r = Some cr -> symbol w_ = Some cw ->
  record st resource = [r0; w0] ->
  (AccessAttributes.setReadability self resource r ;;
   AccessAttributes.setWritability self resource w_) st
  = (Ok tt, State (<[resource := [cr; cw]]> (table st)) (files st))
  /\ (AccessAttributes.setWritability self resource w_ ;;
      AccessAttributes.setReadability self resource r) st
     = (Ok tt, State (<[resource := [cr; cw]]> (table st)) (files st)).
Proof.
  intros Hr Hw Hrec.
  unfold AccessAttributes.setReadability, AccessAttributes.setWritability.
  split.
  - rewrite (bind_ok _ _ _ _ _ (_set_run _ _ _ cr _ Hr)).
    rewrite (_set_run _ _ _ cw _ Hw). unfold record. cbn [table files].
    rewrite lookup_insert_eq, insert_insert_eq. cbn [from_option id].
    fold (record st resource). rewrite Hrec. reflexivity.
  - rewrite (bind_ok _ _ _ _ _ (_set_run _ _ _ cw _ Hw)).
    rewrite (_set_run _ _ _ cr _ Hr). unfold record. cbn [table files].
    rewrite lookup_insert_eq, insert_insert_eq. cbn [from_option id].
    fold (record st resource). rewrite Hrec. reflexivity.
Qed.

(** X25.  A value that is not [True], [False] or [None] is refused with
    [ValueError] by every setter, and the store stays as it is. *)
Theorem setters_refuse_other_values attr resource w :
  AccessAttributes._set self attr resource PermOther w = (Raise ValueError, w).
Proof.
  destruct w as [tbl fs]. unfold AccessAttributes._set.
  cbn [AccessAttributes.location self AccessAttributes.__init__].
  arun. destruct (tbl !! resource); reflexivity.
Qed.

End AttributeRuns.

(** * Access controller *)

Section ControllerRuns.
Import Py Access.
Variable os_path_relpath : str -> str -> str.

(** X26.  In conservative mode, [confirmPull] of a relative filename
    marks the resource writable whether or not the file is on disk.  A
    [confirmPush] that follows marks the resource not writable, the
    readability symbol staying as it was, when the file is on disk, and
    also when it is missing and the controller has a logger: the record
    [confirmPull] has left lets the file pass.  When the file is missing
    and the controller has no logger, the call of the logger on that
    path fails with [AttributeError] and the record stays writable. *)
Theorem confirmPull_then_confirmPush name_ path_ location_ logger_ filename
    st r0 w0 :
  let self := conservative name_ path_ location_ logger_ in
  truthy location_ = true ->
  truthy filename = true ->
  startswith filename [sep] = false ->
  record st filename = [r0; w0] ->
  AccessController.confirmPull os_path_relpath self filename st
  = (Ok tt, State (<[filename := [r0; "+"%char]]> (table st)) (files st))
  /\ (AccessController.confirmPull os_path_relpath self filename ;;
      AccessController.confirmPush os_path_relpath self filename) st
     = if bool_decide (os_path_join path_ filename ∈ files st) || logger_
       then (Ok tt, State (<[filename := [r0; "-"%char]]> (table st))
                          (files st))
       else (Raise AttributeError,
             State (<[filename := [r0; "+"%char]]> (table st)) (files st)).
Proof.
  intros self Hloc Hname Hrel Hrec.
  assert (Hfmt : AccessController._format os_path_relpath self filename
                 = (Some filename, os_path_join path_ filename)).
  { unfold AccessController._format. rewrite Hrel. reflexivity. }
  assert (Hpull : AccessController.confirmPull os_path_relpath self filename st
                  = (Ok tt, State (<[filename := [r0; "+"%char]]> (table st))
                                  (files st))).
  { unfold AccessController.confirmPull.
    rewrite bool_decide_eq_true_2 by reflexivity. rewrite Hfmt. cbn [fst].
    unfold AccessAttributes.setWritable.
    rewrite (_set_run location_ _ _ PermTrue "+"%char st eq_refl).
    rewrite Hrec. reflexivity. }
  split; [exact Hpull|].
  rewrite (bind_ok _ _ _ _ _ Hpull).
  unfold AccessController.confirmPush.
  rewrite bool_decide_eq_true_2 by reflexivity.
  assert (Hset : AccessAttributes.setNotWritable
                   (AccessController.persistent self) filename
                   (State (<[filename := [r0; "+"%char]]> (table st)) (files st))
                 = (Ok tt, State (<[filename := [r0; "-"%char]]> (table st))
                                 (files st))).
  { unfold AccessAttributes.setNotWritable.
    rewrite (_set_run location_ _ _ PermFalse "-"%char _ eq_refl).
    unfold record. cbn [table files].
    rewrite lookup_insert_eq, insert_insert_eq. reflexivity. }
  destruct (bool_decide (os_path_join path_ filename ∈ files st)) eqn:Hfound;
    cbn [orb].
  - apply bool_decide_eq_true_1 in Hfound.
    rewrite (__safe___found os_path_relpath self _ filename _ filename);
      [exact Hset | rewrite Hfmt; reflexivity | exact Hname
       | rewrite Hfmt; exact Hfound].
  - apply bool_decide_eq_false_1 in Hfound.
    rewrite (__safe___recorded os_path_relpath self _ filename _ filename);
      [ | rewrite Hfmt; reflexivity | exact Hname
        | rewrite Hfmt; exact Hfound | exact Hloc
        | cbn [table]; rewrite lookup_insert_eq; eexists; reflexivity].
    change (AccessController.logger self) with logger_.
    destruct logger_; [exact Hset | reflexivity].
Qed.

Lemma lower_char_idempotent c : lower_char (lower_char c) = lower_char c.
Proof.
  destruct c as [[] [] [] [] [] [] [] []]; reflexivity.
Qed.

Lemma lower_idempotent (s : str) : lower (lower s) = lower s.
Proof.
  unfold lower. rewrite map_map. apply map_ext. intros c.
  apply lower_char_idempotent.
Qed.

(** X27.  The setter of [mode] ignores the case of the letters, and
    the mode it stores is [download], [upload], [shared] or
    [conservative]; storing a stored mode again changes nothing.  A
    name it does not know raises [ValueError]. *)
Theorem set_mode_normalizes (m : str) :
  AccessController.set_mode (Some (lower m)) = AccessController.set_mode (Some m)
  /\ (forall m', AccessController.set_mode (Some m) = inr m' ->
        m' ∈ [Some $"download"; Some $"upload"; Some $"shared";
              Some $"conservative"]
        /\ AccessController.set_mode m' = inr m')
  /\ (AccessController.set_mode (Some m) = inl ValueError
      <-> (lower m ∉ [ $"download"; $"upload"; $"conservative"; $"protective" ])
          /\ startswith (lower m) $"shar" = false).
Proof.
  unfold AccessController.set_mode. rewrite lower_idempotent.
  split; [reflexivity|].
  destruct (bool_decide (lower m ∈ [ $"download"; $"upload" ])) eqn:Hdu.
  { apply bool_decide_eq_true_1 in Hdu. split.
    - intros m' [= <-].
      apply elem_of_cons in Hdu as [->|Hdu];
        [split; [compute_done | reflexivity]|].
      apply elem_of_cons in Hdu as [->|Hdu];
        [split; [compute_done | reflexivity]|].
      apply elem_of_nil in Hdu. contradiction.
    - split; [discriminate|]. intros [Hno _]. exfalso. apply Hno.
      rewrite !elem_of_cons in Hdu. rewrite !elem_of_cons. tauto. }
  apply bool_decide_eq_false_1 in Hdu.
  destruct (startswith (lower m) $"shar") eqn:Hs.
  { split.
    - intros m' [= <-]. split; [compute_done | reflexivity].
    - split; [discriminate | intros [_ ?]; discriminate]. }
  destruct (bool_decide (lower m ∈ [ $"conservative"; $"protective" ])) eqn:Hcp.
  { apply bool_decide_eq_true_1 in Hcp. split.
    - intros m' [= <-]. split; [compute_done | reflexivity].
    - split; [discriminate|]. intros [Hno _]. exfalso. apply Hno.
      rewrite !elem_of_cons in Hcp. rewrite !elem_of_cons. tauto. }
  apply bool_decide_eq_false_1 in Hcp. split; [discriminate|].
  split; [|reflexivity]. intros _. split; [|reflexivity].
  rewrite !elem_of_cons, elem_of_nil in Hdu.
  rewrite !elem_of_cons, elem_of_nil in Hcp.
  rewrite !elem_of_cons, elem_of_nil. tauto.
Qed.

End ControllerRuns.

(** * Concrete runs of the relay operations *)

(** X1: A pushes [src] as [x], with the modification time as placeholder
    body. *)
Lemma push_uploads_S2 :
  exists w',
    @Relay.push line_externals relay_A 1 (User $"src") $"x"
      (Some $"1700000000") (Relay.BlockBool true) before_push = (Ok true, w')
    /\ remote w' !! $"x" = Some (Blob $"hi" (Seconds 1700000100))
    /\ remote w' !! $".x.lock" = None
    /\ remote w' !! $".x.placeholder"
       = Some (Blob $"1700000000" (Seconds 1700000100)).
Proof.
  destruct (@push_uploads line_externals relay_A (relay_of_codec_ok _ _)
              1%nat $"src" $"x" (Some $"1700000000") (Relay.BlockBool true)
              before_push $"hi")
    as (w' & Hrun & Hfile & Hlock & Hplace & _).
  - split; reflexivity.
  - reflexivity.
  - compute_done.
  - intros _. discriminate.
  - exists w'. repeat split; assumption.
Defined.

(** X2: while A holds the lock of [x], the calls of B that do not block
    return [False]. *)
Lemma held_lock_refuses_S2 :
  @Relay.push line_externals relay_B 1 (User $"src") $"x" None
    (Relay.BlockBool false) locked_by_A = (Ok false, locked_by_A)
  /\ @Relay.pop line_externals relay_B 1 $"x" (User $"src") 1
       (Relay.BlockBool false) None locked_by_A = (Ok false, locked_by_A)
  /\ @Relay.get line_externals relay_B 1 $"x" (User $"src") 1
       (Relay.BlockBool false) None locked_by_A = (Ok false, locked_by_A)
  /\ @Relay.delete_ line_externals relay_B 1 $"x"
       (Relay.BlockBool false) None locked_by_A = (Ok false, locked_by_A).
Proof.
  refine (@held_lock_refuses line_externals relay_B (relay_of_codec_ok _ _)
            1%nat $"x" (User $"src") 1 None (Relay.BlockBool false) None
            locked_by_A _ _).
  - compute_done.
  - reflexivity.
Defined.

(** X3: a blocking [pop] of B polls three times, a minute apart, and is
    still waiting. *)
Lemma blocking_pop_waits_S2 :
  @Relay.pop line_externals relay_B 3 $"x" (User $"dest") 1
    (Relay.BlockBool true) None locked_by_A
  = (Pending, set_clock (fun t => t + Z.of_nat 3 * 60) locked_by_A).
Proof.
  refine (@blocking_pop_waits line_externals relay_B (relay_of_codec_ok _ _)
            3%nat $"x" (User $"dest") 1 (Relay.BlockBool true) None
            locked_by_A _ _ _).
  - compute_done.
  - reflexivity.
  - discriminate.
Defined.

(** X4: B, the only puller, pops [x]. *)
Lemma pop_single_puller_S2 :
  exists w',
    @Relay.pop line_externals relay_B 1 $"x" (User $"dest") 1
      (Relay.BlockBool true) None after_push = (Ok true, w')
    /\ remote w' !! $"x" = None
    /\ remote w' !! $".x.placeholder"
       = Some (Blob ($"1700000000" ++ Py.LF :: $"B") (Seconds 1700000200))
    /\ remote w' !! $".x.lock" = None
    /\ disk w' !! User $"dest" = Some $"hi".
Proof.
  refine (@pop_single_puller line_externals relay_B (relay_of_codec_ok _ _)
            1%nat $"x" $"dest" 1 (Relay.BlockBool true) after_push
            (Blob $"hi" (Seconds 1700000100))
            (Blob $"1700000000" (Seconds 1700000100)) _ _ _ _ _ _ _).
  - split; reflexivity.
  - discriminate.
  - discriminate.
  - reflexivity.
  - reflexivity.
  - compute_done.
  - intros _. discriminate.
Defined.

(** X5: B pops a file that has no placeholder. *)
Lemma pop_creates_placeholder_run :
  exists w',
    @Relay.pop line_externals relay_B 1 $"x" (User $"dest") 1
      (Relay.BlockBool true) None bare_file = (Ok true, w')
    /\ remote w' !! $"x" = None
    /\ remote w' !! $".x.placeholder" = Some (Blob [] (Seconds 1700000200))
    /\ remote w' !! $".x.lock" = None
    /\ disk w' !! User $"dest" = Some $"hi".
Proof.
  refine (@pop_creates_placeholder line_externals relay_B
            (relay_of_codec_ok _ _) 1%nat $"x" $"dest" 1 (Relay.BlockBool true)
            None bare_file (Blob $"hi" (Seconds 1700000100)) _ _ _ _ _ _).
  - split; reflexivity.
  - discriminate.
  - reflexivity.
  - compute_done.
  - compute_done.
  - intros _. discriminate.
Defined.

(** X6: B pops [x] with [placeholder=False]; the placeholder of [x] is
    not touched. *)
Lemma pop_without_placeholder_S2 :
  exists w',
    @Relay.pop line_externals relay_B 1 $"x" (User $"dest") 0
      (Relay.BlockBool true) None after_push = (Ok true, w')
    /\ remote w' !! $"x" = None
    /\ remote w' !! $".x.placeholder"
       = Some (Blob $"1700000000" (Seconds 1700000100))
    /\ disk w' !! User $"dest" = Some $"hi".
Proof.
  destruct (@pop_without_placeholder line_externals relay_B
              (relay_of_codec_ok _ _) 1%nat $"x" $"dest" (Relay.BlockBool true)
              None after_push (Blob $"hi" (Seconds 1700000100)))
    as (w' & Hrun & Hfile & _ & Hrest & Hdisk).
  - split; reflexivity.
  - reflexivity.
  - compute_done.
  - intros _. discriminate.
  - exists w'. split; [exact Hrun|]. split; [exact Hfile|].
    split; [|exact Hdisk].
    rewrite (Hrest $".x.placeholder"); [reflexivity | discriminate..].
Defined.

(** X7: B pops a file that is not on the relay. *)
Lemma pop_missing_file_run :
  exists w',
    @Relay.pop line_externals relay_B 1 $"x" (User $"dest") 1
      (Relay.BlockBool true) None empty_relay = (Raise not_found, w')
    /\ is_Some (remote w' !! $".x.lock")
    /\ remote w' !! $"x" = None.
Proof.
  refine (proj1 (@pop_missing_file_leaves_lock line_externals relay_B
                   (relay_of_codec_ok _ _) 1%nat $"x" (User $"dest") 1
                   (Relay.BlockBool true) None empty_relay _ _ _ _)).
  - split; reflexivity.
  - reflexivity.
  - compute_done.
  - intros _. discriminate.
Defined.

(** X8: B gets [x], which stays on the relay. *)
Lemma get_marks_as_read_S2 :
  exists w',
    @Relay.get line_externals relay_B 1 $"x" (User $"dest") 2
      (Relay.BlockBool true) None after_push = (Ok true, w')
    /\ remote w' !! $"x" = Some (Blob $"hi" (Seconds 1700000100))
    /\ remote w' !! $".x.placeholder"
       = Some (Blob ($"1700000000" ++ Py.LF :: $"B") (Seconds 1700000200))
    /\ disk w' !! User $"dest" = Some $"hi".
Proof.
  destruct (@get_marks_as_read line_externals relay_B (relay_of_codec_ok _ _)
              1%nat $"x" $"dest" 2 (Relay.BlockBool true) after_push
              (Blob $"hi" (Seconds 1700000100))
              (Blob $"1700000000" (Seconds 1700000100)))
    as (w' & Hrun & Hremote & _ & Hdisk).
  - split; reflexivity.
  - discriminate.
  - reflexivity.
  - reflexivity.
  - compute_done.
  - intros _. discriminate.
  - exists w'. split; [exact Hrun|]. rewrite Hremote.
    split; [reflexivity|]. split; [reflexivity | exact Hdisk].
Defined.

(** X9: B deletes [x], which has a placeholder. *)
Lemma delete_outcomes_S2 :
  exists w',
    @Relay.delete_ line_externals relay_B 1 $"x" (Relay.BlockBool true) None
      after_push = (Ok true, w')
    /\ remote w' !! $"x" = None
    /\ (remote w' !! $".x.placeholder"
        = Some (Blob ($"1700000000" ++ Py.LF :: $"B") (Seconds 1700000200))
        /\ remote w' !! $".x.lock" = None).
Proof.
  refine (@delete_outcomes line_externals relay_B (relay_of_codec_ok _ _)
            1%nat $"x" (Relay.BlockBool true) after_push
            (Blob $"hi" (Seconds 1700000100)) _ _ _ _).
  - split; reflexivity.
  - reflexivity.
  - compute_done.
  - intros _. discriminate.
Defined.

(** X11: the lock that a crashed push of A has left is repaired. *)
Lemma repair_write_lock_S2 :
  exists w',
    Relay.repair relay_A write_lock kept_file locked_by_A = (Ok tt, w')
    /\ remote w'
       = delete $".x.lock"
           (delete $".x.placeholder" (delete $"x" (remote locked_by_A)))
    /\ clock w' = 1700000200.
Proof.
  refine (@repair_write_lock relay_A (relay_of_codec_ok _ _) write_lock
            kept_file $"x" locked_by_A
            (Blob ($"A" ++ Py.LF :: $"w") (Seconds 1700000150)) true
            _ _ _ _ _ _).
  - reflexivity.
  - reflexivity.
  - split; reflexivity.
  - reflexivity.
  - reflexivity.
  - left. eexists. reflexivity.
Defined.

(** X12: the lock that a crashed pop of B has left, with the local copy
    on disk and a controller in shared mode. *)
Lemma repair_read_lock_refused_S2 :
  (do local_file <- @AccessController.accessor line_externals
                      (controller None) $"x";
   Relay.repair relay_B read_lock local_file) crashed_pop
  = (Raise (EnvironmentError None), crashed_pop).
Proof.
  refine (@repair_read_lock_refused line_externals relay_B (controller None)
            read_lock $"x" crashed_pop $"h" _ _ _).
  - reflexivity.
  - discriminate.
  - reflexivity.
Defined.

(** X13: the same, with a controller in download mode. *)
Lemma repair_read_lock_download_S2 :
  exists w',
    (do local_file <- @AccessController.accessor line_externals
                        downloader $"x";
     Relay.repair relay_B read_lock local_file) crashed_pop = (Ok tt, w')
    /\ disk w' !! User $"/home/user/repo/x" = None
    /\ remote w' = delete $".x.lock" (remote crashed_pop)
    /\ clock w' = 1700000200.
Proof.
  refine (@repair_read_lock_download line_externals relay_B
            (relay_of_codec_ok _ _) downloader read_lock $"x" $"x" crashed_pop
            $"h" (Blob ($"B" ++ Py.LF :: $"r") (Seconds 1700000150))
            _ _ _ _ _ _ _).
  - reflexivity.
  - reflexivity.
  - split; reflexivity.
  - reflexivity.
  - reflexivity.
  - reflexivity.
  - left. eexists. reflexivity.
Defined.

(** X14: the first mark on the placeholder of scenario S2. *)
Lemma markAsRead_adds_a_line_S2 :
  exists w1 pb1,
    @Relay.markAsRead relay_B $"x" None after_push = (Ok tt, w1)
    /\ remote w1 !! $".x.placeholder" = Some pb1
    /\ length (Py.readlines (content pb1)) = 2%nat.
Proof.
  refine (@markAsRead_adds_a_line relay_B $"x" after_push
            (Blob $"1700000000" (Seconds 1700000100)) _ _ _ _).
  - reflexivity.
  - discriminate.
  - reflexivity.
  - reflexivity.
Defined.

(** X15: the placeholder of [x] is copied to a new temporary file. *)
Lemma getMetaInfo_S2 :
  exists w',
    Relay.getMetaInfo relay_B $"x" None after_push
    = (Ok (Some (Temp 0)), w')
    /\ disk w' !! Temp 0 = Some $"1700000000"
    /\ remote w' = remote after_push
    /\ (truthy_path None = false -> Temp 0 ∈ _temporary_files w').
Proof.
  refine (proj2 (@getMetaInfo_outcomes relay_B $"x" None
                   after_push (relay_of_flat _ _))
            (Blob $"1700000000" (Seconds 1700000100)) _ _).
  - split; reflexivity.
  - reflexivity.
Defined.

(** X16: the lock B has just acquired, as it is read back. *)
Lemma getLockInfo_S2 :
  exists w',
    (@Relay.acquireLock line_externals relay_B 1 $"x" (Some $"r")
       (Relay.BlockBool true) ;;
     @Relay.getLockInfo line_externals relay_B $"x") after_push
    = (Ok (mkLockInfo (Some $"B") (Some $"r") (Some $"x")), w').
Proof.
  refine (proj2 (proj2 (@getLockInfo_reads_the_lock line_externals relay_B
                          1%nat $"x" (Some $"r") (Relay.BlockBool true)
                          after_push (relay_of_flat _ _))) _ _).
  - compute_done.
  - intros _. discriminate.
Defined.

(** X17: A pushes [x] and B pops it. *)
Lemma push_then_pop_S2 :
  exists w',
    (@Relay.push line_externals relay_A 1 (User $"src") $"x"
       (Some $"1700000000") (Relay.BlockBool true) ;;
     @Relay.pop line_externals relay_B 1 $"x" (User $"dest") 1
       (Relay.BlockBool true) None) before_push
    = (Ok true, w')
    /\ remote w' !! $"x" = None
    /\ remote w' !! $".x.lock" = None
    /\ content <$> remote w' !! $".x.placeholder"
       = Some ($"1700000000" ++ Py.LF :: $"B")
    /\ disk w' !! User $"dest" = Some $"hi".
Proof.
  refine (@push_then_pop line_externals $"A" 3600 $"B" 3600 1%nat $"src" $"x"
            $"1700000000" $"dest" before_push $"hi" _ _ _ _ _).
  - discriminate.
  - split; reflexivity.
  - reflexivity.
  - reflexivity.
  - compute_done.
Defined.


(** X19: [dir/foo] and [dir/bar]. *)
Lemma marker_names_foo_bar :
  (Relay.placeholder relay_B $"dir/foo" = Relay.placeholder relay_B $"dir/bar"
   -> $"dir/foo" = $"dir/bar")
  /\ (Relay.lock relay_B $"dir/foo" = Relay.lock relay_B $"dir/bar"
      -> $"dir/foo" = $"dir/bar").
Proof.
  refine (@marker_names_injective relay_B (relay_of_flat _ _)
            $"dir/foo" $"dir/bar" _ _ _ _).
  - split; reflexivity.
  - split; reflexivity.
  - reflexivity.
  - reflexivity.
Defined.

(** X20: the markers of [dir/foo]. *)
Lemma fromSpecial_foo :
  Relay.fromSpecial relay_B $"dir/.foo.lock" = inr $"dir/foo"
  /\ Relay.fromSpecial relay_B $"dir/.foo.placeholder" = inr $"dir/foo"
  /\ (Relay.isMessage relay_B $"dir/foo" = false
      -> Relay.fromSpecial relay_B $"dir/foo" = inl ValueError).
Proof.
  refine (@fromSpecial_decodes $"B" 3600 $"dir/foo" _ _).
  - split; reflexivity.
  - reflexivity.
Defined.

(** X22: [x] has a placeholder on the relay. *)
Lemma PRelay_S2 :
  PRelay.hasPlaceholder relay_B $"x" after_push = (Ok false, after_push)
  /\ PRelay.hasLock relay_B $"x" after_push = (Ok false, after_push).
Proof.
  refine (@PRelay_listings_hold_marker_names relay_B $"x" after_push _).
  split; reflexivity.
Defined.

(** X23: the record [+ ] of [a.txt]. *)
Lemma setters_a_txt :
  (exists w',
      AccessAttributes.setReadability (AccessAttributes.__init__ (Some $"db"))
        $"a.txt" Access.PermFalse deleted_file = (Ok tt, w')
      /\ record w' $"a.txt" = $"- ")
  /\ (exists w',
         AccessAttributes.setWritability (AccessAttributes.__init__ (Some $"db"))
           $"a.txt" Access.PermFalse deleted_file = (Ok tt, w')
         /\ record w' $"a.txt" = $"+-").
Proof.
  destruct (@setters_write_one_symbol $"db" $"a.txt" Access.PermFalse
              "-"%char deleted_file "+"%char " "%char eq_refl eq_refl)
    as [(w1 & Hrun1 & Hrec1 & _) (w2 & Hrun2 & Hrec2 & _)].
  split; [exists w1 | exists w2]; split; assumption.
Defined.

(** X24: [a.txt] made readable and not writable. *)
Lemma commute_a_txt :
  (AccessAttributes.setReadability (AccessAttributes.__init__ (Some $"db"))
     $"a.txt" Access.PermTrue ;;
   AccessAttributes.setWritability (AccessAttributes.__init__ (Some $"db"))
     $"a.txt" Access.PermFalse) deleted_file
  = (Ok tt, Access.State (<[ $"a.txt" := $"+-" ]> (Access.table deleted_file))
                         (Access.files deleted_file))
  /\ (AccessAttributes.setWritability (AccessAttributes.__init__ (Some $"db"))
        $"a.txt" Access.PermFalse ;;
      AccessAttributes.setReadability (AccessAttributes.__init__ (Some $"db"))
        $"a.txt" Access.PermTrue) deleted_file
     = (Ok tt, Access.State (<[ $"a.txt" := $"+-" ]> (Access.table deleted_file))
                            (Access.files deleted_file)).
Proof.
  refine (@readability_writability_commute $"db" $"a.txt" Access.PermTrue
            Access.PermFalse "+"%char "-"%char deleted_file "+"%char " "%char
            _ _ _); reflexivity.
Defined.

(** X26: [a.txt], recorded and missing on disk, with a controller that
    has a logger, and with one that has none. *)
Lemma confirm_a_txt :
  ((AccessController.confirmPull relpath_unused
      (conservative $"repo" $"/home/user/repo" $"db" true) $"a.txt" ;;
    AccessController.confirmPush relpath_unused
      (conservative $"repo" $"/home/user/repo" $"db" true) $"a.txt")
     deleted_file
   = (Ok tt, Access.State (<[ $"a.txt" := $"+-" ]> (Access.table deleted_file))
                          (Access.files deleted_file)))
  /\ ((AccessController.confirmPull relpath_unused
         (conservative $"repo" $"/home/user/repo" $"db" false) $"a.txt" ;;
       AccessController.confirmPush relpath_unused
         (conservative $"repo" $"/home/user/repo" $"db" false) $"a.txt")
        deleted_file
      = (Raise AttributeError,
         Access.State (<[ $"a.txt" := $"++" ]> (Access.table deleted_file))
                      (Access.files deleted_file))).
Proof.
  split.
  - refine (proj2 (@confirmPull_then_confirmPush relpath_unused $"repo"
                     $"/home/user/repo" $"db" true $"a.txt" deleted_file
                     "+"%char " "%char _ _ _ _)); reflexivity.
  - refine (proj2 (@confirmPull_then_confirmPush relpath_unused $"repo"
                     $"/home/user/repo" $"db" false $"a.txt" deleted_file
                     "+"%char " "%char _ _ _ _)); reflexivity.
Defined.
